(** * Chunked artifact fan-out: a shallow embedding and its properties

    The development follows the layout of the Python sources:

    - [PyStr]      Python [str] / [bytes] values and the builtin operations
                   the sources call on them (slicing, [rfind], [rstrip], ...);
    - [Chunking]   the splitter of [artifacts/chunking.py];
    - [Naming]     the [_part_{i}_of_{n}] naming scheme and
                   [artifact_fanout.parse_chunk_indices];
    - [Utf8]       the codecs used by [pipelines/common/splitters.py];
    - [SplitCore]  its pure splitters, [Splitters] its file splitters;
    - [FS]         the file system as the sources observe it, and the
                   state-and-exception monad that threads it;
    - [Checksum]   [pipelines/common/checksum.py];
    - [Artifacts]  the chunk writer and cleanup of [artifacts/] and
                   [artifacts/formats/html.py];
    - [Fanout]     [artifact_fanout.py];
    - [Markdown]   [chunking.pair_segments] and
                   [artifacts/formats/markdown.py];
    - [Legacy]     the splitter of [content_extractor.py].

    The statements come after the embedding: first their vocabulary, then
    the lemmas and, for each claim [C1] .. [C10] of the specification, its
    theorem; last, under [X1] .. [X24], properties of the code around the
    claims: the other splitters, the writers and the generators.

    Python integers are unbounded, so they are [Z].  A [str] is the list of
    its code points, a [bytes] value the list of its bytes (both [list Z]). *)

From Stdlib Require Import ZArith List Lia Bool String Ascii.
From stdpp Require Import base option list gmap sorting.

Open Scope Z_scope.

(* ===================================================================== *)
(** * Python strings *)
(* ===================================================================== *)

Module PyStr.

(** A [str]: the sequence of its code points. *)
Abbreviation pystr := (list Z).

(** A string literal of the source. *)
Definition lit (s : string) : pystr :=
  map (fun a => Z.of_N (N_of_ascii a)) (list_ascii_of_string s).

Definition nl : Z := 10.

Definition len {A} (s : list A) : Z := Z.of_nat (length s).

(** Index normalisation of a slice bound ([PySlice_AdjustIndices] with
    step 1): negative bounds count from the end, then clamp to [0, n]. *)
Definition adjust_index (i n : Z) : Z :=
  if i <? 0 then Z.max 0 (i + n) else Z.min i n.

(** [s[lo:hi]]. *)
Definition slice {A} (s : list A) (lo hi : Z) : list A :=
  let n := len s in
  let a := adjust_index lo n in
  let b := adjust_index hi n in
  firstn (Z.to_nat (b - a)) (skipn (Z.to_nat a) s).

(** [s[:hi]] and [s[lo:]]. *)
Definition slice_to {A} (s : list A) (hi : Z) : list A := slice s 0 hi.
Definition slice_from {A} (s : list A) (lo : Z) : list A := slice s lo (len s).

(** Scan for the last position in [a, b) holding [c]; [best] is the
    candidate found so far and [i] the index of the head of [s]. *)
Fixpoint rfind_scan (c : Z) (s : pystr) (i a b best : Z) : Z :=
  match s with
  | [] => best
  | x :: t =>
      rfind_scan c t (i + 1) a b
        (if (a <=? i) && (i <? b) && (x =? c) then i else best)
  end.

(** [s.rfind(c, start, end)] for a one-character needle: the bounds are
    adjusted as CPython's [ADJUST_INDICES] does ([end] is clamped to the
    length, negative bounds are shifted by the length and floored at 0; a
    [start] beyond the length is left alone), the result is the highest
    matching index or -1. *)
Definition rfind (s : pystr) (c : Z) (start stop : Z) : Z :=
  let n := len s in
  let b := if n <? stop then n
           else if stop <? 0 then Z.max 0 (stop + n) else stop in
  let a := if start <? 0 then Z.max 0 (start + n) else start in
  rfind_scan c s 0 a b (-1).

(** Characters for which [str.isspace] holds; [strip]/[rstrip] without
    argument remove exactly these. *)
Definition is_space (c : Z) : bool :=
  ((9 <=? c) && (c <=? 13)) || ((28 <=? c) && (c <=? 32))
  || (c =? 133) || (c =? 160) || (c =? 5760)
  || ((8192 <=? c) && (c <=? 8202))
  || (c =? 8232) || (c =? 8233) || (c =? 8239) || (c =? 8287)
  || (c =? 12288).

Fixpoint lstrip (s : pystr) : pystr :=
  match s with
  | c :: t => if is_space c then lstrip t else s
  | [] => []
  end.

Definition rstrip (s : pystr) : pystr := rev (lstrip (rev s)).
Definition strip (s : pystr) : pystr := rstrip (lstrip s).

(** [sep.join(parts)]. *)
Fixpoint join (sep : pystr) (parts : list pystr) : pystr :=
  match parts with
  | [] => []
  | [p] => p
  | p :: ps => p ++ sep ++ join sep ps
  end.

(** Decimal digits of a natural number, least significant first; the fuel
    bounds the number of digits. *)
Fixpoint digits_rev (fuel : nat) (n : Z) : list Z :=
  match fuel with
  | O => []
  | S f => (48 + n mod 10) :: (if n <? 10 then [] else digits_rev f (n / 10))
  end.

(** [str(n)] for [n >= 0] (as produced by an f-string field [{n}]). *)
Definition str_of_int (n : Z) : pystr :=
  if n <? 0 then 45 :: rev (digits_rev (S (Z.to_nat (Z.log2 (- n)))) (- n))
  else rev (digits_rev (S (Z.to_nat (Z.log2 n))) n).

End PyStr.
Export PyStr.

(* ===================================================================== *)
(** * artifacts/chunking.py : the newline-preferring splitter *)
(* ===================================================================== *)

Module Chunking.

(** One iteration of the [while] loop of [split_text_on_newlines], at
    position [cursor < len text]: the segment appended to [chunks] and the
    new cursor.

    The test [newline_break > cursor + max_chars * 0.5] compares an [int]
    with a [float]; Python compares them exactly, and the right-hand side
    is computed without rounding for every length a string can have
    (below 2^52), so the test is [2 * newline_break > 2 * cursor +
    max_chars] on integers. *)
Definition window_limit (text : pystr) (max_chars cursor : Z) : Z :=
  let length := len text in
  let limit := Z.min length (cursor + max_chars) in
  if limit <? length then
    let newline_break := rfind text nl cursor limit in
    if 2 * cursor + max_chars <? 2 * newline_break
    then newline_break + 1
    else limit
  else limit.

Definition window_segment (text : pystr) (max_chars cursor : Z) : pystr :=
  let limit := window_limit text max_chars cursor in
  let segment := slice text cursor limit in
  match segment with
  | [] => slice text cursor (cursor + max_chars)
  | _ => segment
  end.

(** The [while cursor < length] loop.  [None] means the fuel ran out
    before the loop condition became false. *)
Fixpoint split_loop (fuel : nat) (text : pystr) (max_chars cursor : Z)
  : option (list pystr) :=
  if cursor <? len text then
    match fuel with
    | O => None
    | S fuel' =>
        match split_loop fuel' text max_chars
                (window_limit text max_chars cursor) with
        | Some rest => Some (window_segment text max_chars cursor :: rest)
        | None => None
        end
    end
  else Some [].

(** [split_text_on_newlines(text, max_chars)].  The loop is given one
    unit of fuel per character of [text]; [split_loop_fuel] below shows
    that this is all a run with [max_chars >= 1] needs, and
    [split_loop_stuck] that no amount is enough when [max_chars = 0]. *)
Definition split_text_on_newlines (text : pystr) (max_chars : Z)
  : option (list pystr) :=
  match text with
  | [] => Some [[]]
  | _ => split_loop (length text) text max_chars 0
  end.

End Chunking.
Export Chunking.

(* ===================================================================== *)
(** * The chunk naming scheme *)
(* ===================================================================== *)

(** The pattern [\d] of a [str] regular expression matches every code
    point of Unicode category Nd, and [int] reads every such digit.  The
    table is part of the Python runtime, not of this program; it is a
    parameter, known to agree with ['0'..'9'] on ASCII. *)
Class UnicodeDigits := {
  digit_value : Z -> option Z;
  digit_value_ascii : forall c, 0 <= c < 128 ->
    digit_value c = if (48 <=? c) && (c <=? 57) then Some (c - 48) else None
}.

(** The table restricted to ASCII, for running the model. *)
Definition ascii_digits : UnicodeDigits.
Proof.
  refine {| digit_value c :=
              if (48 <=? c) && (c <=? 57) then Some (c - 48) else None |}.
  reflexivity.
Defined.

Module Naming.

Definition part_tag : pystr := Eval compute in lit "_part_".
Definition of_tag : pystr := Eval compute in lit "_of_".
Definition dot : Z := 46.

(** [f"{base_name}_part_{index}_of_{total}{extension}"]
    ([chunking.write_chunks], [splitters._write_chunks] and the JSON and
    PDF generators all build chunk names this way). *)
Definition chunk_file_name (base_name : pystr) (index total : Z)
    (extension : pystr) : pystr :=
  base_name ++ part_tag ++ str_of_int index ++ of_tag ++ str_of_int total
  ++ extension.

Section Regex.
Context {U : UnicodeDigits}.

(** [s] without the prefix [p], if it starts with [p]. *)
Fixpoint strip_prefix (p s : pystr) : option pystr :=
  match p, s with
  | [], _ => Some s
  | c :: p', x :: s' => if c =? x then strip_prefix p' s' else None
  | _ :: _, [] => None
  end.

(** The longest run of decimal digits at the head of [s] (their values)
    and what follows it. *)
Fixpoint span_digits (s : pystr) : list Z * pystr :=
  match s with
  | c :: t =>
      match digit_value c with
      | Some v => let '(vs, r) := span_digits t in (v :: vs, r)
      | None => ([], s)
      end
  | [] => ([], [])
  end.

(** [int(digits)] (CPython's guard against inputs of more than 4300
    digits is not modelled). *)
Definition int_of_digits (vs : list Z) : Z :=
  fold_left (fun acc v => 10 * acc + v) vs 0.

(** A match of [CHUNK_NAME_RE = _part_(\d+)_of_(\d+)\.] anchored at the
    head of [s].  Each [\d+] is followed by a literal that is not a
    digit, so the greedy run is the only way to match and no backtracking
    is involved. *)
Definition match_chunk_name (s : pystr) : option (Z * Z) :=
  match strip_prefix part_tag s with
  | None => None
  | Some r1 =>
      match span_digits r1 with
      | ([], _) => None
      | (d1, r2) =>
          match strip_prefix of_tag r2 with
          | None => None
          | Some r3 =>
              match span_digits r3 with
              | ((_ :: _) as d2, c :: _) =>
                  if c =? dot
                  then Some (int_of_digits d1, int_of_digits d2)
                  else None
              | _ => None
              end
          end
      end
  end.

(** [CHUNK_NAME_RE.search(name)]: the leftmost match. *)
Fixpoint re_search (name : pystr) : option (Z * Z) :=
  match match_chunk_name name with
  | Some r => Some r
  | None => match name with
            | [] => None
            | _ :: t => re_search t
            end
  end.

(** [artifact_fanout.parse_chunk_indices]. *)
Definition parse_chunk_indices (name : pystr) : Z * Z :=
  match re_search name with
  | None => (0, 0)
  | Some (index, total) => (index, total)
  end.

End Regex.
End Naming.
Export Naming.

(* ===================================================================== *)
(** * Outcomes of a call *)
(* ===================================================================== *)

(** The exceptions the modelled code can raise. *)
Inductive exn :=
| UnicodeEncodeError
| UnicodeDecodeError
| OSError
| ValueError
| TypeError
| LibraryError.   (* an exception of a third-party library *)

(** A call returns a value, raises, or runs forever. *)
Inductive outcome (A : Type) :=
| Returns (a : A)
| Raises (e : exn)
| Diverges.
Arguments Returns {A} a.
Arguments Raises {A} e.
Arguments Diverges {A}.

(** Sequencing of calls that may raise. *)
Definition and_then {A B} (r : outcome A) (k : A -> outcome B) : outcome B :=
  match r with
  | Returns a => k a
  | Raises e => Raises e
  | Diverges => Diverges
  end.

(** The result of a loop run on fuel: out of fuel means the loop was
    still running. *)
Definition of_fuel {A} (r : option A) : outcome A :=
  match r with
  | Some a => Returns a
  | None => Diverges
  end.

(* ===================================================================== *)
(** * The codecs *)
(* ===================================================================== *)

Module Utf8.

(** What [str.encode("utf-8")] does to one code point; surrogates have no
    encoding. *)
Definition encode_char (c : Z) : option (list Z) :=
  if (0 <=? c) && (c <? 128) then Some [c]
  else if (128 <=? c) && (c <? 2048) then
    Some [192 + c / 64; 128 + c mod 64]
  else if (55296 <=? c) && (c <=? 57343) then None
  else if (2048 <=? c) && (c <? 65536) then
    Some [224 + c / 4096; 128 + (c / 64) mod 64; 128 + c mod 64]
  else if (65536 <=? c) && (c <? 1114112) then
    Some [240 + c / 262144; 128 + (c / 4096) mod 64;
          128 + (c / 64) mod 64; 128 + c mod 64]
  else None.

(** [payload.encode("utf-8")]; [None] stands for [UnicodeEncodeError]. *)
Fixpoint utf8_encode (s : pystr) : option (list Z) :=
  match s with
  | [] => Some []
  | c :: t =>
      match encode_char c, utf8_encode t with
      | Some bs, Some rest => Some (bs ++ rest)
      | _, _ => None
      end
  end.

Definition is_cont (b : Z) : bool := (128 <=? b) && (b <=? 191).

(** The admissible range of the second byte after the lead byte [b0] of a
    three- or four-byte sequence (it excludes overlong forms, surrogates
    and code points above U+10FFFF). *)
Definition second_ok (b0 b1 : Z) : bool :=
  if b0 =? 224 then (160 <=? b1) && (b1 <=? 191)
  else if b0 =? 237 then (128 <=? b1) && (b1 <=? 159)
  else if b0 =? 240 then (144 <=? b1) && (b1 <=? 191)
  else if b0 =? 244 then (128 <=? b1) && (b1 <=? 143)
  else is_cont b1.

(** [window.decode("utf-8")] (strict); [None] stands for
    [UnicodeDecodeError]. *)
Fixpoint utf8_decode (bs : list Z) : option pystr :=
  match bs with
  | [] => Some []
  | b0 :: t0 =>
      if (0 <=? b0) && (b0 <? 128) then
        match utf8_decode t0 with
        | Some s => Some (b0 :: s)
        | None => None
        end
      else if (194 <=? b0) && (b0 <=? 223) then
        match t0 with
        | b1 :: t1 =>
            if is_cont b1 then
              match utf8_decode t1 with
              | Some s => Some ((b0 - 192) * 64 + (b1 - 128) :: s)
              | None => None
              end
            else None
        | _ => None
        end
      else if (224 <=? b0) && (b0 <=? 239) then
        match t0 with
        | b1 :: b2 :: t2 =>
            if second_ok b0 b1 && is_cont b2 then
              match utf8_decode t2 with
              | Some s =>
                  Some ((b0 - 224) * 4096 + (b1 - 128) * 64 + (b2 - 128) :: s)
              | None => None
              end
            else None
        | _ => None
        end
      else if (240 <=? b0) && (b0 <=? 244) then
        match t0 with
        | b1 :: b2 :: b3 :: t3 =>
            if second_ok b0 b1 && is_cont b2 && is_cont b3 then
              match utf8_decode t3 with
              | Some s =>
                  Some ((b0 - 240) * 262144 + (b1 - 128) * 4096
                        + (b2 - 128) * 64 + (b3 - 128) :: s)
              | None => None
              end
            else None
        | _ => None
        end
      else None
  end.

(** [bs.decode("latin-1", "ignore")]: every byte is a code point of its
    own, so nothing is ever ignored. *)
Definition latin1_decode (bs : list Z) : pystr := bs.

End Utf8.
Export Utf8.

(* ===================================================================== *)
(** * pipelines/common/splitters.py : the pure splitters *)
(* ===================================================================== *)

Module SplitCore.

(** The inner [while slice_end > 0] loop of [_split_by_bytes]: try the
    prefixes of the window from the longest to the shortest.  [None]: the
    loop ran to [slice_end = 0] without a [break] (its [else] clause
    runs). *)
Fixpoint shrink_window (encoded : list Z) (cursor : Z) (slice_end : nat)
  : option (pystr * Z) :=
  match slice_end with
  | O => None
  | S smaller =>
      match utf8_decode
              (slice encoded cursor (cursor + Z.of_nat slice_end)) with
      | Some chunk => Some (chunk, cursor + Z.of_nat slice_end)
      | None => shrink_window encoded cursor smaller
      end
  end.

(** One iteration of the outer loop: the chunk appended and the new
    cursor. *)
Definition bytes_window (encoded : list Z) (limit cursor : Z) : pystr * Z :=
  let window := slice encoded cursor (cursor + limit) in
  match utf8_decode window with
  | Some chunk => (chunk, cursor + len window)
  | None =>
      match shrink_window encoded cursor (Z.to_nat limit) with
      | Some (chunk, cursor') => (chunk, cursor')
      | None =>
          (latin1_decode (slice encoded cursor (cursor + limit)),
           cursor + limit)
      end
  end.

Fixpoint bytes_loop (fuel : nat) (encoded : list Z) (limit cursor : Z)
  : option (list pystr) :=
  if cursor <? len encoded then
    match fuel with
    | O => None
    | S fuel' =>
        let '(chunk, cursor') := bytes_window encoded limit cursor in
        match bytes_loop fuel' encoded limit cursor' with
        | Some rest => Some (chunk :: rest)
        | None => None
        end
    end
  else Some [].

(** [_split_by_bytes(payload, limit)]. *)
Definition _split_by_bytes (payload : pystr) (limit : Z)
  : outcome (list pystr) :=
  if limit <=? 0 then Returns [payload]
  else
    match utf8_encode payload with
    | None => Raises UnicodeEncodeError
    | Some encoded =>
        if len encoded <=? limit then Returns [payload]
        else of_fuel (bytes_loop (length encoded) encoded limit 0)
    end.

(** The [while] loop of [_split_text]. *)
Fixpoint text_loop (fuel : nat) (payload : pystr) (max_chars cursor : Z)
  : option (list pystr) :=
  if cursor <? len payload then
    match fuel with
    | O => None
    | S fuel' =>
        let end_ := Z.min (len payload) (cursor + max_chars) in
        match text_loop fuel' payload max_chars end_ with
        | Some rest => Some (slice payload cursor end_ :: rest)
        | None => None
        end
    end
  else Some [].

(** [_split_text(payload, max_chars)]. *)
Definition _split_text (payload : pystr) (max_chars : Z)
  : outcome (list pystr) :=
  if (max_chars <=? 0) || (len payload <=? max_chars) then Returns [payload]
  else of_fuel (text_loop (length payload) payload max_chars 0).

End SplitCore.
Export SplitCore.

(* ===================================================================== *)
(** * The file system and the effects of a call *)
(* ===================================================================== *)

Module FS.

(** A path: the directory and the name of the file in it (names hold no
    separator; directories exist implicitly, [mkdir] only leaves a trace).
    The UTF-8 layer of [read_text]/[write_text] is not modelled: a text
    file holds the [str] it was written with, and [read_text] gives it
    back.  The code does so for a text of Unicode scalar values without
    carriage returns: [write_text] raises [UnicodeEncodeError] on a lone
    surrogate, [read_text] raises [UnicodeDecodeError] on bytes that are
    not UTF-8 and returns a carriage return as a newline.  The statements
    that depend on what a text file holds or on a text write succeeding
    say so in a hypothesis ([plain_text]). *)
Abbreviation path := (pystr * pystr)%type.

Record file := File {
  f_data : list Z;       (* content *)
  f_mtime : Z;           (* modification time *)
  f_readable : bool      (* opening it for reading succeeds *)
}.

(** What the sources print; [warning] tells the lines that start with the
    warning sign. *)
Inductive message :=
| AggregateWritten (kind : pystr) (p : path)
| ChunkWritten (kind : pystr) (p : path)
| ChunkUnchanged (p : path)
| ChunkMissing (kind : pystr) (name : pystr)
| UnableToRead (name : pystr)
| RenderFailed (what : pystr) (error : pystr)
| UnableToLocateAggregate (dataset_name : pystr)
| Skipping (kind : pystr).


Inductive event :=
| Mkdir (d : pystr)
| Wrote (p : path)
| Unlinked (p : path)
| Printed (m : message).

Record state := State {
  files : gmap path file;
  clock : Z;
  trace : list event
}.

(** A computation with effects on the file system. *)
Definition M (A : Type) : Type := state -> outcome A * state.

Definition ret {A} (a : A) : M A := fun st => (Returns a, st).

Definition bind {A B} (m : M A) (k : A -> M B) : M B :=
  fun st =>
    match m st with
    | (Returns a, st') => k a st'
    | (Raises e, st') => (Raises e, st')
    | (Diverges, st') => (Diverges, st')
    end.

Definition raise {A} (e : exn) : M A := fun st => (Raises e, st).

(** A pure call that may raise or run forever. *)
Definition lift {A} (r : outcome A) : M A := fun st => (r, st).

(** [try: m except e: handler]. *)
Definition catch {A} (e : exn) (m : M A) (handler : M A) : M A :=
  fun st =>
    match m st with
    | (Raises e', st') =>
        match e, e' with
        | OSError, OSError | ValueError, ValueError
        | TypeError, TypeError | LibraryError, LibraryError
        | UnicodeEncodeError, UnicodeEncodeError
        | UnicodeDecodeError, UnicodeDecodeError => handler st'
        | _, _ => (Raises e', st')
        end
    | r => r
    end.

Declare Scope fs_scope.
Delimit Scope fs_scope with fs.
Notation "x <- m ;; k" := (bind m (fun x => k))
  (at level 100, m at next level, right associativity) : fs_scope.
Notation "m ;; k" := (bind m (fun _ => k))
  (at level 100, right associativity) : fs_scope.
Open Scope fs_scope.

(** [for x in xs: body(x)]. *)
Fixpoint for_each {A} (xs : list A) (body : A -> M unit) : M unit :=
  match xs with
  | [] => ret tt
  | x :: rest => body x ;; for_each rest body
  end.

Definition emit (e : event) : M unit :=
  fun st => (Returns tt,
             {| files := files st; clock := clock st;
                trace := trace st ++ [e] |}).

Definition print (m : message) : M unit := emit (Printed m).

(** [path.exists()]. *)
Definition path_exists (p : path) : M bool :=
  fun st => (Returns (bool_decide (is_Some (files st !! p))), st).

(** [path.read_bytes()] / [path.read_text(encoding="utf-8")] /
    [path.open("rb")]: a missing or unreadable file raises [OSError].
    For [read_text] the content is the text of the file (see [path]
    above). *)
Definition read (p : path) : M (list Z) :=
  fun st =>
    match files st !! p with
    | Some f => if f_readable f then (Returns (f_data f), st)
                else (Raises OSError, st)
    | None => (Raises OSError, st)
    end.

(** [path.write_text(data)] / [handle.write(data)] on a file opened for
    writing: the content is replaced and the modification time set to the
    current time.  For [write_text] the data is a text that can be
    encoded (see [path] above). *)
Definition write (p : path) (data : list Z) : M unit :=
  fun st =>
    (Returns tt,
     {| files := <[p := {| f_data := data; f_mtime := clock st;
                           f_readable :=
                             match files st !! p with
                             | Some f => f_readable f
                             | None => true
                             end |}]> (files st);
        clock := clock st + 1;
        trace := trace st ++ [Wrote p] |}).

(** [path.unlink()]. *)
Definition unlink (p : path) : M unit :=
  fun st =>
    (Returns tt,
     {| files := delete p (files st); clock := clock st;
        trace := trace st ++ [Unlinked p] |}).

(** [path.mkdir(parents=True, exist_ok=True)]. *)
Definition mkdir (d : pystr) : M unit := emit (Mkdir d).

(** [fnmatch] on one path segment: [*] stands for any run of characters,
    every other character for itself ([?] and bracket classes do not
    occur in the patterns of this program unless a base name brings
    them).  [Path.glob] also reads [?] and a bracket class as wildcards
    and treats two stars in a row apart; the statements about what a
    pattern finds or clears take a base name without glob syntax
    ([glob_literal]) or patterns with [*] for only wildcard
    ([glob_plain]). *)
Fixpoint glob_match (pattern name : pystr) : bool :=
  match pattern with
  | [] => match name with [] => true | _ => false end
  | c :: pattern' =>
      if c =? 42 then
        (fix star (name : pystr) : bool :=
           glob_match pattern' name
           || match name with
              | [] => false
              | _ :: rest => star rest
              end) name
      else
        match name with
        | x :: rest => (c =? x) && glob_match pattern' rest
        | [] => false
        end
  end.

(** The names of the files of directory [d]. *)
Definition listdir (d : pystr) (st : state) : list pystr :=
  omap (fun '(p, _) => if decide (p.1 = d) then Some p.2 else None)
       (map_to_list (files st)).

(** [directory.glob(pattern)], as a list of names. *)
Definition glob (d : pystr) (pattern : pystr) : M (list pystr) :=
  fun st => (Returns (filter (fun n => glob_match pattern n = true)
                             (listdir d st)), st).

(** Code points compared as [str.__lt__] does. *)
Fixpoint str_leb (a b : pystr) : bool :=
  match a, b with
  | [], _ => true
  | _ :: _, [] => false
  | x :: a', y :: b' => (x <? y) || ((x =? y) && str_leb a' b')
  end.

Definition str_le (a b : pystr) : Prop := Is_true (str_leb a b).

#[export] Instance str_le_dec : RelDecision str_le.
Proof. intros a b. unfold str_le. apply _. Defined.

(** [sorted(names)]. *)
Definition sorted (names : list pystr) : list pystr :=
  merge_sort str_le names.

End FS.
Export FS.

(* ===================================================================== *)
(** * pipelines/common/checksum.py *)
(* ===================================================================== *)

(** [hashlib.sha256]: an object fed with [update] and read with
    [hexdigest].  The hash function is not part of this program; what the
    program relies on is the contract of [update] ("repeated calls are
    equivalent to a single call with the concatenation of all the
    arguments"). *)
Class Hasher := {
  digest : Type;
  sha256_new : digest;
  sha256_update : digest -> list Z -> digest;
  hexdigest : digest -> pystr;
  sha256_update_nil : forall d, sha256_update d [] = d;
  sha256_update_app : forall d a b,
    sha256_update (sha256_update d a) b = sha256_update d (a ++ b)
}.

(** A hasher for running the model: the digest is the data itself. *)
Definition identity_hasher : Hasher.
Proof.
  refine {| digest := list Z; sha256_new := [];
            sha256_update := fun d a => d ++ a; hexdigest := fun d => d |}.
  - intros d. apply app_nil_r.
  - intros d a b. symmetry. apply app_assoc.
Defined.

Module Checksum.
Section WithHasher.
Context {H : Hasher}.

Definition block_size : nat := Z.to_nat 65536.

(** [sha256_bytes(data)]. *)
Definition sha256_bytes (data : list Z) : pystr :=
  hexdigest (sha256_update sha256_new data).

(** The successive results of [handle.read(65536)], up to the empty one
    that ends the iteration. *)
Fixpoint read_blocks (fuel : nat) (data : list Z) : list (list Z) :=
  match fuel, data with
  | S fuel', _ :: _ =>
      take block_size data :: read_blocks fuel' (drop block_size data)
  | _, _ => []
  end.

(** [sha256_file(path)]: [None] for a missing file. *)
Definition sha256_file (p : path) : M (option pystr) :=
  present <- path_exists p ;;
  if negb present then ret None
  else
    data <- read p ;;
    ret (Some (hexdigest
                 (fold_left sha256_update
                    (read_blocks (length data) data) sha256_new))).

(** [write_if_changed(path, data)]. *)
Definition write_if_changed (p : path) (data : list Z) : M bool :=
  let expected := sha256_bytes data in
  current <- sha256_file p ;;
  if decide (current = Some expected) then ret false
  else
    mkdir p.1 ;;
    write p data ;;
    ret true.

End WithHasher.
End Checksum.
Export Checksum.

(* ===================================================================== *)
(** * pipelines/common/splitters.py : the file splitters *)
(* ===================================================================== *)

(** A JSON value as [json.loads] returns it. *)
#[local] Unset Elimination Schemes.
Inductive json :=
| JNull
| JBool (b : bool)
| JNumber (repr : pystr)
| JString (s : pystr)
| JArray (items : list json)
| JObject (fields : list (pystr * json)).
#[local] Set Elimination Schemes.

(** The collaborators of the splitters: the [json] module, the HTML
    parser behind [BeautifulSoup(payload, "lxml")] and PyPDF2. *)
Class JsonCodec := {
  json_loads : pystr -> option json;       (* [None]: JSONDecodeError *)
  json_dumps : bool -> json -> pystr       (* the flag: [indent=2] *)
}.

Class HtmlParser := {
  node : Type;
  body_children : pystr -> list node;      (* list((soup.body or soup).children) *)
  wrap_in_body : list node -> pystr;       (* the nodes in a fresh <body>, decoded *)
  body_children_empty : body_children [] = []
}.

Class PdfCodec := {
  page : Type;
  pdf_pages : list Z -> option (list page);   (* PdfReader(path).pages *)
  pdf_write : list page -> list Z             (* PdfWriter with these pages *)
}.

Module Splitters.
Section WithCollaborators.
Context {H : Hasher} {J : JsonCodec} {P : HtmlParser} {D : PdfCodec}.

(** [path.stem]. *)
Definition stem (name : pystr) : pystr :=
  let i := rfind name dot 0 (len name) in
  if (0 <? i) && (i <? len name - 1) then slice_to name i else name.

(** Truth value of an optional integer argument. *)
Definition truthy (o : option Z) : bool :=
  match o with
  | Some n => negb (n =? 0)
  | None => false
  end.

(** The loop of [_write_chunks] over [enumerate(..., start=index)]. *)
Fixpoint _write_chunks_from (dest_dir base_name extension : pystr)
    (total_parts index : Z) (payloads : list (list Z)) : M (list path) :=
  match payloads with
  | [] => ret []
  | payload :: rest =>
      let chunk_path :=
        (dest_dir, chunk_file_name base_name index total_parts extension) in
      changed <- write_if_changed chunk_path payload ;;
      print (if changed then ChunkWritten [] chunk_path
             else ChunkUnchanged chunk_path) ;;
      written <- _write_chunks_from dest_dir base_name extension
                   total_parts (index + 1) rest ;;
      ret (chunk_path :: written)
  end.

(** [_write_chunks(path, extension, payloads)]. *)
Definition _write_chunks (p : path) (extension : pystr)
    (payload_list : list (list Z)) : M (list path) :=
  let base_name := stem p.2 in
  let dest_dir := p.1 in
  let total_parts := match payload_list with [] => 1 | _ => len payload_list end in
  _write_chunks_from dest_dir base_name extension total_parts 1
    (match payload_list with [] => [[]] | _ => payload_list end).

(** The generator [(chunk.encode("utf-8") for chunk in chunks)], run to
    its end by [list(payloads)]. *)
Fixpoint encode_all (chunks : list pystr) : outcome (list (list Z)) :=
  match chunks with
  | [] => Returns []
  | chunk :: rest =>
      match utf8_encode chunk with
      | None => Raises UnicodeEncodeError
      | Some encoded =>
          and_then (encode_all rest) (fun tail => Returns (encoded :: tail))
      end
  end.

(** The [while] loop of [_split_html_by_nodes]. *)
Fixpoint nodes_loop (fuel : nat) (nodes : list node) (max_nodes cursor : Z)
  : option (list pystr) :=
  if cursor <? len nodes then
    match fuel with
    | O => None
    | S fuel' =>
        let segment := slice nodes cursor (cursor + max_nodes) in
        match nodes_loop fuel' nodes max_nodes (cursor + max_nodes) with
        | Some rest => Some (wrap_in_body segment :: rest)
        | None => None
        end
    end
  else Some [].

(** [_split_html_by_nodes(payload, max_nodes)]. *)
Definition _split_html_by_nodes (payload : pystr) (max_nodes : Z)
  : outcome (list pystr) :=
  let nodes := body_children payload in
  match nodes with
  | [] => Returns [payload]
  | _ => of_fuel (nodes_loop (length nodes) nodes max_nodes 0)
  end.

(** [split_html(path, max_bytes=..., max_nodes=...)]. *)
Definition split_html (p : path) (max_bytes max_nodes : option Z)
  : M (list path) :=
  payload <- read p ;;
  let max_bytes :=
    if negb (truthy max_bytes) && negb (truthy max_nodes)
    then Some 200000 else max_bytes in
  chunks <- lift (if truthy max_nodes
                  then _split_html_by_nodes payload (default 0 max_nodes)
                  else _split_by_bytes payload
                         (if truthy max_bytes then default 0 max_bytes else 1)) ;;
  payloads <- lift (encode_all chunks) ;;
  _write_chunks p (lit ".html") payloads.

(** [split_md] and [split_txt]. *)
Definition split_md (p : path) (max_chars : Z) : M (list path) :=
  payload <- read p ;;
  chunks <- lift (_split_text payload max_chars) ;;
  payloads <- lift (encode_all chunks) ;;
  _write_chunks p (lit ".md") payloads.

Definition split_txt (p : path) (max_chars : Z) : M (list path) :=
  payload <- read p ;;
  chunks <- lift (_split_text payload max_chars) ;;
  payloads <- lift (encode_all chunks) ;;
  _write_chunks p (lit ".txt") payloads.

(** The value of key [key] in a decoded JSON object. *)
Fixpoint dict_get (key : pystr) (fields : list (pystr * json)) : option json :=
  match fields with
  | [] => None
  | (k, v) :: rest => if decide (k = key) then Some v else dict_get key rest
  end.

(** [list(value)]: the elements of a list, the keys of a dict, the
    characters of a string; anything else is not iterable. *)
Definition iterate (value : json) : outcome (list json) :=
  match value with
  | JArray items => Returns items
  | JObject fields => Returns (map (fun kv => JString kv.1) fields)
  | JString s => Returns (map (fun c => JString [c]) s)
  | _ => Raises TypeError
  end.

(** The items [split_json] works on. *)
Definition json_items (data : json) : outcome (list json) :=
  match data with
  | JObject fields =>
      match dict_get (lit "chunks") fields with
      | Some chunks => iterate chunks
      | None => Returns [data]
      end
  | JArray items => Returns items
  | _ => Returns [data]
  end.

(** The [while] loop of [split_json]. *)
Fixpoint json_loop (fuel : nat) (items : list json) (max_items : Z)
    (max_bytes : option Z) (cursor : Z) : outcome (list (list json)) :=
  if cursor <? len items then
    match fuel with
    | O => Diverges
    | S fuel' =>
        let subset := slice items cursor (cursor + max_items) in
        let cursor := cursor + max_items in
        and_then
          (if truthy max_bytes then
             match utf8_encode (json_dumps false (JArray subset)) with
             | None => Raises UnicodeEncodeError
             | Some encoded =>
                 if (default 0 max_bytes <? len encoded) && (1 <? len subset)
                 then
                   let half := Z.max 1 (len subset / 2) in
                   Returns (cursor - (len subset - half), slice_to subset half)
                 else Returns (cursor, subset)
             end
           else Returns (cursor, subset))
          (fun '(cursor, subset) =>
             and_then (json_loop fuel' items max_items max_bytes cursor)
               (fun rest => Returns (subset :: rest)))
    end
  else Returns [].

(** [split_json(path, max_items=..., max_bytes=...)]. *)
Definition split_json (p : path) (max_items max_bytes : option Z)
  : M (list path) :=
  text <- read p ;;
  data <- lift (match json_loads text with
                | Some data => Returns data
                | None => Raises ValueError
                end) ;;
  items <- lift (json_items data) ;;
  let max_items := default (len items) max_items in
  chunks <- lift (json_loop (length items) items max_items max_bytes 0) ;;
  payloads <- lift (encode_all
                      (map (fun chunk => json_dumps true (JArray chunk)) chunks)) ;;
  _write_chunks p (lit ".json") payloads.

(** The values of [range(start, total, step)] for a positive [step]. *)
Fixpoint range_from (fuel : nat) (start total step : Z) : list Z :=
  match fuel with
  | O => []
  | S fuel' =>
      if start <? total
      then start :: range_from fuel' (start + step) total step
      else []
  end.

(** [range(0, total, step)]: a zero step is a [ValueError], a negative
    one gives the empty range. *)
Definition range0 (total step : Z) : outcome (list Z) :=
  if step =? 0 then Raises ValueError
  else if step <? 0 then Returns []
  else Returns (range_from (Z.to_nat total) 0 total step).

(** [split_pdf(path, max_pages=...)]. *)
Definition split_pdf (p : path) (max_pages : Z) : M (list path) :=
  data <- read p ;;
  pages <- lift (match pdf_pages data with
                 | Some pages => Returns pages
                 | None => Raises LibraryError
                 end) ;;
  let total_pages := len pages in
  if total_pages =? 0 then _write_chunks p (lit ".pdf") [[]]
  else
    starts <- lift (range0 total_pages max_pages) ;;
    let chunks :=
      map (fun start =>
             pdf_write (slice pages start
                          (Z.min total_pages (start + max_pages))))
          starts in
    _write_chunks p (lit ".pdf") chunks.

End WithCollaborators.
End Splitters.
Export Splitters.

(* ===================================================================== *)
(** * artifacts/ : models, cleanup, chunk writer, HTML generator *)
(* ===================================================================== *)

Module Artifacts.

(** [models.ChunkManifest] and [models.FormatArtifacts]. *)
Record ChunkManifest := {
  total_parts : Z;
  part_paths : list path
}.

Record FormatArtifacts := {
  aggregate_path : path;
  chunk_manifest : ChunkManifest
}.

(** [chunking.clear_existing_files] (every entry of the model is a
    regular file, so [target.is_file()] holds). *)
Definition clear_existing_files (directory : pystr) (patterns : list pystr)
  : M unit :=
  for_each patterns (fun pattern =>
    targets <- glob directory pattern ;;
    for_each targets (fun name => unlink (directory, name))).

(** [cleanup.prepare_output_dir]. *)
Definition prepare_output_dir (d : pystr) (patterns_to_clear : list pystr)
  : M unit :=
  mkdir d ;;
  clear_existing_files d patterns_to_clear.

(** The loop of [chunking.write_chunks] over
    [enumerate(payloads, start=index)]. *)
Fixpoint write_chunks_from (dest_dir base_name extension : pystr)
    (total index : Z) (payloads : list pystr)
    (on_write : option (path -> M unit)) : M (list path) :=
  match payloads with
  | [] => ret []
  | payload :: rest =>
      let filename := chunk_file_name base_name index total extension in
      let chunk_path := (dest_dir, filename) in
      write chunk_path payload ;;
      match on_write with
      | Some callback => callback chunk_path
      | None => ret tt
      end ;;
      paths <- write_chunks_from dest_dir base_name extension total
                 (index + 1) rest on_write ;;
      ret (chunk_path :: paths)
  end.

(** [chunking.write_chunks]. *)
Definition write_chunks (dest_dir base_name extension : pystr)
    (payloads : list pystr) (on_write : option (path -> M unit))
  : M ChunkManifest :=
  let total := len payloads in
  paths <- write_chunks_from dest_dir base_name extension total 1
             payloads on_write ;;
  ret {| total_parts := total; part_paths := paths |}.

Definition middle_dot : Z := 183.

(** Truth value of an optional string. *)
Definition nonempty (o : option pystr) : bool :=
  match o with
  | Some (_ :: _) => true
  | _ => false
  end.

(** The first line of every artifact that carries its source:
    [f"<!-- Source URL: {source_url} -->"]. *)
Definition source_url_comment (source_url : pystr) : pystr :=
  lit "<!-- Source URL: " ++ source_url ++ lit " -->".

(** The payload of HTML chunk [index] of [total] ([formats/html.py] and
    the in-memory fallback of the JSON generator build it alike). *)
Definition html_chunk_payload (source_url : option pystr) (label : pystr)
    (index total : Z) (html_part : pystr) : pystr :=
  let lines :=
    (if nonempty source_url
     then [source_url_comment (default [] source_url)] else [])
    ++ [lit "<!-- HTML Chunk " ++ str_of_int index ++ lit "/"
        ++ str_of_int total ++ lit " " ++ [middle_dot] ++ lit " "
        ++ label ++ lit " -->"]
    ++ [rstrip html_part] in
  rstrip (join [nl] lines) ++ [nl].

(** [enumerate(xs, start=i)]. *)
Fixpoint enumerate {A} (i : Z) (xs : list A) : list (Z * A) :=
  match xs with
  | [] => []
  | x :: rest => (i, x) :: enumerate (i + 1) rest
  end.

(** [formats/html.py]. *)
Module html_format.

(** [generate]. *)
Definition generate (aggregate_payload : pystr) (dest_dir : pystr)
    (base_name label : pystr) (chunk_char_limit : Z)
    (source_url : option pystr) : M FormatArtifacts :=
  prepare_output_dir dest_dir
    [base_name ++ lit ".html"; base_name ++ lit "_part_*.html";
     lit "aggregate.html"; lit "html_part_*.html"] ;;
  let aggregate_path := (dest_dir, base_name ++ lit ".html") in
  write aggregate_path aggregate_payload ;;
  print (AggregateWritten (lit "HTML") aggregate_path) ;;
  html_chunks <- lift (of_fuel
                         (split_text_on_newlines aggregate_payload
                            chunk_char_limit)) ;;
  let total_html_chunks := len html_chunks in
  let chunk_payloads :=
    map (fun '(index, html_part) =>
           html_chunk_payload source_url label index total_html_chunks
             html_part)
        (enumerate 1 html_chunks) in
  chunk_manifest <- write_chunks dest_dir base_name (lit ".html")
                      chunk_payloads
                      (Some (fun p => print (ChunkWritten (lit "HTML") p))) ;;
  ret {| aggregate_path := aggregate_path;
         chunk_manifest := chunk_manifest |}.

End html_format.

End Artifacts.
Export Artifacts.

(* ===================================================================== *)
(** * artifact_fanout.py *)
(* ===================================================================== *)

(** The collaborators of the fan-out: plain-text extraction
    ([BeautifulSoup(html, "lxml").get_text("\n")]), the headless browser
    behind [render_pdf_from_html] (given the page it is pointed at, if
    that file can be loaded, it hands back the PDF bytes or an error
    text) and the wall clock of [_now_iso]. *)
Class FanoutCollaborators := {
  get_text : pystr -> pystr;
  browser_pdf : option pystr -> list Z + pystr;
  now_iso : Z -> pystr
}.

Module Fanout.
Section WithCollaborators.
Context {U : UnicodeDigits} {J : JsonCodec} {C : FanoutCollaborators}.

Definition DEFAULT_BASE_NAME : pystr := Eval compute in lit "rendered_chat".

(** [extract_plain_text]. *)
Definition extract_plain_text (html_payload : pystr) : pystr :=
  get_text html_payload.

(** Line boundaries of [str.splitlines]. *)
Definition is_linebreak (c : Z) : bool :=
  ((10 <=? c) && (c <=? 13)) || ((28 <=? c) && (c <=? 30))
  || (c =? 133) || (c =? 8232) || (c =? 8233).

(** [payload.splitlines()[0]] of a non-empty payload. *)
Fixpoint first_line (payload : pystr) : pystr :=
  match payload with
  | [] => []
  | c :: rest => if is_linebreak c then [] else c :: first_line rest
  end.

Definition ends_with (suffix s : pystr) : bool :=
  bool_decide (slice_from s (Z.max 0 (len s - len suffix)) = suffix).

(** [extract_source_url]: a match of
    [^<!--\s*Source URL:\s*(.*?)\s*-->$] on the stripped first line.  The
    lazy group takes the text after the label up to the closing [-->],
    less the blanks before it. *)
Definition extract_source_url (payload : option pystr) : option pystr :=
  match payload with
  | None | Some [] => None
  | Some payload =>
      let line := strip (first_line payload) in
      match strip_prefix (lit "<!--") line with
      | None => None
      | Some r1 =>
          match strip_prefix (lit "Source URL:") (lstrip r1) with
          | None => None
          | Some r2 =>
              let r3 := lstrip r2 in
              if ends_with (lit "-->") r3
              then Some (strip (rstrip (slice_to r3 (len r3 - 3))))
              else None
          end
      end
  end.

(** [generate_text_artifacts].  The closing loop renames a part whose
    path is not the expected one; both are built by the same formula, so
    the loop never renames. *)
Definition generate_text_artifacts (aggregate_html : pystr)
    (text_dir : pystr) (chunk_char_limit : Z) (base_name : pystr)
  : M unit :=
  prepare_output_dir text_dir
    [base_name ++ lit ".text"; base_name ++ lit "_part_*.txt"] ;;
  let plain_text := extract_plain_text aggregate_html in
  let aggregate_path := (text_dir, base_name ++ lit ".text") in
  write aggregate_path plain_text ;;
  print (AggregateWritten (lit "text") aggregate_path) ;;
  text_chunks <- lift (of_fuel
                         (split_text_on_newlines plain_text chunk_char_limit)) ;;
  chunk_manifest <- write_chunks text_dir base_name (lit ".txt") text_chunks
                      (Some (fun p => print (ChunkWritten (lit "Text") p))) ;;
  for_each (enumerate 1 (part_paths chunk_manifest)) (fun '(index, p) =>
    let expected :=
      (text_dir,
       chunk_file_name base_name index (total_parts chunk_manifest)
         (lit ".txt")) in
    if decide (p = expected) then ret tt
    else
      (* path.rename(expected) *)
      data <- read p ;; unlink p ;; write expected data).

(** One entry of the [chunks] array, and the aggregate record. *)
Record chunk_entry := {
  ce_dataset : pystr;
  ce_part : Z;
  ce_total_parts : Z;
  ce_html : pystr;
  ce_markdown : pystr;
  ce_text : pystr
}.

Record aggregate_record := {
  ar_dataset : pystr;
  ar_generated_at : pystr;
  ar_html : pystr;
  ar_markdown : pystr;
  ar_text : pystr;
  ar_chunks : list chunk_entry
}.

(** The dictionaries as JSON values. *)
Definition chunk_json (e : chunk_entry) : json :=
  JObject [(lit "dataset", JString (ce_dataset e));
           (lit "part", JNumber (str_of_int (ce_part e)));
           (lit "total_parts", JNumber (str_of_int (ce_total_parts e)));
           (lit "html", JString (ce_html e));
           (lit "markdown", JString (ce_markdown e));
           (lit "text", JString (ce_text e))].

Definition aggregate_json (r : aggregate_record) : json :=
  JObject [(lit "dataset", JString (ar_dataset r));
           (lit "generated_at", JString (ar_generated_at r));
           (lit "aggregate",
            JObject [(lit "html", JString (ar_html r));
                     (lit "markdown", JString (ar_markdown r));
                     (lit "text", JString (ar_text r))]);
           (lit "chunks", JArray (map chunk_json (ar_chunks r)))].

(** The dictionary of chunk files by part number: the names that match
    the glob, sorted, each filed under the index parsed from it (index 0
    is skipped, a later name replaces an earlier one). *)
Definition index_chunk_files (names : list pystr) : gmap Z pystr :=
  fold_left
    (fun paths name =>
       let index := (parse_chunk_indices name).1 in
       if index =? 0 then paths else <[index := name]> paths)
    (sorted names) ∅.

(** [fallback_html_chunks()]. *)
Definition fallback_html_chunks (aggregate_html : pystr)
    (chunk_char_limit : Z) (source_url : option pystr)
    (dataset_name : pystr) : outcome (Z * gmap Z pystr) :=
  and_then (of_fuel (split_text_on_newlines aggregate_html chunk_char_limit))
    (fun raw_chunks =>
       let total := match raw_chunks with [] => 1 | _ => len raw_chunks end in
       Returns
         (total,
          fold_left
            (fun chunks '(index, payload) =>
               <[index := html_chunk_payload source_url dataset_name
                            index total payload]> chunks)
            (enumerate 1 raw_chunks) ∅)).

(** The payload of Markdown chunk [index] of [total]. *)
Definition markdown_chunk_payload (source_url : option pystr)
    (label : pystr) (index total : Z) (markdown_part : pystr) : pystr :=
  let lines :=
    (if nonempty source_url
     then [source_url_comment (default [] source_url)] else [])
    ++ [lit "# Markdown Chunk " ++ str_of_int index ++ lit "/"
        ++ str_of_int total ++ lit " " ++ [middle_dot] ++ lit " " ++ label]
    ++ [strip markdown_part] in
  strip (join [nl; nl] lines) ++ [nl].

(** [range(lo, hi)]. *)
Definition range (lo hi : Z) : list Z :=
  map (fun k => lo + Z.of_nat k) (seq 0 (Z.to_nat (hi - lo))).

(** [fallback_markdown_chunks(total_parts)]. *)
Definition fallback_markdown_chunks (aggregate_markdown : pystr)
    (chunk_char_limit : Z) (source_url : option pystr)
    (dataset_name : pystr) (total_parts : Z) : outcome (gmap Z pystr) :=
  and_then
    (of_fuel (split_text_on_newlines aggregate_markdown chunk_char_limit))
    (fun raw_chunks =>
       let chunks :=
         fold_left
           (fun chunks '(index, payload) =>
              <[index := markdown_chunk_payload source_url dataset_name
                           index (len raw_chunks) payload]> chunks)
           (enumerate 1 raw_chunks) ∅ in
       Returns
         (fold_left
            (fun chunks missing_index =>
               match chunks !! missing_index with
               | Some _ => chunks
               | None => <[missing_index := []]> chunks
               end)
            (range 1 (total_parts + 1)) chunks)).

(** The local helper [read_text] of [generate_json_artifacts]. *)
Definition read_text (p : path) : M (option pystr) :=
  catch OSError
    (data <- read p ;; ret (Some data))
    (print (UnableToRead p.2) ;; ret None).

(** The body of the loop [for part_index in range(1, total_parts + 1)]:
    the entry appended to [chunk_entries]. *)
Definition json_chunk_entry (dataset_name base_name : pystr)
    (html_dir markdown_dir json_dir : pystr)
    (html_chunk_paths markdown_chunk_paths : gmap Z pystr)
    (regenerated_html regenerated_markdown : gmap Z pystr)
    (total_parts part_index : Z) : M chunk_entry :=
  let html_path := html_chunk_paths !! part_index in
  html_read <- match html_path with
               | Some name => read_text (html_dir, name)
               | None => ret None
               end ;;
  html_content <-
    match html_read with
    | Some content => ret content
    | None =>
        match html_path with
        | None =>
            print (ChunkMissing (lit "HTML")
                     (chunk_file_name base_name part_index total_parts
                        (lit ".html")))
        | Some _ => ret tt
        end ;;
        ret (default [] (regenerated_html !! part_index))
    end ;;
  let markdown_path := markdown_chunk_paths !! part_index in
  markdown_read <- match markdown_path with
                   | Some name => read_text (markdown_dir, name)
                   | None => ret None
                   end ;;
  markdown_content <-
    match markdown_read with
    | Some content => ret content
    | None =>
        let fallback_markdown :=
          default [] (regenerated_markdown !! part_index) in
        match markdown_path, strip fallback_markdown with
        | None, _ :: _ =>
            print (ChunkMissing (lit "Markdown")
                     (chunk_file_name base_name part_index total_parts
                        (lit ".md")))
        | _, _ => ret tt
        end ;;
        ret fallback_markdown
    end ;;
  let text_content := extract_plain_text html_content in
  let chunk_payload :=
    {| ce_dataset := dataset_name; ce_part := part_index;
       ce_total_parts := total_parts; ce_html := html_content;
       ce_markdown := markdown_content; ce_text := text_content |} in
  let chunk_path :=
    (json_dir,
     chunk_file_name base_name part_index total_parts (lit ".json")) in
  write chunk_path (json_dumps true (chunk_json chunk_payload)) ;;
  print (ChunkWritten (lit "JSON") chunk_path) ;;
  ret chunk_payload.

(** The loop, returning [chunk_entries]. *)
Fixpoint json_chunk_entries (body : Z -> M chunk_entry) (indices : list Z)
  : M (list chunk_entry) :=
  match indices with
  | [] => ret []
  | part_index :: rest =>
      entry <- body part_index ;;
      entries <- json_chunk_entries body rest ;;
      ret (entry :: entries)
  end.

(** [generate_json_artifacts].  It returns nothing; the model hands back
    the [aggregate_payload] it has written, for the statements below. *)
Definition generate_json_artifacts (dataset_name : pystr)
    (aggregate_html aggregate_markdown : pystr)
    (text_dir html_dir markdown_dir json_dir : pystr)
    (chunk_char_limit : Z) (source_url : option pystr) (base_name : pystr)
  : M aggregate_record :=
  prepare_output_dir json_dir
    [base_name ++ lit ".json"; base_name ++ lit "_part_*.json"] ;;
  let aggregate_text_path := (text_dir, base_name ++ lit ".text") in
  present <- path_exists aggregate_text_path ;;
  aggregate_text <- (if present then read aggregate_text_path
                     else ret (extract_plain_text aggregate_html)) ;;
  html_names <- glob html_dir (base_name ++ lit "_part_*_of_*.html") ;;
  let html_chunk_paths := index_chunk_files html_names in
  markdown_names <- glob markdown_dir (base_name ++ lit "_part_*_of_*.md") ;;
  let markdown_chunk_paths := index_chunk_files markdown_names in
  fallback <-
     lift (fallback_html_chunks aggregate_html chunk_char_limit source_url
             dataset_name) ;;
  let '(total_parts, regenerated_html) := fallback in
  regenerated_markdown <-
     lift (fallback_markdown_chunks aggregate_markdown chunk_char_limit
             source_url dataset_name total_parts) ;;
  chunk_entries <-
     json_chunk_entries
       (json_chunk_entry dataset_name base_name html_dir markdown_dir
          json_dir html_chunk_paths markdown_chunk_paths regenerated_html
          regenerated_markdown total_parts)
       (range 1 (total_parts + 1)) ;;
  generated_at <- (fun st => (Returns (now_iso (clock st)), st)) ;;
  let aggregate_payload :=
    {| ar_dataset := dataset_name; ar_generated_at := generated_at;
       ar_html := aggregate_html; ar_markdown := aggregate_markdown;
       ar_text := aggregate_text; ar_chunks := chunk_entries |} in
  let aggregate_path := (json_dir, base_name ++ lit ".json") in
  write aggregate_path (json_dumps true (aggregate_json aggregate_payload)) ;;
  print (AggregateWritten (lit "JSON") aggregate_path) ;;
  ret aggregate_payload.

(** [html_to_pdf.render_pdf_from_html(input_html, output_pdf)]. *)
Definition render_pdf_from_html (input_html output_pdf : path)
  : M (bool * option pystr) :=
  mkdir output_pdf.1 ;;
  page <- catch OSError (data <- read input_html ;; ret (Some data))
            (ret None) ;;
  match browser_pdf page with
  | inl pdf => write output_pdf pdf ;; ret (true, None)
  | inr error => ret (false, Some error)
  end.

(** [generate_pdf_artifacts]. *)
Definition generate_pdf_artifacts (aggregate_html_path : path)
    (html_dir pdf_dir : pystr) (base_name : pystr) : M unit :=
  prepare_output_dir pdf_dir
    [base_name ++ lit ".pdf"; base_name ++ lit "_part_*.pdf"] ;;
  let aggregate_pdf := (pdf_dir, base_name ++ lit ".pdf") in
  rendered <- render_pdf_from_html aggregate_html_path aggregate_pdf ;;
  let '(success, error) := rendered in
  (if success then print (AggregateWritten (lit "PDF") aggregate_pdf)
   else if nonempty error
        then print (RenderFailed (lit "aggregate PDF") (default [] error))
        else ret tt) ;;
  names <- glob html_dir (base_name ++ lit "_part_*_of_*.html") ;;
  for_each (sorted names) (fun name =>
    let '(part_index, total_parts) := parse_chunk_indices name in
    let target_path :=
      (pdf_dir,
       chunk_file_name base_name part_index total_parts (lit ".pdf")) in
    rendered <- render_pdf_from_html (html_dir, name) target_path ;;
    let '(success, error) := rendered in
    if success then print (ChunkWritten (lit "PDF") target_path)
    else if nonempty error
         then print (RenderFailed name (default [] error))
         else ret tt).

(** The resolution of one aggregate payload at the head of
    [fan_out_artifacts]: the argument if there is one, else the content
    of the aggregate file if it exists. *)
Definition resolve_payload (payload : option pystr) (aggregate : path)
  : M (option pystr) :=
  match payload with
  | Some _ => ret payload
  | None =>
      present <- path_exists aggregate ;;
      if present then (data <- read aggregate ;; ret (Some data))
      else ret None
  end.

(** [fan_out_artifacts]. *)
Definition fan_out_artifacts (dataset_name : pystr)
    (aggregate_html_payload aggregate_markdown_payload : option pystr)
    (html_dir markdown_dir text_dir json_dir pdf_dir : pystr)
    (chunk_char_limit : Z) (overwrite : bool)
    (source_url : option pystr) (base_name : pystr) : M unit :=
  for_each [html_dir; markdown_dir; text_dir; json_dir; pdf_dir] mkdir ;;
  let aggregate_html_path := (html_dir, base_name ++ lit ".html") in
  let markdown_aggregate_path := (markdown_dir, base_name ++ lit ".md") in
  aggregate_html_payload <-
    resolve_payload aggregate_html_payload aggregate_html_path ;;
  aggregate_markdown_payload <-
    resolve_payload aggregate_markdown_payload markdown_aggregate_path ;;
  match aggregate_html_payload, aggregate_markdown_payload with
  | Some aggregate_html, Some aggregate_markdown =>
      let text_aggregate := (text_dir, base_name ++ lit ".text") in
      text_present <- path_exists text_aggregate ;;
      (if overwrite || negb text_present then
         generate_text_artifacts aggregate_html text_dir chunk_char_limit
           base_name
       else print (Skipping (lit "text"))) ;;
      let json_aggregate := (json_dir, base_name ++ lit ".json") in
      json_present <- path_exists json_aggregate ;;
      (if overwrite || negb json_present then
         generate_json_artifacts dataset_name aggregate_html
           aggregate_markdown text_dir html_dir markdown_dir json_dir
           chunk_char_limit
           (if nonempty source_url then source_url
            else extract_source_url (Some aggregate_html))
           base_name ;;
         ret tt
       else print (Skipping (lit "JSON"))) ;;
      let pdf_aggregate := (pdf_dir, base_name ++ lit ".pdf") in
      pdf_present <- path_exists pdf_aggregate ;;
      (if overwrite || negb pdf_present then
         generate_pdf_artifacts aggregate_html_path html_dir pdf_dir base_name
       else print (Skipping (lit "PDF")))
  | _, _ =>
      print (UnableToLocateAggregate dataset_name)
  end.

End WithCollaborators.
End Fanout.
Export Fanout.

(* ===================================================================== *)
(** * artifacts/chunking.py and artifacts/formats/markdown.py :
      paired segments and the Markdown generator *)
(* ===================================================================== *)

Module Markdown.

(** [models.CombinedArtifacts]; its field [part_paths] is named apart
    from the one of the chunk manifest. *)
Record CombinedArtifacts := {
  combined_part_paths : list path
}.

(** [chunking.pair_segments]: the triples the generator yields. *)
Definition pair_segments (html_segments markdown_segments : list pystr)
  : list (Z * pystr * pystr) :=
  let total := Z.max (len html_segments) (len markdown_segments) in
  map (fun idx =>
         let html_part :=
           if idx <? len html_segments
           then default [] (html_segments !! Z.to_nat idx) else [] in
         let md_part :=
           if idx <? len markdown_segments
           then default [] (markdown_segments !! Z.to_nat idx) else [] in
         (idx, html_part, md_part))
      (range 0 total).

(** [f"{n:02d}"]: at least two digits. *)
Definition format_02d (n : Z) : pystr :=
  let digits := str_of_int n in
  if len digits <? 2 then 48 :: digits else digits.

(** [f"combined_part_{chunk_number:02d}.md"]. *)
Definition combined_file_name (chunk_number : Z) : pystr :=
  lit "combined_part_" ++ format_02d chunk_number ++ lit ".md".

(** The payload of combined chunk [chunk_number] of [total_chunks]. *)
Definition combined_chunk_payload (source_url : option pystr) (label : pystr)
    (chunk_number total_chunks total_combined_html total_combined_md : Z)
    (html_part markdown_part : pystr) : pystr :=
  let lines :=
    (if nonempty source_url
     then [source_url_comment (default [] source_url)] else [])
    ++ [lit "# Combined Chunk " ++ str_of_int chunk_number ++ lit "/"
        ++ str_of_int total_chunks ++ lit " " ++ [middle_dot] ++ lit " "
        ++ label]
    ++ (match strip html_part with
        | [] => []
        | _ => [lit "## Rendered HTML Segment " ++ str_of_int chunk_number
                ++ lit "/" ++ str_of_int total_combined_html;
                lit "```html"; rstrip html_part; lit "```"]
        end)
    ++ (match strip markdown_part with
        | [] => []
        | _ => [lit "## Markdown Segment " ++ str_of_int chunk_number
                ++ lit "/" ++ str_of_int total_combined_md;
                strip markdown_part]
        end) in
  strip (join [nl; nl] lines) ++ [nl].

(** The loop of [_write_combined_artifacts] over the paired segments,
    returning [part_paths].  The line it prints, [Combined file written],
    is recorded as the chunk line of kind [Combined]. *)
Fixpoint combined_loop (dest_dir : pystr) (source_url : option pystr)
    (label : pystr) (total_chunks total_combined_html total_combined_md : Z)
    (triples : list (Z * pystr * pystr)) : M (list path) :=
  match triples with
  | [] => ret []
  | (index, html_part, markdown_part) :: rest =>
      let chunk_number := index + 1 in
      let chunk_path := (dest_dir, combined_file_name chunk_number) in
      write chunk_path
        (combined_chunk_payload source_url label chunk_number total_chunks
           total_combined_html total_combined_md html_part markdown_part) ;;
      print (ChunkWritten (lit "Combined") chunk_path) ;;
      paths <- combined_loop dest_dir source_url label total_chunks
                 total_combined_html total_combined_md rest ;;
      ret (chunk_path :: paths)
  end.

(** [formats/markdown._write_combined_artifacts]. *)
Definition _write_combined_artifacts (dest_dir : pystr)
    (aggregate_html_payload aggregate_markdown_payload : pystr)
    (source_url : option pystr) (chunk_char_limit : Z) (label : pystr)
  : M CombinedArtifacts :=
  let half_limit := Z.max 1 (chunk_char_limit / 2) in
  clear_existing_files dest_dir [lit "combined_part_*.md"] ;;
  combined_html_segments <-
    lift (of_fuel (split_text_on_newlines aggregate_html_payload half_limit)) ;;
  combined_markdown_segments <-
    lift (of_fuel (split_text_on_newlines aggregate_markdown_payload
                     half_limit)) ;;
  let total_chunks :=
    Z.max (len combined_html_segments) (len combined_markdown_segments) in
  if total_chunks =? 0 then ret {| combined_part_paths := [] |}
  else
    let total_combined_html := len combined_html_segments in
    let total_combined_md := len combined_markdown_segments in
    part_paths <-
      combined_loop dest_dir source_url label total_chunks total_combined_html
        total_combined_md
        (pair_segments combined_html_segments combined_markdown_segments) ;;
    ret {| combined_part_paths := part_paths |}.

(** [formats/markdown.py]. *)
Module markdown_format.

(** [generate]. *)
Definition generate (aggregate_payload : pystr) (dest_dir : pystr)
    (base_name label : pystr) (chunk_char_limit : Z)
    (source_url : option pystr) (html_payload : pystr)
  : M (FormatArtifacts * CombinedArtifacts) :=
  prepare_output_dir dest_dir
    [base_name ++ lit ".md"; base_name ++ lit "_part_*.md";
     lit "aggregate.md"; lit "markdown_part_*.md"] ;;
  let aggregate_path := (dest_dir, base_name ++ lit ".md") in
  write aggregate_path aggregate_payload ;;
  print (AggregateWritten (lit "Markdown") aggregate_path) ;;
  markdown_chunks <- lift (of_fuel
                             (split_text_on_newlines aggregate_payload
                                chunk_char_limit)) ;;
  let total_markdown_chunks := len markdown_chunks in
  let chunk_payloads :=
    map (fun '(index, markdown_part) =>
           markdown_chunk_payload source_url label index
             total_markdown_chunks markdown_part)
        (enumerate 1 markdown_chunks) in
  chunk_manifest <- write_chunks dest_dir base_name (lit ".md")
                      chunk_payloads
                      (Some (fun p => print (ChunkWritten (lit "Markdown") p))) ;;
  combined_artifacts <-
    _write_combined_artifacts dest_dir html_payload aggregate_payload
      source_url chunk_char_limit label ;;
  ret ({| aggregate_path := aggregate_path;
          chunk_manifest := chunk_manifest |}, combined_artifacts).

End markdown_format.

End Markdown.
Export Markdown.

(* ===================================================================== *)
(** * content_extractor.py : the legacy splitter *)
(* ===================================================================== *)

Module Legacy.

(** [text.split("\n")]: the pieces between newlines, at least one. *)
Fixpoint split_nl (text : pystr) : list pystr :=
  match text with
  | [] => [[]]
  | c :: rest =>
      if c =? nl then [] :: split_nl rest
      else match split_nl rest with
           | line :: lines => (c :: line) :: lines
           | [] => [[c]]
           end
  end.

(** [split_markdown(markdown_text, parts)].  [None] stands for the
    [ZeroDivisionError] of [len(lines) // 0]. *)
Definition split_markdown (markdown_text : pystr) (parts : Z)
  : option (list pystr) :=
  let lines := split_nl markdown_text in
  if parts =? 0 then None
  else
    let avg_len := len lines / parts in
    Some (map (fun i =>
                 let start := i * avg_len in
                 let end_ := if i <? parts - 1 then (i + 1) * avg_len
                             else len lines in
                 join [nl] (slice lines start end_))
              (range 0 parts)).

End Legacy.
Export Legacy.

(* ===================================================================== *)
(** * Stand-in collaborators, for running the model *)
(* ===================================================================== *)

(** A serialiser that only tells the kinds of values apart. *)
Definition toy_json : JsonCodec :=
  {| json_loads := fun text =>
       match text with
       | [] => None
       | [91; 93] => Some (JArray [])
       | _ => Some (JArray (map (fun c => JString [c]) text))
       end;
     json_dumps := fun indent value =>
       match value with
       | JArray items => lit "[" ++ str_of_int (len items) ++ lit "]"
       | JObject fields => lit "{" ++ str_of_int (len fields) ++ lit "}"
       | _ => lit "null"
       end |}.

(** An HTML parser for which every character is a node. *)
Definition toy_parser : HtmlParser :=
  {| node := Z; body_children := fun payload => payload;
     wrap_in_body := fun nodes => nodes;
     body_children_empty := eq_refl |}.

(** A PDF library for which every byte is a page. *)
Definition toy_pdf : PdfCodec :=
  {| page := Z; pdf_pages := fun data => Some data;
     pdf_write := fun pages => pages |}.

(** Text extraction by identity, a browser that prints a page as it is
    and fails on a missing one, a clock that shows the tick. *)
Definition toy_collaborators : FanoutCollaborators :=
  {| get_text := fun html => html;
     browser_pdf := fun page =>
       match page with
       | Some html => inl html
       | None => inr (lit "net::ERR_FILE_NOT_FOUND")
       end;
     now_iso := fun tick => str_of_int tick |}.

(* ===================================================================== *)
(** * The vocabulary of the statements *)
(* ===================================================================== *)

(** ** Cuts and windows *)

(** [is_last s c lo hi j]: [j] is the last index in [lo, hi) at which
    [s] holds [c]. *)
Definition is_last (s : pystr) (c : Z) (lo hi j : Z) : Prop :=
  lo <= j < hi /\ s !! Z.to_nat j = Some c /\
  forall k, j < k < hi -> s !! Z.to_nat k <> Some c.

(** The break rule of the specification, for a window that starts at
    [c] and is followed by the cut [c']: a window that reaches the end of
    the text is cut there; otherwise the cut falls just after the last
    newline of the window when that newline lies past the midpoint
    ([j > c + L / 2]), and at the hard limit [c + L] when it does not (or
    when the window holds no newline). *)
Definition break_rule (text : pystr) (L c c' : Z) : Prop :=
  (len text <= c + L /\ c' = len text)
  \/ (c + L < len text /\
      ((exists j, is_last text nl c (c + L) j /\ 2 * c + L < 2 * j /\ c' = j + 1)
       \/ ((forall j, is_last text nl c (c + L) j -> 2 * j <= 2 * c + L)
           /\ c' = c + L))).

(** A Unicode scalar value: a code point that is not a surrogate.  These
    are the characters of every [str] that [read_text(encoding="utf-8")]
    returns. *)
Definition scalar_value (c : Z) : Prop :=
  0 <= c < 55296 \/ 57343 < c < 1114112.

Definition is_byte (b : Z) : Prop := 0 <= b < 256.

(** A text that [write_text] and [read_text] carry as it is: Unicode
    scalar values only (a lone surrogate is a [UnicodeEncodeError] when
    it is written, and no decoded file holds one) and no carriage return
    (which [read_text] turns into a newline).  On such texts the [write]
    and [read] of the model are [write_text] and [read_text]. *)
Definition plain_text (s : pystr) : Prop :=
  Forall (fun c => scalar_value c /\ c <> 13) s.

(** The optional source URL, when given, is such a text. *)
Definition plain_url (source_url : option pystr) : Prop :=
  from_option plain_text True source_url.

(** What one window of [_split_by_bytes] may produce, in the words of the
    specification: the window decodes as it is; or it does not and is
    shrunk to its longest decodable prefix; or no prefix of it decodes
    and its bytes are decoded lossily. *)
Inductive window_outcome (encoded : list Z) (limit cursor : Z)
  : pystr -> Z -> Prop :=
| window_whole chunk :
    utf8_decode (slice encoded cursor (cursor + limit)) = Some chunk ->
    window_outcome encoded limit cursor chunk
      (cursor + len (slice encoded cursor (cursor + limit)))
| window_shrunk k chunk :
    utf8_decode (slice encoded cursor (cursor + limit)) = None ->
    1 <= k <= limit ->
    utf8_decode (slice encoded cursor (cursor + k)) = Some chunk ->
    (forall k', k < k' <= limit ->
       utf8_decode (slice encoded cursor (cursor + k')) = None) ->
    window_outcome encoded limit cursor chunk (cursor + k)
| window_lossy :
    (forall k, 1 <= k <= limit ->
       utf8_decode (slice encoded cursor (cursor + k)) = None) ->
    window_outcome encoded limit cursor
      (latin1_decode (slice encoded cursor (cursor + limit)))
      (cursor + limit).

(** The chunks of a run that starts at [cursor]. *)
Inductive windows (encoded : list Z) (limit : Z) : Z -> list pystr -> Prop :=
| windows_done cursor :
    len encoded <= cursor -> windows encoded limit cursor []
| windows_next cursor chunk cursor' rest :
    cursor < len encoded ->
    window_outcome encoded limit cursor chunk cursor' ->
    windows encoded limit cursor' rest ->
    windows encoded limit cursor (chunk :: rest).

(** ** Chunk names *)

Definition ascii_digit (c : Z) : Prop := 48 <= c <= 57.

Section MarkerVocabulary.
Context {U : UnicodeDigits}.

Definition is_digit (c : Z) : Prop := digit_value c <> None.

(** [has_chunk_marker name]: [name] contains a substring of the shape
    [_part_<digits>_of_<digits>.]. *)
Definition has_chunk_marker (name : pystr) : Prop :=
  exists pre d1 d2 post,
    name = pre ++ part_tag ++ d1 ++ of_tag ++ d2 ++ dot :: post
    /\ d1 <> [] /\ d2 <> [] /\ Forall is_digit d1 /\ Forall is_digit d2.

End MarkerVocabulary.

(** ** States and runs *)

(** [m] returns from every state, with a value that satisfies [Q]. *)
Definition returns {A} (m : M A) (Q : A -> Prop) : Prop :=
  forall st, exists a st', m st = (Returns a, st') /\ Q a.

(** [st'] has the files of [st], less some. *)
Definition only_deleted (st st' : state) : Prop :=
  forall p, files st' !! p = files st !! p \/ files st' !! p = None.

(** The events of a trace that change a file. *)
Fixpoint file_events (evs : list event) : list event :=
  match evs with
  | [] => []
  | (Wrote _ | Unlinked _) as e :: rest => e :: file_events rest
  | _ :: rest => file_events rest
  end.

(** The state a real write of [data] to [p] leaves. *)
Definition written (p : path) (data : list Z) (st : state) : state :=
  {| files := <[p := {| f_data := data; f_mtime := clock st;
                        f_readable := match files st !! p with
                                      | Some f => f_readable f
                                      | None => true
                                      end |}]> (files st);
     clock := clock st + 1;
     trace := (trace st ++ [Mkdir p.1]) ++ [Wrote p] |}.

(** One step of the chunk writer of the format generators, with a
    callback that only prints. *)
Definition after_chunk_write (p : path) (payload : pystr) (kind : pystr)
    (st : state) : state :=
  {| files := <[p := {| f_data := payload; f_mtime := clock st;
                        f_readable := match files st !! p with
                                      | Some f => f_readable f
                                      | None => true
                                      end |}]> (files st);
     clock := clock st + 1;
     trace := (trace st ++ [Wrote p]) ++ [Printed (ChunkWritten kind p)] |}.

(** The state after the five [mkdir] calls that open the orchestrator. *)
Definition after_mkdirs (dirs : list pystr) (st : state) : state :=
  {| files := files st; clock := clock st;
     trace := trace st ++ map Mkdir dirs |}.




(** The [chunks] array of [record] has [n] entries, numbered [1 .. n],
    each carrying the total [n]. *)
Definition chunks_numbered (n : Z) (record : aggregate_record) : Prop :=
  len (ar_chunks record) = n
  /\ forall k, 0 <= k < n ->
       exists e, ar_chunks record !! Z.to_nat k = Some e
                 /\ ce_part e = k + 1 /\ ce_total_parts e = n.

Section RunVocabulary.
Context {U : UnicodeDigits} {H : Hasher} {J : JsonCodec}
        {C : FanoutCollaborators}.

(** The name of part 1 of 1 beside [p]. *)
Definition only_part (p : path) (extension : pystr) : path :=
  (p.1, chunk_file_name (stem p.2) 1 1 extension).

(** The effect of writing the single chunk [q] with [payload] through the
    idempotent writer. *)
Definition single_chunk (q : path) (payload : list Z) : M (list path) :=
  changed <- write_if_changed q payload ;;
  print (if changed then ChunkWritten [] q else ChunkUnchanged q) ;;
  ret [q].

(** Run from [st], [m] returns the single path [q], and the file at [q]
    is then on disk with [payload] for content: written by this run or,
    if a file with the digest of [payload] was already there, left as it
    was; no other file has changed. *)
Definition yields_one_part (m : M (list path)) (q : path) (payload : list Z)
    (st : state) : Prop :=
  exists st',
    m st = (Returns [q], st')
    /\ (exists f', files st' !! q = Some f'
                   /\ sha256_bytes (f_data f') = sha256_bytes payload
                   /\ (f_data f' = payload \/ files st !! q = Some f'))
    /\ (forall q', q' <> q -> files st' !! q' = files st !! q').

(** One stage of the orchestrator, as each of the three is written:
    the generator runs if [overwrite] is set or the aggregate of the
    stage is missing, else a line is printed. *)
Definition stage (overwrite : bool) (aggregate : path) (generate : M unit)
    (kind : pystr) : M unit :=
  present <- path_exists aggregate ;;
  if overwrite || negb present then generate else print (Skipping kind).

(** The three stages in their fixed order. *)
Definition run_stages (dataset_name aggregate_html aggregate_markdown : pystr)
    (html_dir markdown_dir text_dir json_dir pdf_dir : pystr)
    (chunk_char_limit : Z) (overwrite : bool) (source_url : option pystr)
    (base_name : pystr) : M unit :=
  stage overwrite (text_dir, base_name ++ lit ".text")
    (generate_text_artifacts aggregate_html text_dir chunk_char_limit base_name)
    (lit "text") ;;
  stage overwrite (json_dir, base_name ++ lit ".json")
    (generate_json_artifacts dataset_name aggregate_html aggregate_markdown
       text_dir html_dir markdown_dir json_dir chunk_char_limit
       (if nonempty source_url then source_url
        else extract_source_url (Some aggregate_html))
       base_name ;;
     ret tt)
    (lit "JSON") ;;
  stage overwrite (pdf_dir, base_name ++ lit ".pdf")
    (generate_pdf_artifacts (html_dir, base_name ++ lit ".html") html_dir
       pdf_dir base_name)
    (lit "PDF").

End RunVocabulary.

(** ** Windows of a fixed size *)

(** [groups] cuts [xs] into consecutive windows of [m] elements, the last
    one possibly shorter (and none empty). *)
Definition cut_every {A} (m : Z) (xs : list A) (groups : list (list A)) : Prop :=
  concat groups = xs
  /\ Forall (fun g => 1 <= len g <= m) groups
  /\ forall pre g post, groups = pre ++ g :: post -> post <> [] -> len g = m.

(** A chunk whose encoding fits the limit. *)
Definition fits (limit : Z) (chunk : pystr) : Prop :=
  exists bs, utf8_encode chunk = Some bs /\ len bs <= limit.

(** ** Directories and their files *)

(** [cleared d patterns q]: the file [q] lies in directory [d] and its
    name matches one of the patterns. *)
Definition cleared (d : pystr) (patterns : list pystr) (q : path) : bool :=
  bool_decide (q.1 = d) && existsb (fun pattern => glob_match pattern q.2) patterns.

(** A name that a glob pattern takes literally: it holds none of [*],
    [?], [[] and [/]. *)
Definition glob_literal (name : pystr) : Prop :=
  Forall (fun c => c <> 42 /\ c <> 63 /\ c <> 91 /\ c <> 47) name.

(** Two stars in a row, which [Path.glob] reads as the recursive
    wildcard or refuses. *)
Fixpoint double_star (pattern : pystr) : bool :=
  match pattern with
  | a :: (b :: _) as rest => ((a =? 42) && (b =? 42)) || double_star rest
  | _ => false
  end.

(** A pattern of which [*] is the only wildcard: not empty, not [.] or
    [..], without [?], [[] and [/] and without two stars in a row.  For
    such a pattern [glob_match] is the match of [Path.glob]. *)
Definition glob_plain (pattern : pystr) : Prop :=
  pattern <> [] /\ pattern <> lit "." /\ pattern <> lit ".."
  /\ Forall (fun c => c <> 63 /\ c <> 91 /\ c <> 47) pattern
  /\ double_star pattern = false.

(** No part file of [p] with this extension is on disk. *)
Definition no_parts (st : state) (p : path) (extension : pystr) : Prop :=
  forall i n, files st !! (p.1, chunk_file_name (stem p.2) i n extension) = None.

(** The contents of the files at [paths]. *)
Definition contents (st : state) (paths : list path) : list (option (list Z)) :=
  map (fun q => f_data <$> files st !! q) paths.

(** The page the browser is pointed at: the content of the file, if it
    can be loaded. *)
Definition page_of (st : state) (p : path) : option pystr :=
  match files st !! p with
  | Some f => if f_readable f then Some (f_data f) else None
  | None => None
  end.

(** ** The files of each writer *)

(** The parts [_write_chunks] writes for [payload_list]: a single empty
    part when the list is empty. *)
Definition parts_of (payload_list : list (list Z)) : list (list Z) :=
  match payload_list with [] => [[]] | _ => payload_list end.

(** The path of part [j] (from 0) of [n] beside [p]. *)
Definition part_path (p : path) (extension : pystr) (n : Z) (j : nat) : path :=
  (p.1, chunk_file_name (stem p.2) (Z.of_nat j + 1) n extension).

(** The byte limit [split_html] works with when it splits by bytes. *)
Definition html_byte_limit (max_bytes : option Z) : Z :=
  if truthy max_bytes then default 0 max_bytes else 200000.

(** The patterns [formats/html.py] clears. *)
Definition html_patterns (base_name : pystr) : list pystr :=
  [base_name ++ lit ".html"; base_name ++ lit "_part_*.html";
   lit "aggregate.html"; lit "html_part_*.html"].

(** The path of HTML chunk [j] (from 0) of [n]. *)
Definition html_chunk_path (dest_dir base_name : pystr) (n : Z) (j : nat) : path :=
  (dest_dir, chunk_file_name base_name (Z.of_nat j + 1) n (lit ".html")).

(** The patterns [generate_text_artifacts] clears. *)
Definition text_patterns (base_name : pystr) : list pystr :=
  [base_name ++ lit ".text"; base_name ++ lit "_part_*.txt"].

(** The path of text part [j] (from 0) of [n]. *)
Definition text_chunk_path (text_dir base_name : pystr) (n : Z) (j : nat) : path :=
  (text_dir, chunk_file_name base_name (Z.of_nat j + 1) n (lit ".txt")).

(** The patterns [formats/markdown.py] clears, and the path of Markdown
    chunk [j] (from 0) of [n]. *)
Definition markdown_patterns (base_name : pystr) : list pystr :=
  [base_name ++ lit ".md"; base_name ++ lit "_part_*.md";
   lit "aggregate.md"; lit "markdown_part_*.md"].

Definition markdown_chunk_path (dest_dir base_name : pystr) (n : Z) (j : nat)
  : path :=
  (dest_dir, chunk_file_name base_name (Z.of_nat j + 1) n (lit ".md")).

(** The path of combined chunk [j] (from 0). *)
Definition combined_path (dest_dir : pystr) (j : nat) : path :=
  (dest_dir, combined_file_name (Z.of_nat j + 1)).

(** The number a decimal numeral stands for. *)
Definition numeral_value (digits : pystr) : Z :=
  fold_left (fun acc v => 10 * acc + v) (map (fun c => c - 48) digits) 0.

(** The lines of group [i] of [parts]. *)
Definition markdown_group (lines : list pystr) (parts i : Z) : list pystr :=
  let avg_len := len lines / parts in
  slice lines (i * avg_len)
    (if i <? parts - 1 then (i + 1) * avg_len else len lines).

Section IndexVocabulary.
Context {U : UnicodeDigits}.

(** The name of the PDF rendered from the HTML chunk file [name]. *)
Definition pdf_target (pdf_dir base_name name : pystr) : path :=
  (pdf_dir,
   chunk_file_name base_name (parse_chunk_indices name).1
     (parse_chunk_indices name).2 (lit ".pdf")).

(** One step of the loop that fills the dictionary. *)
Definition file_under_index (paths : gmap Z pystr) (name : pystr) : gmap Z pystr :=
  let index := (parse_chunk_indices name).1 in
  if index =? 0 then paths else <[index := name]> paths.

End IndexVocabulary.

(* ===================================================================== *)
(** * Properties *)
(* ===================================================================== *)

(** ** Slices and [rfind] *)

(** Facts about the characters of a literal. *)
Ltac literal_chars :=
  cbv -[Z.le Z.lt not];
  repeat (apply List.Forall_cons; [lia|]); apply List.Forall_nil.

Section SliceFacts.
Context {A : Type}.
Implicit Types s : list A.

Lemma len_nonneg s : 0 <= len s.
Proof. unfold len. lia. Qed.

Lemma slice_in_range s a b :
  0 <= a <= b -> b <= len s ->
  slice s a b = take (Z.to_nat (b - a)) (drop (Z.to_nat a) s).
Proof.
  intros Hab Hb. unfold slice, adjust_index.
  destruct (Z.ltb_spec a 0), (Z.ltb_spec b 0); try lia.
  rewrite !Z.min_l by lia. reflexivity.
Qed.

Lemma len_slice s a b :
  0 <= a <= b -> b <= len s -> len (slice s a b) = b - a.
Proof.
  intros Hab Hb. rewrite slice_in_range by assumption.
  unfold len in *. rewrite length_take, length_drop. lia.
Qed.

Lemma drop_slice s a b :
  0 <= a <= b -> b <= len s ->
  drop (Z.to_nat a) s = slice s a b ++ drop (Z.to_nat b) s.
Proof.
  intros Hab Hb. rewrite slice_in_range by assumption.
  rewrite <- (take_drop (Z.to_nat (b - a)) (drop (Z.to_nat a) s)) at 1.
  f_equal. rewrite drop_drop. f_equal. lia.
Qed.

Lemma slice_nonempty s a b :
  0 <= a < b -> b <= len s -> slice s a b <> [].
Proof.
  intros Hab Hb Hnil.
  assert (H : len (slice s a b) = b - a) by (apply len_slice; lia).
  rewrite Hnil in H. unfold len in H. simpl in H. lia.
Qed.
End SliceFacts.

Lemma rfind_scan_spec c s : forall i a b best,
  0 <= i ->
  let r := rfind_scan c s i a b best in
  (r = best /\
   forall j, 0 <= j < len s -> a <= i + j < b -> s !! Z.to_nat j <> Some c)
  \/ (exists j, r = i + j /\ 0 <= j < len s /\ a <= r < b /\
        s !! Z.to_nat j = Some c /\
        forall k, j < k < len s -> a <= i + k < b ->
                  s !! Z.to_nat k <> Some c).
Proof.
  induction s as [|x t IH]; intros i a b best Hi; simpl.
  - left. split; [reflexivity|]. unfold len; simpl. lia.
  - set (best' := if (a <=? i) && (i <? b) && (x =? c) then i else best).
    destruct (IH (i + 1) a b best' ltac:(lia)) as [[Hr Hno]|(j & Hr & Hj & Hab & Hc & Hno)].
    + destruct ((a <=? i) && (i <? b) && (x =? c)) eqn:Hcond; subst best'.
      * right. exists 0.
        apply andb_prop in Hcond as [Hcond Hx]. apply andb_prop in Hcond as [Ha Hb].
        apply Z.leb_le in Ha. apply Z.ltb_lt in Hb. apply Z.eqb_eq in Hx.
        unfold len in *. simpl length.
        repeat split; try lia.
        -- simpl. congruence.
        -- intros k Hk Hk'.
           replace (Z.to_nat k) with (S (Z.to_nat (k - 1))) by lia. simpl.
           apply Hno; lia.
      * left. split; [assumption|].
        intros j Hj Hj'.
        destruct (Z.eq_dec j 0) as [->|Hne].
        -- simpl. intros [= ->].
           rewrite Z.add_0_r in Hj'.
           destruct Hj' as [Ha Hb].
           apply Z.leb_le in Ha. apply Z.ltb_lt in Hb.
           rewrite Ha, Hb, Z.eqb_refl in Hcond. discriminate.
        -- replace (Z.to_nat j) with (S (Z.to_nat (j - 1))) by lia. simpl.
           unfold len in *. simpl length in Hj.
           apply Hno; lia.
    + right. exists (j + 1). unfold len in *. simpl length.
      repeat split; try lia.
      * replace (Z.to_nat (j + 1)) with (S (Z.to_nat j)) by lia. exact Hc.
      * intros k Hk Hk'.
        replace (Z.to_nat k) with (S (Z.to_nat (k - 1))) by lia. simpl.
        apply Hno; lia.
Qed.

(** [rfind] on a window inside the string: either -1 and the window holds
    no [c], or the last position of [c] in the window. *)
Lemma rfind_spec s c lo hi :
  0 <= lo -> 0 <= hi <= len s ->
  (rfind s c lo hi = -1 /\
   forall j, lo <= j < hi -> s !! Z.to_nat j <> Some c)
  \/ is_last s c lo hi (rfind s c lo hi).
Proof.
  intros Hlo Hhi. unfold rfind.
  destruct (Z.ltb_spec (len s) hi); [lia|].
  destruct (Z.ltb_spec hi 0); [lia|].
  destruct (Z.ltb_spec lo 0); [lia|].
  destruct (rfind_scan_spec c s 0 lo hi (-1) ltac:(lia))
    as [[Hr Hno]|(j & Hr & Hj & Hab & Hc & Hno)].
  - left. split; [assumption|]. intros j Hj. apply Hno; lia.
  - right. rewrite Hr in *. simpl in *. repeat split; try lia; try assumption.
    intros k Hk. apply Hno; lia.
Qed.

(** ** The newline-preferring splitter *)

Section SplitLoop.
Variable text : pystr.
Variable L : Z.
Hypothesis L_pos : 1 <= L.

Lemma is_last_unique c lo hi j j' :
  is_last text c lo hi j -> is_last text c lo hi j' -> j = j'.
Proof.
  intros (Hj & Hc & Hno) (Hj' & Hc' & Hno').
  destruct (Z.lt_total j j') as [Hlt|[Heq|Hlt]]; [|assumption|].
  - exfalso. apply (Hno j'); [lia|assumption].
  - exfalso. apply (Hno' j); [lia|assumption].
Qed.

Lemma window_limit_rule c :
  0 <= c < len text ->
  c < window_limit text L c <= Z.min (len text) (c + L)
  /\ break_rule text L c (window_limit text L c).
Proof using L_pos.
  intros Hc. unfold window_limit, break_rule.
  destruct (Z.ltb_spec (Z.min (len text) (c + L)) (len text)) as [Hmid|Hend].
  - rewrite Z.min_r in * by lia.
    destruct (rfind_spec text nl c (c + L) ltac:(lia) ltac:(lia))
      as [[Hr Hno]|Hlast].
    + rewrite Hr.
      destruct (Z.ltb_spec (2 * c + L) (2 * -1)); [lia|].
      split; [lia|]. right. split; [lia|]. right. split; [|reflexivity].
      intros j (Hj & Hjc & _). exfalso. apply (Hno j); assumption.
    + destruct (Z.ltb_spec (2 * c + L) (2 * rfind text nl c (c + L))) as [Hpast|Hnot].
      * destruct Hlast as (Hj & Hjc & Hno).
        split; [lia|]. right. split; [lia|]. left.
        exists (rfind text nl c (c + L)). repeat split; try lia; assumption.
      * split; [lia|]. right. split; [lia|]. right. split; [|reflexivity].
        intros j Hj. rewrite (is_last_unique _ _ _ _ _ Hj Hlast). assumption.
  - split; [lia|]. left. lia.
Qed.

Lemma window_segment_slice c :
  0 <= c < len text ->
  window_segment text L c = slice text c (window_limit text L c).
Proof using L_pos.
  intros Hc. unfold window_segment.
  destruct (window_limit_rule c Hc) as [Hb _].
  pose proof (slice_nonempty text c (window_limit text L c) ltac:(lia) ltac:(lia)) as Hne.
  destruct (slice text c (window_limit text L c)); [congruence|reflexivity].
Qed.

(** Every iteration emits a non-empty segment of at most [L] characters
    and moves the cursor forward by exactly its length. *)
Lemma window_advances c :
  0 <= c < len text ->
  window_segment text L c <> []
  /\ len (window_segment text L c) <= L
  /\ window_limit text L c = c + len (window_segment text L c)
  /\ c < window_limit text L c <= len text.
Proof using L_pos.
  intros Hc.
  destruct (window_limit_rule c Hc) as [Hb _].
  rewrite window_segment_slice by assumption.
  rewrite len_slice by lia.
  split; [apply slice_nonempty; lia|]. lia.
Qed.

(** Enough fuel for the remaining characters gives a result. *)
Lemma split_loop_fuel : forall fuel c,
  0 <= c -> len text - c <= Z.of_nat fuel ->
  exists chunks, split_loop fuel text L c = Some chunks.
Proof using L_pos.
  induction fuel as [|fuel IH]; intros c Hc Hfuel; simpl.
  - destruct (Z.ltb_spec c (len text)); [lia|]. eauto.
  - destruct (Z.ltb_spec c (len text)) as [Hlt|]; [|eauto].
    destruct (window_advances c ltac:(lia)) as (_ & _ & _ & Hadv).
    destruct (IH (window_limit text L c) ltac:(lia) ltac:(lia)) as [rest ->].
    eauto.
Qed.

(** What the loop returns from cursor [c]: the rest of the text, cut into
    non-empty pieces of at most [L] characters, each cut obeying the
    break rule. *)
Lemma split_loop_sound : forall fuel c chunks,
  0 <= c <= len text ->
  split_loop fuel text L c = Some chunks ->
  concat chunks = drop (Z.to_nat c) text
  /\ Forall (fun seg => seg <> [] /\ len seg <= L) chunks
  /\ (c < len text -> chunks <> [])
  /\ forall pre seg post, chunks = pre ++ seg :: post ->
       break_rule text L (c + len (concat pre))
                         (c + len (concat pre) + len seg).
Proof using L_pos.
  induction fuel as [|fuel IH]; intros c chunks Hc; simpl.
  - destruct (Z.ltb_spec c (len text)) as [|Hge]; [discriminate|].
    intros [= <-]. simpl. repeat split.
    + rewrite drop_ge; [reflexivity|]. unfold len in *. lia.
    + constructor.
    + lia.
    + intros [|? ?] ? ? ?; discriminate.
  - destruct (Z.ltb_spec c (len text)) as [Hlt|Hge].
    + destruct (split_loop fuel text L (window_limit text L c)) as [rest|] eqn:Hrest;
        [|discriminate].
      intros [= <-].
      destruct (window_advances c ltac:(lia)) as (Hne & Hle & Hnext & Hadv).
      destruct (window_limit_rule c ltac:(lia)) as [_ Hrule].
      destruct (IH (window_limit text L c) rest ltac:(lia) Hrest)
        as (Hcat & Hall & _ & Hcuts).
      repeat split.
      * simpl. rewrite Hcat, window_segment_slice by lia.
        symmetry. apply drop_slice; lia.
      * constructor; [split|]; assumption.
      * discriminate.
      * intros [|p pre] seg post Heq; simpl in Heq; injection Heq as <- Hrest'.
        -- simpl concat. change (len (@nil Z)) with 0. rewrite Z.add_0_r.
           rewrite <- Hnext. exact Hrule.
        -- subst rest. specialize (Hcuts _ _ _ eq_refl).
           rewrite Hnext in Hcuts.
           assert (Hlen : len (concat (window_segment text L c :: pre))
                          = len (window_segment text L c) + len (concat pre)).
           { simpl concat. unfold len. rewrite length_app. lia. }
           rewrite Hlen, Z.add_assoc. exact Hcuts.
    + intros [= <-]. simpl. repeat split.
      * rewrite drop_ge; [reflexivity|]. unfold len in *. lia.
      * constructor.
      * lia.
      * intros [|? ?] ? ? ?; discriminate.
Qed.

End SplitLoop.

(** With [max_chars = 0] the cursor never moves: the loop does not
    terminate on a non-empty text, whatever the fuel. *)
Lemma split_loop_stuck text fuel c :
  0 <= c < len text -> split_loop fuel text 0 c = None.
Proof.
  intros Hc. induction fuel as [|fuel IH]; simpl;
    destruct (Z.ltb_spec c (len text)); try lia; [reflexivity|].
  assert (Hlim : window_limit text 0 c = c).
  { unfold window_limit. rewrite Z.add_0_r, Z.min_r by lia.
    destruct (Z.ltb_spec c (len text)); [|lia].
    unfold rfind.
    destruct (Z.ltb_spec (len text) c); [lia|].
    destruct (Z.ltb_spec c 0); [lia|].
    destruct (rfind_scan_spec nl text 0 c c (-1) ltac:(lia))
      as [[-> _]|(j & Hr & _ & Hab & _)]; [|lia].
    destruct (Z.ltb_spec (2 * c + 0) (2 * -1)); [lia|reflexivity]. }
  rewrite Hlim, IH. reflexivity.
Qed.

(** For a positive limit the splitter returns. *)
Lemma split_text_on_newlines_total T L :
  1 <= L -> exists chunks, split_text_on_newlines T L = Some chunks.
Proof.
  intros HL.
  destruct (split_loop_fuel T L HL (length T) 0) as [chunks Hrun];
    [lia|unfold len; lia|].
  destruct T; [simpl; eauto|exists chunks; exact Hrun].
Qed.

(** C1.  For a non-empty text [T] and a positive limit [L],
    [split_text_on_newlines T L] returns at least one chunk, no chunk is
    longer than [L], the chunks concatenated in order give back [T], and
    every cut obeys the break rule: a window that would end inside the
    text is cut just after its last newline when that newline lies past
    the midpoint of the window ([> cursor + L * 0.5]), and at the hard
    limit [L] otherwise. *)
Theorem split_text_on_newlines_spec (T : pystr) (L : Z) :
  T <> [] -> 0 < L ->
  exists chunks,
    split_text_on_newlines T L = Some chunks
    /\ 1 <= len chunks
    /\ Forall (fun seg => len seg <= L) chunks
    /\ concat chunks = T
    /\ forall pre seg post, chunks = pre ++ seg :: post ->
         break_rule T L (len (concat pre)) (len (concat pre) + len seg).
Proof.
  intros HT HL.
  assert (Hlen : 0 < len T) by (destruct T; [congruence|unfold len; simpl; lia]).
  destruct (split_loop_fuel T L ltac:(lia) (length T) 0 ltac:(lia) ltac:(unfold len; lia))
    as [chunks Hrun].
  destruct (split_loop_sound T L ltac:(lia) _ 0 chunks ltac:(lia) Hrun)
    as (Hcat & Hall & Hne & Hcuts).
  exists chunks. repeat split.
  - destruct T; [congruence|exact Hrun].
  - destruct chunks; [exfalso; apply Hne; [lia|reflexivity]|unfold len; simpl; lia].
  - eapply Forall_impl; [exact Hall|]. intros seg [_ Hle]. exact Hle.
  - exact Hcat.
  - intros pre seg post Heq. exact (Hcuts pre seg post Heq).
Qed.

Lemma split_text_on_newlines_spec_witness :
  exists chunks,
    split_text_on_newlines [97; 98; 99; 100; 10; 101; 102; 103; 104; 10; 105] 6
      = Some chunks
    /\ 1 <= len chunks
    /\ Forall (fun seg => len seg <= 6) chunks
    /\ concat chunks = [97; 98; 99; 100; 10; 101; 102; 103; 104; 10; 105]
    /\ forall pre seg post, chunks = pre ++ seg :: post ->
         break_rule [97; 98; 99; 100; 10; 101; 102; 103; 104; 10; 105] 6
           (len (concat pre)) (len (concat pre) + len seg).
Proof.
  apply (split_text_on_newlines_spec
           [97; 98; 99; 100; 10; 101; 102; 103; 104; 10; 105] 6);
    [discriminate | lia].
Defined.

(** C10.  For [max_chars >= 1] the loop of [split_text_on_newlines]
    terminates: every iteration emits a non-empty segment and moves the
    cursor strictly forward, so one unit of fuel per character is enough
    for a result.  The precondition is needed: with [max_chars = 0] the
    cursor of a non-empty text never moves and no amount of fuel gives a
    result. *)
Theorem split_text_on_newlines_terminates (T : pystr) :
  (forall max_chars, 1 <= max_chars ->
     (exists chunks, split_text_on_newlines T max_chars = Some chunks)
     /\ (forall fuel cursor, 0 <= cursor -> len T - cursor <= Z.of_nat fuel ->
           exists chunks, split_loop fuel T max_chars cursor = Some chunks)
     /\ (forall cursor, 0 <= cursor < len T ->
           window_segment T max_chars cursor <> []
           /\ cursor < window_limit T max_chars cursor <= len T))
  /\ (T <> [] -> forall fuel, split_loop fuel T 0 0 = None).
Proof.
  split.
  - intros L HL. repeat split.
    + destruct (split_loop_fuel T L HL (length T) 0) as [chunks Hrun];
        [lia|unfold len; lia|].
      destruct T; [simpl; eauto|exists chunks; exact Hrun].
    + intros fuel c Hc Hfuel. apply (split_loop_fuel T L HL); assumption.
    + apply (window_advances T L HL cursor); assumption.
    + apply (window_advances T L HL cursor); assumption.
    + apply (window_advances T L HL cursor); assumption.
  - intros HT fuel. apply split_loop_stuck.
    destruct T; [congruence|unfold len; simpl; lia].
Qed.

Lemma split_text_on_newlines_terminates_witness :
  ((exists chunks, split_text_on_newlines [97; 10; 98; 99] 2 = Some chunks)
   /\ window_segment [97; 10; 98; 99] 2 0 <> []
   /\ 0 < window_limit [97; 10; 98; 99] 2 0 <= 4)
  /\ (forall fuel, split_loop fuel [97; 10; 98; 99] 0 0 = None).
Proof.
  destruct (split_text_on_newlines_terminates [97; 10; 98; 99]) as [Hterm Hstuck].
  destruct (Hterm 2 ltac:(lia)) as (Hres & _ & Hadv).
  split.
  - split; [exact Hres|]. apply (Hadv 0). vm_compute. split; [discriminate|reflexivity].
  - apply Hstuck. discriminate.
Defined.

(** ** Decimal numerals *)

Lemma digits_rev_spec : forall fuel n,
  0 <= n < 2 ^ Z.of_nat (S fuel) ->
  digits_rev (S fuel) n <> []
  /\ Forall ascii_digit (digits_rev (S fuel) n)
  /\ fold_right (fun c acc => (c - 48) + 10 * acc) 0 (digits_rev (S fuel) n) = n.
Proof.
  induction fuel as [|fuel IH]; intros n Hn.
  - change (2 ^ Z.of_nat 1) with 2 in Hn. simpl.
    destruct (Z.ltb_spec n 10); [|lia].
    assert (Hmod : n mod 10 = n) by (apply Z.mod_small; lia).
    rewrite Hmod. repeat split; [discriminate| |simpl; lia].
    constructor; [unfold ascii_digit; lia|constructor].
  - change (digits_rev (S (S fuel)) n)
      with ((48 + n mod 10)
              :: (if n <? 10 then [] else digits_rev (S fuel) (n / 10))).
    pose proof (Z.mod_pos_bound n 10 ltac:(lia)) as Hmod.
    pose proof (Z.div_mod n 10 ltac:(lia)) as Hdiv.
    destruct (Z.ltb_spec n 10) as [Hsmall|Hbig].
    + repeat split; [discriminate| |].
      * constructor; [unfold ascii_digit; lia|constructor].
      * simpl. rewrite Z.mod_small by lia. lia.
    + assert (Hq : 0 <= n / 10 < 2 ^ Z.of_nat (S fuel)).
      { split; [apply Z.div_pos; lia|].
        apply Z.div_lt_upper_bound; [lia|].
        rewrite (Nat2Z.inj_succ (S fuel)), Z.pow_succ_r in Hn by lia. lia. }
      destruct (IH (n / 10) Hq) as (_ & Hall & Hval).
      repeat split; [discriminate| |].
      * constructor; [unfold ascii_digit; lia|assumption].
      * cbn [fold_right]. rewrite Hval. lia.
Qed.

(** [str(n)] for [n >= 0]: a non-empty run of ASCII digits whose value,
    read most significant digit first, is [n]. *)
Lemma str_of_int_spec n :
  0 <= n ->
  str_of_int n <> []
  /\ Forall ascii_digit (str_of_int n)
  /\ fold_left (fun acc v => 10 * acc + v)
       (map (fun c => c - 48) (str_of_int n)) 0 = n.
Proof.
  intros Hn. unfold str_of_int.
  destruct (Z.ltb_spec n 0); [lia|].
  assert (Hfuel : 0 <= n < 2 ^ Z.of_nat (S (Z.to_nat (Z.log2 n)))).
  { split; [assumption|].
    rewrite Nat2Z.inj_succ, Z2Nat.id by apply Z.log2_nonneg.
    destruct (Z.eq_dec n 0) as [->|]; [reflexivity|].
    apply Z.log2_spec. lia. }
  destruct (digits_rev_spec _ _ Hfuel) as (Hne & Hall & Hval).
  set (ds := digits_rev (S (Z.to_nat (Z.log2 n))) n) in *.
  repeat split.
  - intros Hrev. apply Hne. apply (f_equal (@rev Z)) in Hrev.
    rewrite rev_involutive in Hrev. exact Hrev.
  - apply Forall_rev. exact Hall.
  - rewrite List.map_rev, <- fold_left_rev_right, rev_involutive.
    rewrite <- Hval. clear. induction ds as [|c ds IH]; simpl; [reflexivity|].
    rewrite IH. lia.
Qed.

(** ** The chunk-name pattern *)

Section NamingFacts.
Context {U : UnicodeDigits}.

Lemma digit_value_digit c : ascii_digit c -> digit_value c = Some (c - 48).
Proof.
  unfold ascii_digit. intros Hc. rewrite digit_value_ascii by lia.
  destruct (Z.leb_spec 48 c), (Z.leb_spec c 57); try lia. reflexivity.
Qed.

Lemma digit_value_other c :
  0 <= c < 128 -> ~ ascii_digit c -> digit_value c = None.
Proof.
  unfold ascii_digit. intros Hc Hn. rewrite digit_value_ascii by lia.
  destruct (Z.leb_spec 48 c), (Z.leb_spec c 57); try lia; reflexivity.
Qed.

Lemma strip_prefix_eq p : forall s r, strip_prefix p s = Some r -> s = p ++ r.
Proof.
  induction p as [|c p IH]; intros s r; simpl.
  - intros [= ->]. reflexivity.
  - destruct s as [|x s]; [discriminate|].
    destruct (Z.eqb_spec c x) as [->|]; [|discriminate].
    intros H. rewrite (IH _ _ H). reflexivity.
Qed.

Lemma strip_prefix_self p r : strip_prefix p (p ++ r) = Some r.
Proof.
  induction p as [|c p IH]; simpl; [reflexivity|].
  rewrite Z.eqb_refl. exact IH.
Qed.

(** Matching a literal against [b ++ T]: either the literal ends inside
    [b], or [b] is a proper prefix of it and the rest is matched in [T]. *)
Lemma strip_prefix_app p : forall b T,
  strip_prefix p (b ++ T) =
  match strip_prefix p b with
  | Some r => Some (r ++ T)
  | None => match strip_prefix b p with
            | Some p2 => strip_prefix p2 T
            | None => None
            end
  end.
Proof.
  induction p as [|c p IH]; intros b T; simpl.
  - reflexivity.
  - destruct b as [|x b]; simpl; [reflexivity|].
    rewrite (Z.eqb_sym x c).
    destruct (Z.eqb_spec c x) as [->|]; [apply IH|reflexivity].
Qed.

Lemma span_digits_eq : forall s vs r,
  span_digits s = (vs, r) ->
  exists d, s = d ++ r /\ Forall is_digit d /\ length d = length vs.
Proof.
  induction s as [|c s IH]; intros vs r; simpl.
  - intros [= <- <-]. exists []. repeat split. constructor.
  - destruct (digit_value c) as [v|] eqn:Hc.
    + destruct (span_digits s) as [vs' r'] eqn:Hs. intros [= <- <-].
      destruct (IH _ _ eq_refl) as (d & -> & Hall & Hlen).
      exists (c :: d). repeat split; [|simpl; congruence].
      constructor; [unfold is_digit; congruence|assumption].
    + intros [= <- <-]. exists []. repeat split. constructor.
Qed.

(** A run of digits is not extended by text that starts with a
    non-digit. *)
Lemma span_digits_app T : forall s,
  match T with c :: _ => digit_value c = None | [] => True end ->
  span_digits (s ++ T) = ((span_digits s).1, (span_digits s).2 ++ T).
Proof.
  intros s HT. induction s as [|c s IH]; simpl.
  - destruct T as [|c T]; simpl; [reflexivity|]. rewrite HT. reflexivity.
  - destruct (digit_value c); [|reflexivity].
    rewrite IH. destruct (span_digits s). reflexivity.
Qed.

Lemma span_digits_ascii ds T :
  Forall ascii_digit ds ->
  match T with c :: _ => digit_value c = None | [] => True end ->
  span_digits (ds ++ T) = (map (fun c => c - 48) ds, T).
Proof.
  intros Hds HT. rewrite span_digits_app by assumption.
  induction Hds as [|c ds Hc Hds IH]; simpl; [reflexivity|].
  rewrite (digit_value_digit c Hc).
  destruct (span_digits ds) as [vs r]. simpl in *.
  injection IH as -> ->. reflexivity.
Qed.

(** The pattern matches at the position where the naming scheme puts
    the marker, and reads back the two numbers. *)
Lemma match_chunk_name_canonical i n ext :
  0 <= i -> 0 <= n ->
  match_chunk_name
    (part_tag ++ str_of_int i ++ of_tag ++ str_of_int n ++ dot :: ext)
  = Some (i, n).
Proof.
  intros Hi Hn. unfold match_chunk_name.
  destruct (str_of_int_spec i Hi) as (Hne1 & Hd1 & Hv1).
  destruct (str_of_int_spec n Hn) as (Hne2 & Hd2 & Hv2).
  rewrite strip_prefix_self.
  rewrite span_digits_ascii; [|assumption|apply digit_value_other; unfold ascii_digit; lia].
  destruct (map (fun c => c - 48) (str_of_int i)) as [|v1 vs1] eqn:Hm1.
  { destruct (str_of_int i); [congruence|discriminate]. }
  rewrite strip_prefix_self.
  rewrite span_digits_ascii; [|assumption|apply digit_value_other; unfold ascii_digit, dot; lia].
  destruct (map (fun c => c - 48) (str_of_int n)) as [|v2 vs2] eqn:Hm2.
  { destruct (str_of_int n); [congruence|discriminate]. }
  rewrite Z.eqb_refl. unfold int_of_digits. rewrite Hv1, Hv2. reflexivity.
Qed.

(** A failed match inside the base name stays failed when the marker of
    the naming scheme is appended: the pattern cannot straddle the
    boundary. *)
Lemma match_chunk_name_app b X :
  b <> [] ->
  match_chunk_name b = None ->
  match_chunk_name (b ++ part_tag ++ X) = None.
Proof.
  intros Hb Hnone. unfold match_chunk_name in *.
  assert (Hp : digit_value 112 = None)
    by (apply digit_value_other; unfold ascii_digit; lia).
  assert (Hu : digit_value 95 = None)
    by (apply digit_value_other; unfold ascii_digit; lia).
  rewrite strip_prefix_app.
  destruct (strip_prefix part_tag b) as [r1|] eqn:E1.
  - rewrite span_digits_app by exact Hu.
    destruct (span_digits r1) as [d1 r2]. cbn [fst snd].
    destruct d1 as [|v1 d1]; [reflexivity|].
    rewrite strip_prefix_app.
    destruct (strip_prefix of_tag r2) as [r3|] eqn:E3.
    + rewrite span_digits_app by exact Hu.
      destruct (span_digits r3) as [d2 r4]. cbn [fst snd].
      destruct d2 as [|v2 d2]; [reflexivity|].
      destruct r4 as [|c r4]; [reflexivity|exact Hnone].
    + destruct (strip_prefix r2 of_tag) as [p2|] eqn:E4; [|reflexivity].
      apply strip_prefix_eq in E4. unfold of_tag in E4.
      repeat (destruct r2 as [|? r2]; simpl in E4;
              [subst p2; simpl; rewrite ?Hp; reflexivity
              |injection E4 as <- E4]).
      discriminate.
  - destruct (strip_prefix b part_tag) as [p2|] eqn:E2; [|reflexivity].
    apply strip_prefix_eq in E2. unfold part_tag in E2.
    destruct b as [|x b]; [congruence|].
    simpl in E2. injection E2 as <- E2.
    repeat (destruct b as [|? b]; simpl in E2;
            [subst p2; simpl; rewrite ?Hp; reflexivity
            |injection E2 as <- E2]).
    discriminate.
Qed.

Lemma match_chunk_name_sound s r :
  match_chunk_name s = Some r ->
  exists d1 d2 post,
    s = part_tag ++ d1 ++ of_tag ++ d2 ++ dot :: post
    /\ d1 <> [] /\ d2 <> [] /\ Forall is_digit d1 /\ Forall is_digit d2.
Proof.
  unfold match_chunk_name.
  destruct (strip_prefix part_tag s) as [r1|] eqn:E1; [|discriminate].
  destruct (span_digits r1) as [vs1 r2] eqn:E2.
  destruct vs1 as [|v1 vs1]; [discriminate|].
  destruct (strip_prefix of_tag r2) as [r3|] eqn:E3; [|discriminate].
  destruct (span_digits r3) as [vs2 r4] eqn:E4.
  destruct vs2 as [|v2 vs2]; [discriminate|].
  destruct r4 as [|c post]; [discriminate|].
  destruct (Z.eqb_spec c dot) as [->|]; [|discriminate].
  intros _.
  apply strip_prefix_eq in E1, E3.
  apply span_digits_eq in E2 as (d1 & -> & Hd1 & Hl1).
  apply span_digits_eq in E4 as (d2 & -> & Hd2 & Hl2).
  exists d1, d2, post. subst s r2.
  split; [reflexivity|].
  split; [destruct d1; discriminate|].
  split; [destruct d2; discriminate|].
  split; assumption.
Qed.

Lemma re_search_sound : forall name r,
  re_search name = Some r -> has_chunk_marker name.
Proof.
  induction name as [|c name IH]; intros r; simpl.
  - destruct (match_chunk_name []) eqn:E; [|discriminate].
    intros _. destruct (match_chunk_name_sound _ _ E) as (d1 & d2 & post & H & Hrest).
    exists [], d1, d2, post. split; [exact H|exact Hrest].
  - destruct (match_chunk_name (c :: name)) eqn:E.
    + intros _. destruct (match_chunk_name_sound _ _ E) as (d1 & d2 & post & H & Hrest).
      exists [], d1, d2, post. split; [exact H|exact Hrest].
    + intros H. destruct (IH _ H) as (pre & d1 & d2 & post & -> & Hrest).
      exists (c :: pre), d1, d2, post. split; [reflexivity|exact Hrest].
Qed.

Lemma re_search_none name :
  ~ has_chunk_marker name -> re_search name = None.
Proof.
  intros Hno. destruct (re_search name) eqn:E; [|reflexivity].
  exfalso. apply Hno. eapply re_search_sound. exact E.
Qed.

Lemma re_search_hit s r :
  match_chunk_name s = Some r -> re_search s = Some r.
Proof. intros H. destruct s; cbn [re_search]; rewrite H; reflexivity. Qed.

(** The search skips a marker-free base name and finds the marker that
    the naming scheme appended. *)
Lemma re_search_skip_base X r : forall base,
  re_search base = None ->
  match_chunk_name (part_tag ++ X) = Some r ->
  re_search (base ++ part_tag ++ X) = Some r.
Proof.
  induction base as [|c base IH]; intros Hnone Hhit.
  - apply re_search_hit. exact Hhit.
  - simpl in Hnone.
    destruct (match_chunk_name (c :: base)) eqn:E; [discriminate|].
    change ((c :: base) ++ part_tag ++ X) with (c :: (base ++ part_tag ++ X)).
    cbn [re_search].
    change (c :: (base ++ part_tag ++ X)) with ((c :: base) ++ part_tag ++ X).
    rewrite match_chunk_name_app by (discriminate || exact E).
    apply IH; assumption.
Qed.

Lemma span_digits_run T : forall d,
  Forall is_digit d ->
  match T with c :: _ => digit_value c = None | [] => True end ->
  exists vs, span_digits (d ++ T) = (vs, T) /\ length vs = length d.
Proof.
  intros d Hd HT. induction Hd as [|c d Hc Hd IH]; simpl.
  - exists []. split; [|reflexivity].
    destruct T as [|c T]; simpl; [reflexivity|]. rewrite HT. reflexivity.
  - destruct IH as (vs & -> & Hlen).
    unfold is_digit in Hc. destruct (digit_value c) as [v|]; [|congruence].
    exists (v :: vs). split; [reflexivity|simpl; congruence].
Qed.

Lemma match_chunk_name_complete d1 d2 post :
  d1 <> [] -> d2 <> [] -> Forall is_digit d1 -> Forall is_digit d2 ->
  match_chunk_name (part_tag ++ d1 ++ of_tag ++ d2 ++ dot :: post) <> None.
Proof.
  intros Hne1 Hne2 Hd1 Hd2. unfold match_chunk_name.
  rewrite strip_prefix_self.
  destruct (span_digits_run (of_tag ++ d2 ++ dot :: post) d1 Hd1) as (vs1 & -> & Hl1).
  { apply digit_value_other; unfold ascii_digit; lia. }
  destruct vs1 as [|v1 vs1]; [destruct d1; [congruence|discriminate]|].
  rewrite strip_prefix_self.
  destruct (span_digits_run (dot :: post) d2 Hd2) as (vs2 & -> & Hl2).
  { apply digit_value_other; unfold ascii_digit, dot; lia. }
  destruct vs2 as [|v2 vs2]; [destruct d2; [congruence|discriminate]|].
  rewrite Z.eqb_refl. discriminate.
Qed.

Lemma re_search_complete name :
  has_chunk_marker name -> re_search name <> None.
Proof.
  intros (pre & d1 & d2 & post & -> & Hne1 & Hne2 & Hd1 & Hd2).
  pose proof (match_chunk_name_complete d1 d2 post Hne1 Hne2 Hd1 Hd2) as Hm.
  induction pre as [|c pre IH].
  - destruct (match_chunk_name _) as [r|] eqn:E; [|congruence].
    change ([] ++ ?x) with x. rewrite (re_search_hit _ _ E). discriminate.
  - change ((c :: pre) ++ ?x) with (c :: (pre ++ x)). cbn [re_search].
    destruct (match_chunk_name (c :: _)); [discriminate|exact IH].
Qed.

(** The search decides the presence of a marker. *)
Lemma no_marker_iff name : re_search name = None <-> ~ has_chunk_marker name.
Proof.
  split.
  - intros Hnone Hm. exact (re_search_complete name Hm Hnone).
  - apply re_search_none.
Qed.

End NamingFacts.

(** C7 (amended).  For a base name that does not itself contain a
    [_part_<digits>_of_<digits>.] substring and every [1 <= i <= n],
    [parse_chunk_indices] applied to the canonical chunk name
    [base_part_i_of_n.ext] returns [(i, n)]; applied to a name without
    such a substring it returns the sentinel [(0, 0)]. *)
Theorem chunk_name_roundtrip {U : UnicodeDigits} :
  (forall base i n ext,
     ~ has_chunk_marker base -> 1 <= i <= n ->
     parse_chunk_indices (chunk_file_name base i n (dot :: ext)) = (i, n))
  /\ (forall name, ~ has_chunk_marker name -> parse_chunk_indices name = (0, 0)).
Proof.
  split.
  - intros base i n ext Hbase Hin.
    unfold parse_chunk_indices, chunk_file_name.
    rewrite (re_search_skip_base _ (i, n)); [reflexivity| |].
    + apply no_marker_iff. exact Hbase.
    + apply match_chunk_name_canonical; lia.
  - intros name Hname. unfold parse_chunk_indices.
    rewrite (proj2 (no_marker_iff name) Hname). reflexivity.
Qed.

Lemma chunk_name_roundtrip_witness :
  @parse_chunk_indices ascii_digits
    (chunk_file_name [114; 101; 112; 111; 114; 116] 3 12 [46; 109; 100])
  = (3, 12)
  /\ @parse_chunk_indices ascii_digits [114; 101; 112; 111; 114; 116; 46; 109; 100]
     = (0, 0).
Proof.
  destruct (@chunk_name_roundtrip ascii_digits) as [Hround Hsentinel].
  split.
  - apply (Hround [114; 101; 112; 111; 114; 116] 3 12 [109; 100]); [|lia].
    apply (@no_marker_iff ascii_digits). vm_compute. reflexivity.
  - apply (Hsentinel [114; 101; 112; 111; 114; 116; 46; 109; 100]).
    apply (@no_marker_iff ascii_digits). vm_compute. reflexivity.
Defined.

(** C7 as stated fails for a base name that carries a marker of its own:
    the leftmost match wins.  The canonical name of part 1 of 2 of the
    base [a_part_3_of_7.b] is read back as [(3, 7)]. *)
Lemma chunk_name_roundtrip_counterexample :
  1 <= 1 <= 2
  /\ @parse_chunk_indices ascii_digits
       (chunk_file_name (lit "a_part_3_of_7.b") 1 2 (lit ".html")) = (3, 7)
  /\ @parse_chunk_indices ascii_digits
       (chunk_file_name (lit "a_part_3_of_7.b") 1 2 (lit ".html")) <> (1, 2).
Proof.
  split; [lia|]. split; [vm_compute; reflexivity|vm_compute; discriminate].
Qed.

(** ** The codecs *)

Ltac split_tests :=
  repeat match goal with
  | H : context [?a <=? ?b] |- _ => revert H
  | H : context [?a <? ?b] |- _ => revert H
  | H : context [?a =? ?b] |- _ => revert H
  end;
  repeat match goal with
  | |- context [?a <=? ?b] => destruct (Z.leb_spec a b); simpl
  | |- context [?a <? ?b] => destruct (Z.ltb_spec a b); simpl
  | |- context [?a =? ?b] => destruct (Z.eqb_spec a b); simpl
  end;
  intros.

Lemma encode_char_scalar c :
  scalar_value c ->
  exists bs, encode_char c = Some bs /\ Forall is_byte bs.
Proof.
  unfold scalar_value, encode_char. intros Hc.
  split_tests; try lia; eexists; (split; [reflexivity|]);
    repeat constructor; unfold is_byte;
    try (pose proof (Z.mod_pos_bound c 64 ltac:(lia));
         pose proof (Z.mod_pos_bound (c / 64) 64 ltac:(lia));
         pose proof (Z.mod_pos_bound (c / 4096) 64 ltac:(lia));
         pose proof (Z.div_pos c 64 ltac:(lia) ltac:(lia));
         pose proof (Z.div_pos c 4096 ltac:(lia) ltac:(lia));
         pose proof (Z.div_pos c 262144 ltac:(lia) ltac:(lia));
         pose proof (Z.div_lt_upper_bound c 64 32 ltac:(lia));
         pose proof (Z.div_lt_upper_bound c 4096 16 ltac:(lia));
         pose proof (Z.div_lt_upper_bound c 262144 5 ltac:(lia));
         lia).
Qed.

(** Encoding never fails on a string of scalar values. *)
Lemma utf8_encode_scalar s :
  Forall scalar_value s ->
  exists bs, utf8_encode s = Some bs /\ Forall is_byte bs.
Proof.
  induction 1 as [|c s Hc Hs (rest & Hrest & Hbytes)]; simpl.
  - exists []. split; [reflexivity|constructor].
  - destruct (encode_char_scalar c Hc) as (bs & -> & Hbs). rewrite Hrest.
    exists (bs ++ rest). split; [reflexivity|]. apply Forall_app. split; assumption.
Qed.

(** Boolean tests known to hold, as arithmetic facts. *)
Ltac tests_to_facts :=
  repeat match goal with
  | H : _ && _ = true |- _ => apply andb_prop in H as [? ?]
  | H : (_ <=? _) = true |- _ => apply Z.leb_le in H
  | H : (_ <? _) = true |- _ => apply Z.ltb_lt in H
  | H : (_ =? _) = true |- _ => apply Z.eqb_eq in H
  | H : (if ?a =? ?b then _ else _) = true |- _ =>
      revert H; destruct (Z.eqb_spec a b); intros H
  | H : _ = false |- _ => clear H
  end.

(** Strict decoding only ever yields scalar values. *)
Lemma utf8_decode_scalar : forall n bs s,
  (length bs <= n)%nat -> utf8_decode bs = Some s -> Forall scalar_value s.
Proof.
  induction n as [|n IH]; intros bs s Hlen.
  - destruct bs; [|simpl in Hlen; lia]. intros [= <-]. constructor.
  - destruct bs as [|b0 t0]; [intros [= <-]; constructor|].
    simpl in Hlen. cbn [utf8_decode].
    destruct ((0 <=? b0) && (b0 <? 128)) eqn:H1.
    { destruct (utf8_decode t0) as [s'|] eqn:E; [|discriminate].
      intros [= <-]. constructor; [|apply (IH t0); [lia|exact E]].
      unfold scalar_value. tests_to_facts. lia. }
    destruct ((194 <=? b0) && (b0 <=? 223)) eqn:H2.
    { destruct t0 as [|b1 t1]; [discriminate|].
      destruct (is_cont b1) eqn:C1; [|discriminate].
      destruct (utf8_decode t1) as [s'|] eqn:E; [|discriminate].
      intros [= <-]. simpl in Hlen.
      constructor; [|apply (IH t1); [lia|exact E]].
      unfold scalar_value, is_cont in *. tests_to_facts. lia. }
    destruct ((224 <=? b0) && (b0 <=? 239)) eqn:H3.
    { destruct t0 as [|b1 [|b2 t2]]; [discriminate|discriminate|].
      destruct (second_ok b0 b1 && is_cont b2) eqn:C; [|discriminate].
      destruct (utf8_decode t2) as [s'|] eqn:E; [|discriminate].
      intros [= <-]. simpl in Hlen.
      constructor; [|apply (IH t2); [lia|exact E]].
      unfold scalar_value, second_ok, is_cont in *.
      tests_to_facts; lia. }
    destruct ((240 <=? b0) && (b0 <=? 244)) eqn:H4; [|discriminate].
    destruct t0 as [|b1 [|b2 [|b3 t3]]]; [discriminate|discriminate|discriminate|].
    destruct (second_ok b0 b1 && is_cont b2 && is_cont b3) eqn:C; [|discriminate].
    destruct (utf8_decode t3) as [s'|] eqn:E; [|discriminate].
    intros [= <-]. simpl in Hlen.
    constructor; [|apply (IH t3); [lia|exact E]].
    unfold scalar_value, second_ok, is_cont in *.
    tests_to_facts; lia.
Qed.

Lemma latin1_decode_scalar bs :
  Forall is_byte bs -> Forall scalar_value (latin1_decode bs).
Proof.
  unfold latin1_decode. intros H. eapply Forall_impl; [exact H|].
  unfold is_byte, scalar_value. intros b Hb. simpl in Hb. lia.
Qed.

(** ** Byte-window splitting *)

Lemma len_slice_clamp {A} (s : list A) a b :
  0 <= a <= len s -> a <= b -> len (slice s a b) = Z.min b (len s) - a.
Proof.
  intros Ha Hb. unfold slice, adjust_index.
  destruct (Z.ltb_spec a 0), (Z.ltb_spec b 0); try lia.
  unfold len in *. rewrite length_take, length_drop. lia.
Qed.

Lemma Forall_slice {A} (P : A -> Prop) (s : list A) a b :
  Forall P s -> Forall P (slice s a b).
Proof.
  intros H. unfold slice. apply Forall_take, Forall_drop. exact H.
Qed.

Lemma shrink_window_spec encoded cursor : forall k,
  match shrink_window encoded cursor k with
  | Some (chunk, cursor') =>
      exists j, 1 <= j <= Z.of_nat k /\ cursor' = cursor + j
        /\ utf8_decode (slice encoded cursor (cursor + j)) = Some chunk
        /\ forall j', j < j' <= Z.of_nat k ->
             utf8_decode (slice encoded cursor (cursor + j')) = None
  | None =>
      forall j, 1 <= j <= Z.of_nat k ->
        utf8_decode (slice encoded cursor (cursor + j)) = None
  end.
Proof.
  induction k as [|k IH]; [simpl; intros; lia|].
  cbn [shrink_window].
  destruct (utf8_decode (slice encoded cursor (cursor + Z.of_nat (S k))))
    as [chunk|] eqn:E.
  - exists (Z.of_nat (S k)).
    split; [lia|]. split; [reflexivity|]. split; [exact E|]. intros; lia.
  - destruct (shrink_window encoded cursor k) as [[chunk c']|].
    + destruct IH as (j & Hj & -> & Hdec & Hmax).
      exists j. split; [lia|]. split; [reflexivity|]. split; [exact Hdec|].
      intros j' Hj'. destruct (Z.eq_dec j' (Z.of_nat (S k))) as [->|];
        [exact E|apply Hmax; lia].
    + intros j Hj. destruct (Z.eq_dec j (Z.of_nat (S k))) as [->|];
        [exact E|apply IH; lia].
Qed.

Section ByteWindows.
Variable encoded : list Z.
Variable limit : Z.
Hypothesis limit_pos : 1 <= limit.
Hypothesis encoded_bytes : Forall is_byte encoded.

(** Every window yields a well-formed chunk in one of the three ways and
    moves the cursor forward. *)
Lemma bytes_window_spec cursor :
  0 <= cursor < len encoded ->
  window_outcome encoded limit cursor
    (bytes_window encoded limit cursor).1 (bytes_window encoded limit cursor).2
  /\ cursor < (bytes_window encoded limit cursor).2
  /\ Forall scalar_value (bytes_window encoded limit cursor).1.
Proof using limit_pos encoded_bytes.
  intros Hc. unfold bytes_window.
  destruct (utf8_decode (slice encoded cursor (cursor + limit))) as [chunk|] eqn:E.
  - cbn [fst snd]. split; [apply window_whole; exact E|]. split.
    + rewrite len_slice_clamp by lia. lia.
    + eapply utf8_decode_scalar; [reflexivity|exact E].
  - pose proof (shrink_window_spec encoded cursor (Z.to_nat limit)) as Hs.
    destruct (shrink_window encoded cursor (Z.to_nat limit)) as [[chunk c']|].
    + destruct Hs as (j & Hj & -> & Hdec & Hmax). cbn [fst snd].
      split; [|split; [lia|]].
      * apply (window_shrunk _ _ _ j); [exact E|lia|exact Hdec|].
        intros k' Hk'. apply Hmax. lia.
      * eapply utf8_decode_scalar; [reflexivity|exact Hdec].
    + cbn [fst snd]. split; [|split; [lia|]].
      * apply window_lossy. intros k Hk. apply Hs. lia.
      * apply latin1_decode_scalar, Forall_slice, encoded_bytes.
Qed.

Lemma bytes_loop_spec : forall fuel cursor,
  0 <= cursor -> len encoded - cursor <= Z.of_nat fuel ->
  exists chunks,
    bytes_loop fuel encoded limit cursor = Some chunks
    /\ windows encoded limit cursor chunks
    /\ Forall (Forall scalar_value) chunks.
Proof using limit_pos encoded_bytes.
  induction fuel as [|fuel IH]; intros c Hc Hfuel; cbn [bytes_loop].
  - destruct (Z.ltb_spec c (len encoded)); [lia|].
    exists []. repeat split; [apply windows_done; lia|constructor].
  - destruct (Z.ltb_spec c (len encoded)) as [Hlt|Hge].
    + destruct (bytes_window_spec c ltac:(lia)) as (Hout & Hadv & Hwf).
      destruct (bytes_window encoded limit c) as [chunk c'] eqn:Hw.
      cbn [fst snd] in *.
      destruct (IH c' ltac:(lia) ltac:(lia)) as (rest & -> & Hrest & Hall).
      exists (chunk :: rest). repeat split.
      * eapply windows_next; eassumption.
      * constructor; assumption.
    + exists []. repeat split; [apply windows_done; lia|constructor].
Qed.

End ByteWindows.

(** C9.  For every payload (a string of Unicode scalar values, as
    [read_text] hands it to [split_html]) and every positive byte limit,
    [_split_by_bytes] returns: it raises nothing and does not run
    forever.  Every chunk it returns is a well-formed string.  When the
    payload does not fit in one window, each chunk comes from a window of
    the encoded payload that decoded as it was, or was shrunk to its
    longest decodable prefix, or -- no prefix down to one byte being
    decodable -- was decoded lossily. *)
Theorem split_by_bytes_never_raises (payload : pystr) (limit : Z) :
  Forall scalar_value payload -> 0 < limit ->
  exists chunks encoded,
    _split_by_bytes payload limit = Returns chunks
    /\ utf8_encode payload = Some encoded
    /\ chunks <> []
    /\ Forall (Forall scalar_value) chunks
    /\ (len encoded <= limit /\ chunks = [payload]
        \/ limit < len encoded /\ windows encoded limit 0 chunks).
Proof.
  intros Hwf Hlimit. unfold _split_by_bytes.
  destruct (Z.leb_spec limit 0); [lia|].
  destruct (utf8_encode_scalar payload Hwf) as (encoded & -> & Hbytes).
  destruct (Z.leb_spec (len encoded) limit) as [Hfit|Hbig].
  - exists [payload], encoded. repeat split; [discriminate| |left; split; [lia|reflexivity]].
    constructor; [assumption|constructor].
  - destruct (bytes_loop_spec encoded limit ltac:(lia) Hbytes (length encoded) 0
                ltac:(lia) ltac:(unfold len; lia))
      as (chunks & Hrun & Hwin & Hall).
    exists chunks, encoded. rewrite Hrun. repeat split.
    + inversion Hwin; subst; [lia|discriminate].
    + exact Hall.
    + right. split; [lia|exact Hwin].
Qed.

Lemma split_by_bytes_never_raises_witness :
  exists chunks encoded,
    _split_by_bytes [97; 233; 8364; 98] 2 = Returns chunks
    /\ utf8_encode [97; 233; 8364; 98] = Some encoded
    /\ chunks <> []
    /\ Forall (Forall scalar_value) chunks
    /\ (len encoded <= 2 /\ chunks = [[97; 233; 8364; 98]]
        \/ 2 < len encoded /\ windows encoded 2 0 chunks).
Proof.
  apply (split_by_bytes_never_raises [97; 233; 8364; 98] 2); [|lia].
  repeat constructor; unfold scalar_value; lia.
Defined.

(** ** The idempotent writer *)

Section ChecksumFacts.
Context {H : Hasher}.

Lemma block_size_pos : (0 < block_size)%nat.
Proof. unfold block_size. lia. Qed.

Opaque block_size.

Lemma read_blocks_concat : forall fuel data,
  (length data <= fuel)%nat -> concat (read_blocks fuel data) = data.
Proof.
  induction fuel as [|fuel IH]; intros data Hlen.
  - destruct data; [reflexivity|simpl in Hlen; lia].
  - destruct data as [|b data]; [reflexivity|].
    cbn [read_blocks concat]. rewrite IH.
    + apply take_drop.
    + pose proof block_size_pos. rewrite length_drop.
      cbn [length] in *. lia.
Qed.

Lemma fold_update_concat : forall blocks d,
  fold_left sha256_update blocks d = sha256_update d (concat blocks).
Proof.
  induction blocks as [|b blocks IH]; intros d; simpl.
  - symmetry. apply sha256_update_nil.
  - rewrite IH. apply sha256_update_app.
Qed.

(** Hashing a file block by block gives the hash of its content. *)
Lemma sha256_file_present p f st :
  files st !! p = Some f -> f_readable f = true ->
  sha256_file p st = (Returns (Some (sha256_bytes (f_data f))), st).
Proof.
  intros Hp Hr. unfold sha256_file, bind, path_exists, read, ret.
  rewrite Hp, bool_decide_eq_true_2 by eauto. simpl. rewrite Hp, Hr.
  rewrite fold_update_concat, read_blocks_concat by reflexivity.
  reflexivity.
Qed.

Lemma sha256_file_unreadable p f st :
  files st !! p = Some f -> f_readable f = false ->
  sha256_file p st = (Raises OSError, st).
Proof.
  intros Hp Hr. unfold sha256_file, bind, path_exists, read, ret.
  rewrite Hp, bool_decide_eq_true_2 by eauto. simpl. rewrite Hp, Hr.
  reflexivity.
Qed.

Lemma sha256_file_absent p st :
  files st !! p = None -> sha256_file p st = (Returns None, st).
Proof.
  intros Hp. unfold sha256_file, bind, path_exists, ret.
  rewrite bool_decide_eq_false_2; [reflexivity|].
  rewrite Hp. intros [? ?]. discriminate.
Qed.

(** [write_if_changed] as a function of the file found at [p]. *)
Lemma write_if_changed_eq p data st :
  write_if_changed p data st =
  match files st !! p with
  | Some f =>
      if f_readable f then
        if decide (sha256_bytes (f_data f) = sha256_bytes data)
        then (Returns false, st)
        else (Returns true, written p data st)
      else (Raises OSError, st)
  | None => (Returns true, written p data st)
  end.
Proof.
  unfold write_if_changed. unfold bind at 1.
  destruct (files st !! p) as [f|] eqn:Hp.
  - destruct (f_readable f) eqn:Hr.
    + rewrite (sha256_file_present p f st Hp Hr).
      destruct (decide (sha256_bytes (f_data f) = sha256_bytes data)) as [Heq|Hne].
      * rewrite Heq. rewrite decide_True by reflexivity. reflexivity.
      * rewrite decide_False by congruence.
        unfold bind, mkdir, emit, write, ret, written. simpl. rewrite Hp.
        reflexivity.
    + rewrite (sha256_file_unreadable p f st Hp Hr). reflexivity.
  - rewrite (sha256_file_absent p st Hp).
    rewrite decide_False by discriminate.
    unfold bind, mkdir, emit, write, ret, written. simpl. rewrite Hp.
    reflexivity.
Qed.

Lemma lookup_written p data st :
  files (written p data st) !! p
  = Some {| f_data := data; f_mtime := clock st;
            f_readable := match files st !! p with
                          | Some f => f_readable f
                          | None => true
                          end |}.
Proof. unfold written. simpl. apply lookup_insert_eq. Qed.

Lemma lookup_written_ne p q data st :
  p <> q -> files (written p data st) !! q = files st !! q.
Proof. intros Hne. unfold written. simpl. apply lookup_insert_ne. exact Hne. Qed.

(** The second of two calls in a row finds the hash it expects. *)
Lemma write_if_changed_again p data st :
  write_if_changed p data (write_if_changed p data st).2
  = (match (write_if_changed p data st).1 with
     | Returns _ => Returns false
     | r => r
     end, (write_if_changed p data st).2).
Proof.
  rewrite (write_if_changed_eq p data st).
  destruct (files st !! p) as [f|] eqn:Hp.
  - destruct (f_readable f) eqn:Hr.
    + destruct (decide (sha256_bytes (f_data f) = sha256_bytes data)) as [Heq|Hne];
        cbn [fst snd].
      * rewrite (write_if_changed_eq p data st), Hp, Hr, decide_True by exact Heq.
        reflexivity.
      * rewrite (write_if_changed_eq p data (written p data st)), lookup_written.
        rewrite Hp. cbn [f_readable f_data]. rewrite Hr, decide_True by reflexivity.
        reflexivity.
    + cbn [fst snd]. rewrite (write_if_changed_eq p data st), Hp, Hr. reflexivity.
  - cbn [fst snd].
    rewrite (write_if_changed_eq p data (written p data st)), lookup_written.
    rewrite Hp. cbn [f_readable f_data]. rewrite decide_True by reflexivity.
    reflexivity.
Qed.

End ChecksumFacts.

(** C3.  [write_if_changed] is idempotent.  Take any file system, path
    and payload and call it twice in a row with the same bytes: the
    second call leaves the state exactly as the first call left it (so
    the file at [path] has the same content and the same modification
    time after the second call as after the first); when the first call
    returns, the second returns [False]; over both calls the file is
    written at most once; and the first call does return unless the file
    exists and cannot be opened for reading. *)
Theorem write_if_changed_idempotent {H : Hasher}
    (p : path) (data : list Z) (st : state) :
  let first := write_if_changed p data st in
  let second := write_if_changed p data first.2 in
  second.2 = first.2
  /\ f_mtime <$> (files second.2 !! p) = f_mtime <$> (files first.2 !! p)
  /\ (forall changed, first.1 = Returns changed -> second.1 = Returns false)
  /\ (trace second.2 = trace st
      \/ trace second.2 = (trace st ++ [Mkdir p.1]) ++ [Wrote p])
  /\ ((forall f, files st !! p = Some f -> f_readable f = true) ->
      exists changed, first.1 = Returns changed).
Proof.
  intros first second. subst first second.
  rewrite write_if_changed_again. cbn [fst snd].
  split; [reflexivity|]. split; [reflexivity|].
  split; [intros changed ->; reflexivity|].
  rewrite (write_if_changed_eq p data st).
  destruct (files st !! p) as [f|] eqn:Hp.
  - destruct (f_readable f) eqn:Hr.
    + destruct (decide (sha256_bytes (f_data f) = sha256_bytes data));
        cbn [fst snd]; split; eauto.
    + cbn [fst snd]. split; [left; reflexivity|].
      intros Hall. specialize (Hall f eq_refl). congruence.
  - cbn [fst snd]. split; eauto.
Qed.

Lemma write_if_changed_idempotent_witness :
  let st := {| files := ∅; clock := 7; trace := [] |} in
  let p : path := ([111; 117; 116], [97; 46; 116; 120; 116]) in
  let first := @write_if_changed identity_hasher p [104; 105] st in
  let second := @write_if_changed identity_hasher p [104; 105] first.2 in
  first.1 = Returns true /\ second.1 = Returns false
  /\ second.2 = first.2
  /\ f_mtime <$> (files second.2 !! p) = f_mtime <$> (files first.2 !! p).
Proof.
  intros st p first second.
  destruct (@write_if_changed_idempotent identity_hasher p [104; 105] st)
    as (Hsame & Hmtime & Hfalse & _ & _).
  split; [reflexivity|]. split; [apply (Hfalse true); reflexivity|].
  split; [exact Hsame|exact Hmtime].
Defined.

(** ** Chunk writers *)

Lemma str_of_int_inj i j :
  0 <= i -> 0 <= j -> str_of_int i = str_of_int j -> i = j.
Proof.
  intros Hi Hj Heq.
  destruct (str_of_int_spec i Hi) as (_ & _ & Hvi).
  destruct (str_of_int_spec j Hj) as (_ & _ & Hvj).
  rewrite Heq in Hvi. congruence.
Qed.

(** Distinct part numbers give distinct chunk names. *)
Lemma chunk_file_name_inj base i j total ext :
  0 <= i -> 0 <= j ->
  chunk_file_name base i total ext = chunk_file_name base j total ext ->
  i = j.
Proof.
  intros Hi Hj. unfold chunk_file_name. intros Heq.
  apply app_inv_head in Heq. apply app_inv_head in Heq.
  apply app_inv_tail in Heq. apply str_of_int_inj; assumption.
Qed.

Section WriterFacts.
Context {H : Hasher}.



End WriterFacts.

Lemma write_chunks_from_cons dest base ext total kind payload rest index st :
  write_chunks_from dest base ext total index (payload :: rest)
    (Some (fun p => print (ChunkWritten kind p))) st
  = match write_chunks_from dest base ext total (index + 1) rest
            (Some (fun p => print (ChunkWritten kind p)))
            (after_chunk_write
               (dest, chunk_file_name base index total ext) payload kind st)
    with
    | (Returns paths, st') =>
        (Returns ((dest, chunk_file_name base index total ext) :: paths), st')
    | (Raises e, st') => (Raises e, st')
    | (Diverges, st') => (Diverges, st')
    end.
Proof. reflexivity. Qed.

(** It writes every payload, in order, each at the tick the clock shows,
    and touches no other file. *)
Lemma write_chunks_from_clock dest base ext total kind :
  forall payloads index st,
  (exists paths,
     (write_chunks_from dest base ext total index payloads
        (Some (fun p => print (ChunkWritten kind p))) st).1 = Returns paths)
  /\ clock (write_chunks_from dest base ext total index payloads
              (Some (fun p => print (ChunkWritten kind p))) st).2
     = clock st + len payloads
  /\ forall q, (forall j, (j < length payloads)%nat ->
                  q <> (dest, chunk_file_name base (index + Z.of_nat j) total ext)) ->
       files (write_chunks_from dest base ext total index payloads
                (Some (fun p => print (ChunkWritten kind p))) st).2 !! q
       = files st !! q.
Proof.
  induction payloads as [|payload rest IH]; intros index st.
  - cbn. split; [eauto|]. split; [unfold len; simpl; lia|reflexivity].
  - rewrite write_chunks_from_cons.
    specialize (IH (index + 1)
                  (after_chunk_write (dest, chunk_file_name base index total ext)
                     payload kind st)).
    destruct (write_chunks_from dest base ext total (index + 1) rest _ _)
      as [[paths|e|] st3]; cbn [fst snd] in *;
      destruct IH as ([paths' Hret] & Hclock & Hframe); try discriminate.
    split; [eauto|]. split.
    + cbn [clock after_chunk_write] in Hclock. unfold len in *.
      cbn [length] in *. lia.
    + intros q Hq. rewrite Hframe.
      * cbn [files after_chunk_write]. apply lookup_insert_ne.
        specialize (Hq O ltac:(simpl; lia)). rewrite Z.add_0_r in Hq. congruence.
      * intros j Hj. specialize (Hq (S j) ltac:(simpl; lia)).
        replace (index + 1 + Z.of_nat j) with (index + Z.of_nat (S j)) by lia.
        exact Hq.
Qed.

Lemma write_chunks_from_rewrites dest base ext total kind :
  forall payloads index st j payload,
  0 <= index ->
  payloads !! j = Some payload ->
  exists f,
    files (write_chunks_from dest base ext total index payloads
             (Some (fun p => print (ChunkWritten kind p))) st).2
      !! (dest, chunk_file_name base (index + Z.of_nat j) total ext) = Some f
    /\ f_data f = payload /\ clock st <= f_mtime f.
Proof.
  induction payloads as [|first rest IH]; intros index st j payload Hindex Hj;
    [discriminate|].
  rewrite write_chunks_from_cons.
  set (st2 := after_chunk_write (dest, chunk_file_name base index total ext)
                first kind st).
  pose proof (write_chunks_from_clock dest base ext total kind rest (index + 1) st2)
    as ([paths Hret] & _ & Hframe).
  destruct j as [|j].
  - injection Hj as ->. rewrite Z.add_0_r.
    specialize (Hframe (dest, chunk_file_name base index total ext)).
    destruct (write_chunks_from dest base ext total (index + 1) rest _ st2)
      as [[paths'|e|] st3]; cbn [fst snd] in *; try discriminate.
    rewrite Hframe.
    + subst st2. cbn [files after_chunk_write]. rewrite lookup_insert_eq.
      eexists. split; [reflexivity|]. cbn. split; [reflexivity|lia].
    + intros k _ [= Heq]. apply chunk_file_name_inj in Heq; lia.
  - specialize (IH (index + 1) st2 j payload ltac:(lia) Hj).
    destruct IH as (f & Hf & Hdata & Hmtime).
    destruct (write_chunks_from dest base ext total (index + 1) rest _ st2)
      as [[paths'|e|] st3]; cbn [fst snd] in *; try discriminate.
    replace (index + Z.of_nat (S j)) with (index + 1 + Z.of_nat j) by lia.
    exists f. split; [exact Hf|]. split; [exact Hdata|].
    subst st2. cbn [clock after_chunk_write] in Hmtime. lia.
Qed.




(** ** Empty payloads *)

(** Whenever the newline splitter returns, it returns at least one
    chunk. *)
Lemma split_text_on_newlines_nonempty T L chunks :
  split_text_on_newlines T L = Some chunks -> chunks <> [].
Proof.
  unfold split_text_on_newlines. destruct T as [|c T].
  - intros [= <-]. discriminate.
  - destruct (length (c :: T)) eqn:Hlen; [discriminate|].
    cbn [split_loop].
    destruct (Z.ltb_spec 0 (len (c :: T))) as [_|Hge];
      [|unfold len in Hge; simpl in Hge; lia].
    destruct (split_loop _ _ _ _); [|discriminate].
    intros [= <-]. discriminate.
Qed.

Section EmptyPayload.
Context {H : Hasher} {J : JsonCodec} {P : HtmlParser} {D : PdfCodec}.

Lemma _write_chunks_nil p ext st :
  _write_chunks p ext [] st = single_chunk (only_part p ext) [] st.
Proof.
  unfold _write_chunks, single_chunk, only_part. cbn [_write_chunks_from].
  unfold bind. destruct (write_if_changed _ [] st) as [[changed|e|] st1];
    reflexivity.
Qed.

Lemma _write_chunks_empty_payload p ext st :
  _write_chunks p ext [[]] st = single_chunk (only_part p ext) [] st.
Proof.
  unfold _write_chunks, single_chunk, only_part. cbn [_write_chunks_from].
  unfold bind. destruct (write_if_changed _ [] st) as [[changed|e|] st1];
    reflexivity.
Qed.

(** The paths [_write_chunks] returns are numbered [index ..] of
    [total]. *)
Lemma _write_chunks_from_paths dest base ext total :
  forall payloads index st paths,
  (_write_chunks_from dest base ext total index payloads st).1 = Returns paths ->
  paths = map (fun j => (dest, chunk_file_name base (index + Z.of_nat j) total ext))
              (seq 0 (length payloads)).
Proof.
  induction payloads as [|payload rest IH]; intros index st paths.
  - cbn. intros [= <-]. reflexivity.
  - cbn [_write_chunks_from]. unfold bind at 1.
    destruct (write_if_changed _ payload st) as [[changed|e|] st1];
      cbn [fst snd]; try discriminate.
    unfold bind at 1, print, emit at 1. cbn [fst snd]. unfold bind at 1.
    match goal with
    | |- context [_write_chunks_from _ _ _ _ _ rest ?st2] =>
        specialize (IH (index + 1) st2)
    end.
    destruct (_write_chunks_from dest base ext total (index + 1) rest _)
      as [[paths'|e|] st3]; cbn [fst snd] in *; try discriminate.
    unfold ret. cbn [fst snd]. intros [= <-].
    rewrite (IH paths' eq_refl). cbn [length seq map].
    rewrite Z.add_0_r. f_equal.
    rewrite <- seq_shift, List.map_map. apply map_ext. intros j.
    do 2 f_equal. lia.
Qed.

End EmptyPayload.

(** ** The orchestrator *)

Section FanoutFacts.
Context {U : UnicodeDigits} {J : JsonCodec} {C : FanoutCollaborators}.

Lemma resolve_payload_eq payload aggregate st :
  resolve_payload payload aggregate st =
  (match payload with
   | Some _ => Returns payload
   | None =>
       match files st !! aggregate with
       | None => Returns None
       | Some f =>
           if f_readable f then Returns (Some (f_data f)) else Raises OSError
       end
   end, st).
Proof.
  unfold resolve_payload. destruct payload; [reflexivity|].
  unfold bind, path_exists, read, ret.
  destruct (files st !! aggregate) as [f|] eqn:Hf.
  - rewrite bool_decide_eq_true_2 by eauto. rewrite Hf.
    destruct (f_readable f); reflexivity.
  - rewrite bool_decide_eq_false_2; [reflexivity|]. intros [? ?]. discriminate.
Qed.

Lemma for_each_mkdir dirs : forall st,
  for_each dirs mkdir st = (Returns tt, after_mkdirs dirs st).
Proof.
  unfold after_mkdirs.
  induction dirs as [|d dirs IH]; intros st; cbn [for_each map].
  - unfold ret. rewrite app_nil_r. destruct st; reflexivity.
  - unfold bind, mkdir, emit. rewrite IH. cbn [files clock trace].
    rewrite <- app_assoc. reflexivity.
Qed.

(** The orchestrator, step by step: the directories, the two
    resolutions, then either the warning or the three stages. *)
Lemma fan_out_artifacts_eq dataset_name html_payload markdown_payload
    html_dir markdown_dir text_dir json_dir pdf_dir chunk_char_limit
    overwrite source_url base_name st :
  fan_out_artifacts dataset_name html_payload markdown_payload html_dir
    markdown_dir text_dir json_dir pdf_dir chunk_char_limit overwrite
    source_url base_name st
  = let st0 := after_mkdirs [html_dir; markdown_dir; text_dir; json_dir; pdf_dir]
                 st in
    match (resolve_payload html_payload (html_dir, base_name ++ lit ".html") st0).1
    with
    | Returns h =>
        match (resolve_payload markdown_payload
                 (markdown_dir, base_name ++ lit ".md") st0).1 with
        | Returns m =>
            match h, m with
            | Some aggregate_html, Some aggregate_markdown =>
                run_stages dataset_name aggregate_html aggregate_markdown
                  html_dir markdown_dir text_dir json_dir pdf_dir
                  chunk_char_limit overwrite source_url base_name st0
            | _, _ => print (UnableToLocateAggregate dataset_name) st0
            end
        | Raises e => (Raises e, st0)
        | Diverges => (Diverges, st0)
        end
    | Raises e => (Raises e, st0)
    | Diverges => (Diverges, st0)
    end.
Proof.
  unfold fan_out_artifacts. unfold bind at 1. rewrite for_each_mkdir.
  cbv zeta. unfold bind at 1. rewrite !resolve_payload_eq. cbn [fst snd].
  set (st0 := after_mkdirs _ st).
  destruct html_payload as [h|].
  - unfold bind at 1. rewrite resolve_payload_eq.
    destruct markdown_payload as [m|]; [reflexivity|].
    destruct (files st0 !! (markdown_dir, base_name ++ lit ".md")) as [f|];
      [|reflexivity].
    destruct (f_readable f); reflexivity.
  - destruct (files st0 !! (html_dir, base_name ++ lit ".html")) as [g|].
    + destruct (f_readable g); [|reflexivity].
      unfold bind at 1. rewrite resolve_payload_eq.
      destruct markdown_payload as [m|]; [reflexivity|].
      destruct (files st0 !! (markdown_dir, base_name ++ lit ".md")) as [f|];
        [|reflexivity].
      destruct (f_readable f); reflexivity.
    + unfold bind at 1. rewrite resolve_payload_eq.
      destruct markdown_payload as [m|]; [reflexivity|].
      destruct (files st0 !! (markdown_dir, base_name ++ lit ".md")) as [f|];
        [|reflexivity].
      destruct (f_readable f); reflexivity.
Qed.

(** A stage whose aggregate is on disk is skipped when [overwrite] is
    off: its generator is not run at all. *)
Lemma stage_skipped aggregate generate kind st :
  is_Some (files st !! aggregate) ->
  stage false aggregate generate kind st = print (Skipping kind) st.
Proof.
  intros Hex. unfold stage, bind, path_exists.
  rewrite bool_decide_eq_true_2 by exact Hex. reflexivity.
Qed.

Lemma file_events_app evs evs' :
  file_events (evs ++ evs') = file_events evs ++ file_events evs'.
Proof.
  induction evs as [|e evs IH]; [reflexivity|].
  destruct e; simpl; rewrite IH; reflexivity.
Qed.

Lemma file_events_mkdirs dirs : file_events (map Mkdir dirs) = [].
Proof. induction dirs; [reflexivity|exact IHdirs]. Qed.

End FanoutFacts.




(** C6.  The orchestrator runs its three stages in order, each guarded
    in the same way; a stage whose aggregate file is on disk is skipped
    entirely when [overwrite] is off (its generator is not run, one line
    is printed).  Hence a call with [overwrite = False] on a document
    whose text, JSON and PDF aggregates all exist writes and deletes no
    file; with both payloads at hand, all it does is to make sure the
    directories exist and to report the three skips. *)
Theorem fan_out_skips_existing
    {U : UnicodeDigits} {J : JsonCodec} {C : FanoutCollaborators}
    dataset_name html_dir markdown_dir text_dir json_dir pdf_dir
    chunk_char_limit source_url base_name :
  (forall overwrite aggregate_html aggregate_markdown st,
     fan_out_artifacts dataset_name (Some aggregate_html)
       (Some aggregate_markdown) html_dir markdown_dir text_dir json_dir
       pdf_dir chunk_char_limit overwrite source_url base_name st
     = run_stages dataset_name aggregate_html aggregate_markdown html_dir
         markdown_dir text_dir json_dir pdf_dir chunk_char_limit overwrite
         source_url base_name
         (after_mkdirs [html_dir; markdown_dir; text_dir; json_dir; pdf_dir] st))
  /\ (forall aggregate generate kind st,
        is_Some (files st !! aggregate) ->
        stage false aggregate generate kind st = print (Skipping kind) st)
  /\ (forall html_payload markdown_payload st,
        is_Some (files st !! (text_dir, base_name ++ lit ".text")) ->
        is_Some (files st !! (json_dir, base_name ++ lit ".json")) ->
        is_Some (files st !! (pdf_dir, base_name ++ lit ".pdf")) ->
        let r := fan_out_artifacts dataset_name html_payload markdown_payload
                   html_dir markdown_dir text_dir json_dir pdf_dir
                   chunk_char_limit false source_url base_name st in
        files r.2 = files st /\ clock r.2 = clock st
        /\ file_events (trace r.2) = file_events (trace st)
        /\ (is_Some html_payload -> is_Some markdown_payload ->
            r = (Returns tt,
                 {| files := files st; clock := clock st;
                    trace := trace st
                             ++ map Mkdir [html_dir; markdown_dir; text_dir;
                                           json_dir; pdf_dir]
                             ++ [Printed (Skipping (lit "text"));
                                 Printed (Skipping (lit "JSON"));
                                 Printed (Skipping (lit "PDF"))] |}))).
Proof.
  split; [|split].
  - intros overwrite h m st. rewrite fan_out_artifacts_eq. reflexivity.
  - apply @stage_skipped.
  - intros html_payload markdown_payload st Htext Hjson Hpdf r. subst r.
    rewrite fan_out_artifacts_eq. cbv zeta.
    set (dirs := [html_dir; markdown_dir; text_dir; json_dir; pdf_dir]).
    set (st0 := after_mkdirs dirs st).
    assert (Hstages : forall h m,
              run_stages dataset_name h m html_dir markdown_dir text_dir
                json_dir pdf_dir chunk_char_limit false source_url base_name st0
              = (Returns tt,
                 {| files := files st; clock := clock st;
                    trace := trace st ++ map Mkdir dirs
                             ++ [Printed (Skipping (lit "text"));
                                 Printed (Skipping (lit "JSON"));
                                 Printed (Skipping (lit "PDF"))] |})).
    { intros h m. unfold run_stages.
      unfold bind at 1. rewrite stage_skipped by exact Htext.
      unfold print at 1, emit at 1. cbv beta iota.
      unfold bind at 1. rewrite stage_skipped by exact Hjson.
      unfold print at 1, emit at 1. cbv beta iota.
      rewrite stage_skipped by exact Hpdf.
      unfold print, emit. cbn [files clock trace st0 after_mkdirs].
      rewrite <- !app_assoc. reflexivity. }
    assert (Hquiet : forall (o : outcome unit) evs,
              file_events evs = [] ->
              files (o, {| files := files st; clock := clock st;
                           trace := trace st ++ map Mkdir dirs ++ evs |}).2
              = files st
              /\ clock (o, {| files := files st; clock := clock st;
                              trace := trace st ++ map Mkdir dirs ++ evs |}).2
                 = clock st
              /\ file_events
                   (trace (o, {| files := files st; clock := clock st;
                                 trace := trace st ++ map Mkdir dirs ++ evs |}).2)
                 = file_events (trace st)).
    { intros o evs Hevs. cbn [fst snd files clock trace].
      rewrite !file_events_app, file_events_mkdirs, Hevs, !app_nil_r. auto. }
    assert (Hst0 : forall o : outcome unit,
              (o, st0) = (o, {| files := files st; clock := clock st;
                                trace := trace st ++ map Mkdir dirs ++ [] |})).
    { intros o. unfold st0, after_mkdirs. rewrite app_nil_r. reflexivity. }
    assert (Hwarn : print (UnableToLocateAggregate dataset_name) st0
                    = (Returns tt,
                       {| files := files st; clock := clock st;
                          trace := trace st ++ map Mkdir dirs
                                   ++ [Printed (UnableToLocateAggregate dataset_name)] |})).
    { unfold print, emit, st0, after_mkdirs. cbn [files clock trace].
      rewrite <- app_assoc. reflexivity. }
    rewrite !resolve_payload_eq. cbn [fst snd].
    destruct html_payload as [h|]; destruct markdown_payload as [m|];
      repeat match goal with
             | |- context [files st0 !! ?p] =>
                 destruct (files st0 !! p) as [?f|]
             end;
      repeat match goal with
             | |- context [f_readable ?f] => destruct (f_readable f)
             end;
      rewrite ?Hstages, ?Hwarn, ?Hst0;
      (split; [apply Hquiet; reflexivity|]);
      (split; [apply Hquiet; reflexivity|]);
      (split; [apply Hquiet; reflexivity|]);
      intros [h' Hh'] [m' Hm']; try discriminate; reflexivity.
Qed.

Lemma fan_out_skips_existing_witness :
  let st := {| files := {[ ([116], [100; 46; 116; 101; 120; 116]) := File [97] 1 true;
                           ([106], [100; 46; 106; 115; 111; 110]) := File [98] 2 true;
                           ([112], [100; 46; 112; 100; 102]) := File [99] 3 true ]};
               clock := 5; trace := [] |} in
  @fan_out_artifacts ascii_digits toy_json toy_collaborators
    [100] (Some [120]) (Some [121]) [104] [109] [116] [106] [112] 4 false
    None [100] st
  = (Returns tt,
     {| files := files st; clock := 5;
        trace := [Mkdir [104]; Mkdir [109]; Mkdir [116]; Mkdir [106];
                  Mkdir [112]; Printed (Skipping (lit "text"));
                  Printed (Skipping (lit "JSON"));
                  Printed (Skipping (lit "PDF"))] |}).
Proof.
  intros st.
  destruct (@fan_out_skips_existing ascii_digits toy_json toy_collaborators
              [100] [104] [109] [116] [106] [112] 4 None [100])
    as (_ & _ & Hzero).
  apply (Hzero (Some [120]) (Some [121]) st); try (vm_compute; eauto); eauto.
Defined.

(** The single chunk [q] through the idempotent writer, when the file
    at [q], if there is one, can be read. *)
Lemma single_chunk_run {H : Hasher} (q : path) (payload : list Z) (st : state) :
  (forall g, files st !! q = Some g -> f_readable g = true) ->
  yields_one_part (single_chunk q payload) q payload st.
Proof.
  intros Hreadable. unfold yields_one_part, single_chunk. unfold bind at 1.
  rewrite write_if_changed_eq.
  assert (Hwritten :
    exists st',
      (print (ChunkWritten [] q) ;; ret [q]) (written q payload st)
      = (Returns [q], st')
      /\ (exists f', files st' !! q = Some f'
                     /\ sha256_bytes (f_data f') = sha256_bytes payload
                     /\ (f_data f' = payload \/ files st !! q = Some f'))
      /\ (forall q', q' <> q -> files st' !! q' = files st !! q')).
  { eexists. split; [reflexivity|]. cbn [files]. split.
    - eexists. split; [apply lookup_written|]. cbn [f_data]. auto.
    - intros q' Hq'. apply lookup_written_ne. congruence. }
  destruct (files st !! q) as [g|] eqn:Hq; [|exact Hwritten].
  rewrite (Hreadable g eq_refl).
  destruct (decide (sha256_bytes (f_data g) = sha256_bytes payload))
    as [Heq|Hne]; [|exact Hwritten].
  eexists. split; [reflexivity|]. cbn [files]. split.
  - exists g. rewrite Hq. auto.
  - reflexivity.
Qed.

(** C8.  Splitting an empty payload yields exactly one chunk, and that
    chunk is empty, for every limit.  The newline splitter, the
    character and byte window splitters and the node splitter return the
    one-element list of the empty string.  The file splitters, on an
    empty source (for [split_json] a document with no items, for
    [split_pdf] one with no pages), return the single path
    [<stem>_part_1_of_1<ext>], and that file is then on disk with empty
    content -- written now or, if a file with the digest of the empty
    content was already there, left as it was by the idempotent writer;
    no other file changes.  (A file already at that path that cannot be
    read makes the writer raise, hence the hypothesis.)  No splitter
    ever produces an empty chunk list or a part count of zero: the
    newline splitter returns at least one chunk whenever it returns, and
    [_write_chunks] returns at least one path, each numbered [i] of [n]
    with [1 <= i <= n]. *)
Theorem empty_payload_one_chunk
    {H : Hasher} {J : JsonCodec} {P : HtmlParser} {D : PdfCodec} :
  (forall L,
     split_text_on_newlines [] L = Some [[]]
     /\ _split_text [] L = Returns [[]]
     /\ _split_by_bytes [] L = Returns [[]]
     /\ _split_html_by_nodes [] L = Returns [[]])
  /\ (forall (p : path) st f max_bytes max_nodes max_chars,
        files st !! p = Some f -> f_readable f = true -> f_data f = [] ->
        (forall ext g, files st !! only_part p ext = Some g ->
                       f_readable g = true) ->
        yields_one_part (split_html p max_bytes max_nodes)
          (only_part p (lit ".html")) [] st
        /\ yields_one_part (split_md p max_chars)
             (only_part p (lit ".md")) [] st
        /\ yields_one_part (split_txt p max_chars)
             (only_part p (lit ".txt")) [] st)
  /\ (forall (p : path) st f data max_items max_bytes,
        files st !! p = Some f -> f_readable f = true ->
        plain_text (f_data f) ->
        json_loads (f_data f) = Some data -> json_items data = Returns [] ->
        (forall g, files st !! only_part p (lit ".json") = Some g ->
                   f_readable g = true) ->
        yields_one_part (split_json p max_items max_bytes)
          (only_part p (lit ".json")) [] st)
  /\ (forall (p : path) st f max_pages,
        files st !! p = Some f -> f_readable f = true ->
        pdf_pages (f_data f) = Some [] ->
        (forall g, files st !! only_part p (lit ".pdf") = Some g ->
                   f_readable g = true) ->
        yields_one_part (split_pdf p max_pages)
          (only_part p (lit ".pdf")) [] st)
  /\ (forall T L chunks,
        split_text_on_newlines T L = Some chunks -> 1 <= len chunks)
  /\ (forall (p : path) ext payload_list st paths,
        (_write_chunks p ext payload_list st).1 = Returns paths ->
        paths <> []
        /\ forall q, In q paths ->
             exists i n, 1 <= i <= n
               /\ q = (p.1, chunk_file_name (stem p.2) i n ext)).
Proof.
  assert (Htext : forall L, _split_text [] L = Returns [[]]).
  { intros L. unfold _split_text. change (len (@nil Z)) with 0.
    destruct (Z.leb_spec L 0), (Z.leb_spec 0 L); try lia; reflexivity. }
  assert (Hbytes : forall L, _split_by_bytes [] L = Returns [[]]).
  { intros L. unfold _split_by_bytes. cbn [utf8_encode].
    change (len (@nil Z)) with 0.
    destruct (Z.leb_spec L 0), (Z.leb_spec 0 L); try lia; reflexivity. }
  assert (Hnodes : forall L, _split_html_by_nodes [] L = Returns [[]]).
  { intros L. unfold _split_html_by_nodes. rewrite body_children_empty.
    reflexivity. }
  assert (Hone : forall (m : M (list path)) q st,
            m st = single_chunk q [] st ->
            (forall g, files st !! q = Some g -> f_readable g = true) ->
            yields_one_part m q [] st).
  { intros m q st Heq Hreadable.
    destruct (single_chunk_run q [] st Hreadable) as (st' & Hrun & Hrest).
    exists st'. split; [rewrite Heq; exact Hrun|exact Hrest]. }
  split; [|split; [|split; [|split; [|split]]]].
  - intros L. split; [reflexivity|]. auto.
  - intros p st f max_bytes max_nodes max_chars Hf Hr Hdata Hreadable.
    split; [|split]; (apply Hone; [|apply Hreadable]);
      rewrite <- _write_chunks_empty_payload;
      unfold split_html, split_md, split_txt, bind, read, lift;
      rewrite Hf, Hr, Hdata, ?Htext; [|reflexivity|reflexivity].
    destruct (truthy max_nodes); rewrite ?Hnodes, ?Hbytes; reflexivity.
  - intros p st f data max_items max_bytes Hf Hr _ Hloads Hitems Hreadable.
    apply Hone; [|exact Hreadable].
    rewrite <- _write_chunks_nil.
    unfold split_json, bind, read, lift. rewrite Hf, Hr, Hloads, Hitems.
    reflexivity.
  - intros p st f max_pages Hf Hr Hpages Hreadable.
    apply Hone; [|exact Hreadable].
    rewrite <- _write_chunks_empty_payload.
    unfold split_pdf, bind, read, lift. rewrite Hf, Hr, Hpages.
    reflexivity.
  - intros T L chunks Hsplit.
    pose proof (split_text_on_newlines_nonempty T L chunks Hsplit).
    destruct chunks; [congruence|unfold len; simpl; lia].
  - intros p ext payload_list st paths Hret. unfold _write_chunks in Hret.
    apply _write_chunks_from_paths in Hret.
    set (total := match payload_list with [] => 1 | _ => len payload_list end) in *.
    set (todo := match payload_list with [] => [[]] | _ => payload_list end) in *.
    assert (Htotal : total = len todo /\ (0 < length todo)%nat).
    { subst total todo. destruct payload_list; [split; [reflexivity|simpl; lia]|].
      split; [reflexivity|simpl; lia]. }
    destruct Htotal as [Htotal Hpos]. subst paths. split.
    + destruct (length todo); [lia|discriminate].
    + intros q Hq. apply in_map_iff in Hq as (j & <- & Hj).
      apply in_seq in Hj. exists (1 + Z.of_nat j), total.
      split; [unfold len in Htotal; lia|reflexivity].
Qed.

Lemma empty_payload_one_chunk_witness :
  let p : path := (lit "o", lit "d.json") in
  let q : path := (lit "o", lit "d_part_1_of_1.json") in
  let st := {| files := {[ p := File (lit "[]") 1 true ]};
               clock := 4; trace := [] |} in
  exists st',
    @split_json identity_hasher toy_json p None None st = (Returns [q], st')
    /\ exists f', files st' !! q = Some f' /\ f_data f' = [].
Proof.
  intros p q st.
  destruct (@empty_payload_one_chunk identity_hasher toy_json toy_parser toy_pdf)
    as (_ & _ & Hjson & _).
  destruct (Hjson p st (File (lit "[]") 1 true) (JArray []) None None)
    as (st' & Hrun & (f' & Hf' & _ & Hdata) & _).
  - vm_compute. reflexivity.
  - reflexivity.
  - literal_chars.
  - reflexivity.
  - reflexivity.
  - intros g Hg. vm_compute in Hg. discriminate.
  - exists st'. split; [exact Hrun|]. exists f'. split; [exact Hf'|].
    destruct Hdata as [Hdata|Hold]; [exact Hdata|].
    vm_compute in Hold. discriminate.
Defined.

(** ** The JSON generator *)

Lemma returns_ret {A} (a : A) (Q : A -> Prop) : Q a -> returns (ret a) Q.
Proof. intros Ha st. exists a, st. split; [reflexivity|exact Ha]. Qed.

Lemma returns_bind {A B} (m : M A) (k : A -> M B) Q R :
  returns m Q -> (forall a, Q a -> returns (k a) R) -> returns (bind m k) R.
Proof.
  intros Hm Hk st. destruct (Hm st) as (a & st1 & Em & Ha).
  destruct (Hk a Ha st1) as (b & st2 & Ek & Hb).
  exists b, st2. unfold bind. rewrite Em. split; assumption.
Qed.

Lemma returns_emit e : returns (emit e) (fun _ => True).
Proof. intros st. eexists _, _. split; [reflexivity|exact I]. Qed.

Lemma returns_write p data : returns (write p data) (fun _ => True).
Proof. intros st. eexists _, _. split; [reflexivity|exact I]. Qed.

Lemma returns_read_text p :
  returns (read_text p) (fun _ => True).
Proof.
  intros st. unfold read_text, catch, bind, read, print, emit, ret.
  destruct (files st !! p) as [f|]; [destruct (f_readable f)|];
    eexists _, _; (split; [reflexivity|exact I]).
Qed.

Lemma for_each_unlink d : forall names st,
  exists st', for_each names (fun name => unlink (d, name)) st = (Returns tt, st')
              /\ only_deleted st st'.
Proof.
  induction names as [|name names IH]; intros st.
  - exists st. split; [reflexivity|]. intros p. left. reflexivity.
  - cbn [for_each]. unfold bind, unlink at 1.
    match goal with
    | |- context [for_each names _ ?st1] => destruct (IH st1) as (st' & -> & Hdel)
    end.
    exists st'. split; [reflexivity|]. intros p.
    destruct (Hdel p) as [Hp|Hp]; [|right; exact Hp].
    rewrite Hp. cbn [files].
    destruct (decide ((d, name) = p)) as [<-|Hne].
    + right. apply lookup_delete_eq.
    + left. apply lookup_delete_ne. exact Hne.
Qed.

Lemma prepare_output_dir_deletes d patterns st :
  exists st', prepare_output_dir d patterns st = (Returns tt, st')
              /\ only_deleted st st'.
Proof.
  unfold prepare_output_dir, bind, mkdir, emit at 1.
  match goal with
  | |- context [clear_existing_files d patterns ?st0] =>
      assert (Hstart : only_deleted st st0) by (intros p; left; reflexivity);
      generalize dependent st0
  end.
  unfold clear_existing_files.
  induction patterns as [|pattern patterns IH]; intros st0 Hstart.
  - exists st0. split; [reflexivity|exact Hstart].
  - cbn [for_each]. unfold bind at 1. unfold bind at 1, glob at 1.
    match goal with
    | |- context [for_each ?names (fun name => unlink (d, name)) st0] =>
        destruct (for_each_unlink d names st0) as (st1 & -> & Hdel)
    end.
    apply IH. intros p. destruct (Hdel p) as [Hp|Hp]; [|right; exact Hp].
    rewrite Hp. apply Hstart.
Qed.

Lemma length_range lo hi : length (range lo hi) = Z.to_nat (hi - lo).
Proof. unfold range. rewrite length_map, length_seq. reflexivity. Qed.

Lemma lookup_range lo hi (k : nat) :
  (k < Z.to_nat (hi - lo))%nat -> range lo hi !! k = Some (lo + Z.of_nat k).
Proof.
  intros Hk. unfold range. rewrite list_lookup_fmap.
  rewrite lookup_seq_lt by exact Hk. reflexivity.
Qed.

Section JsonFacts.
Context {U : UnicodeDigits} {J : JsonCodec} {C : FanoutCollaborators}.

(** The body of the loop always gets to its end, and the entry it
    appends carries the loop index and the total. *)
Lemma json_chunk_entry_returns dataset_name base_name html_dir markdown_dir
    json_dir html_paths markdown_paths regen_html regen_markdown total index :
  returns
    (json_chunk_entry dataset_name base_name html_dir markdown_dir json_dir
       html_paths markdown_paths regen_html regen_markdown total index)
    (fun e => ce_part e = index /\ ce_total_parts e = total).
Proof.
  unfold json_chunk_entry.
  apply (returns_bind _ _ (fun _ => True)).
  { destruct (html_paths !! index);
      [apply returns_read_text|apply returns_ret; exact I]. }
  intros html_read _.
  apply (returns_bind _ _ (fun _ => True)).
  { destruct html_read; [apply returns_ret; exact I|].
    apply (returns_bind _ _ (fun _ => True)).
    - destruct (html_paths !! index);
        [apply returns_ret; exact I|apply returns_emit].
    - intros _ _. apply returns_ret. exact I. }
  intros html_content _.
  apply (returns_bind _ _ (fun _ => True)).
  { destruct (markdown_paths !! index);
      [apply returns_read_text|apply returns_ret; exact I]. }
  intros markdown_read _.
  apply (returns_bind _ _ (fun _ => True)).
  { destruct markdown_read; [apply returns_ret; exact I|].
    apply (returns_bind _ _ (fun _ => True)).
    - destruct (markdown_paths !! index);
        [apply returns_ret; exact I|].
      destruct (strip _); [apply returns_ret; exact I|apply returns_emit].
    - intros _ _. apply returns_ret. exact I. }
  intros markdown_content _.
  apply (returns_bind _ _ (fun _ => True)); [apply returns_write|].
  intros _ _.
  apply (returns_bind _ _ (fun _ => True)); [apply returns_emit|].
  intros _ _. apply returns_ret. split; reflexivity.
Qed.

Lemma json_chunk_entries_returns (body : Z -> M chunk_entry) total :
  (forall index,
     returns (body index)
       (fun e => ce_part e = index /\ ce_total_parts e = total)) ->
  forall indices,
  returns (json_chunk_entries body indices)
    (fun entries =>
       map ce_part entries = indices
       /\ Forall (fun e => ce_total_parts e = total) entries).
Proof.
  intros Hbody. induction indices as [|index rest IH]; cbn [json_chunk_entries].
  - apply returns_ret. split; [reflexivity|constructor].
  - eapply returns_bind; [apply Hbody|]. intros e [Hpart Htotal].
    eapply returns_bind; [apply IH|]. intros entries [Hparts Htotals].
    apply returns_ret. split; [simpl; congruence|constructor; assumption].
Qed.

End JsonFacts.

Section JsonRun.
Context {U : UnicodeDigits} {J : JsonCodec} {C : FanoutCollaborators}.

Lemma chunks_numbered_intro n dataset_name generated_at html markdown text entries :
  0 <= n ->
  map ce_part entries = range 1 (n + 1) ->
  Forall (fun e => ce_total_parts e = n) entries ->
  chunks_numbered n
    {| ar_dataset := dataset_name; ar_generated_at := generated_at;
       ar_html := html; ar_markdown := markdown; ar_text := text;
       ar_chunks := entries |}.
Proof.
  intros Hn Hparts Htotals. unfold chunks_numbered. cbn [ar_chunks].
  assert (Hlen : length entries = Z.to_nat n).
  { rewrite <- (length_map ce_part), Hparts, length_range. f_equal. lia. }
  split; [unfold len; lia|].
  intros k Hk.
  assert (Hlt : (Z.to_nat k < length entries)%nat) by lia.
  destruct (lookup_lt_is_Some_2 entries (Z.to_nat k) Hlt) as [e He].
  exists e. split; [exact He|]. split.
  - assert (Hk' : map ce_part entries !! Z.to_nat k = Some (ce_part e))
      by (rewrite list_lookup_fmap, He; reflexivity).
    rewrite Hparts, lookup_range in Hk' by lia.
    injection Hk' as <-. lia.
  - eapply Forall_lookup_1 in Htotals; [exact Htotals|exact He].
Qed.

(** A run of the JSON generator, by its outcome: a record that is
    numbered against the number of parts of the aggregate HTML and is on
    disk; an exception only from an aggregate text file that cannot be
    read; no result only when one of the two splits has none. *)
Lemma generate_json_artifacts_run dataset_name aggregate_html
    aggregate_markdown text_dir html_dir markdown_dir json_dir
    chunk_char_limit source_url base_name st :
  match generate_json_artifacts dataset_name aggregate_html aggregate_markdown
          text_dir html_dir markdown_dir json_dir chunk_char_limit source_url
          base_name st with
  | (Returns record, st') =>
      exists raw_chunks,
        split_text_on_newlines aggregate_html chunk_char_limit = Some raw_chunks
        /\ chunks_numbered (len raw_chunks) record
        /\ exists f, files st' !! (json_dir, base_name ++ lit ".json") = Some f
                     /\ f_data f = json_dumps true (aggregate_json record)
  | (Raises _, _) =>
      exists f, files st !! (text_dir, base_name ++ lit ".text") = Some f
                /\ f_readable f = false
  | (Diverges, _) =>
      split_text_on_newlines aggregate_html chunk_char_limit = None
      \/ split_text_on_newlines aggregate_markdown chunk_char_limit = None
  end.
Proof.
  unfold generate_json_artifacts.
  unfold bind at 1.
  destruct (prepare_output_dir_deletes json_dir
              [base_name ++ lit ".json"; base_name ++ lit "_part_*.json"] st)
    as (st1 & -> & Hdel).
  (* the aggregate text *)
  unfold bind at 1, path_exists at 1.
  assert (Htext :
            (exists aggregate_text,
               (if bool_decide (is_Some (files st1 !! (text_dir, base_name ++ lit ".text")))
                then read (text_dir, base_name ++ lit ".text")
                else ret (extract_plain_text aggregate_html)) st1
               = (Returns aggregate_text, st1))
            \/ ((if bool_decide (is_Some (files st1 !! (text_dir, base_name ++ lit ".text")))
                 then read (text_dir, base_name ++ lit ".text")
                 else ret (extract_plain_text aggregate_html)) st1
                = (Raises OSError, st1)
                /\ exists f, files st !! (text_dir, base_name ++ lit ".text") = Some f
                             /\ f_readable f = false)).
  { destruct (files st1 !! (text_dir, base_name ++ lit ".text")) as [f|] eqn:Hf.
    - rewrite bool_decide_eq_true_2 by eauto. unfold read. rewrite Hf.
      destruct (f_readable f) eqn:Hr; [left; eauto|].
      right. split; [reflexivity|].
      destruct (Hdel (text_dir, base_name ++ lit ".text")) as [Hsame|Hgone];
        [|congruence].
      exists f. split; [congruence|exact Hr].
    - rewrite bool_decide_eq_false_2 by (intros [? ?]; discriminate).
      unfold ret. left. eauto. }
  destruct Htext as [[aggregate_text Htext]|[Htext Hunreadable]];
    unfold bind at 1; rewrite Htext; [|exact Hunreadable].
  (* the two directory listings *)
  unfold bind at 1, glob at 1. unfold bind at 1, glob at 1.
  (* the in-memory fallbacks *)
  unfold bind at 1, lift at 1, fallback_html_chunks.
  destruct (split_text_on_newlines aggregate_html chunk_char_limit)
    as [raw|] eqn:Hraw; cbn [of_fuel and_then]; [|left; reflexivity].
  pose proof (split_text_on_newlines_nonempty _ _ _ Hraw) as Hne.
  assert (Htotal : match raw with [] => 1 | _ :: _ => len raw end = len raw)
    by (destruct raw; [congruence|reflexivity]).
  rewrite Htotal.
  unfold bind at 1, lift at 1, fallback_markdown_chunks.
  destruct (split_text_on_newlines aggregate_markdown chunk_char_limit)
    as [raw_md|] eqn:Hraw_md; cbn [of_fuel and_then]; [|right; reflexivity].
  (* the loop *)
  unfold bind at 1.
  match goal with
  | |- context [json_chunk_entries ?body ?indices st1] =>
      destruct (json_chunk_entries_returns body (len raw)
                  (fun index => json_chunk_entry_returns _ _ _ _ _ _ _ _ _ _ index)
                  indices st1)
        as (entries & st2 & -> & Hparts & Htotals)
  end.
  (* the aggregate record *)
  unfold bind at 1. unfold bind at 1, write at 1. unfold bind at 1, print, emit.
  unfold ret.
  exists raw. split; [reflexivity|]. split.
  - apply chunks_numbered_intro; [apply len_nonneg|exact Hparts|exact Htotals].
  - cbn [files]. eexists. split; [apply lookup_insert_eq|reflexivity].
Qed.

End JsonRun.

(** C2.  For every document the JSON generator processes -- every run of
    [generate_json_artifacts] that returns -- the aggregate record it
    has written to [<base>.json] has a [chunks] array of exactly [N]
    entries, where [N] is the number of parts into which the newline
    splitter cuts the aggregate HTML at the same limit, and entry [k]
    (from 0) has [part = k + 1] and [total_parts = N].  For a positive
    character limit that [N] exists and is at least 1, and the run ends:
    it returns, or an exception leaves it. *)
Theorem json_chunks_numbering
    {U : UnicodeDigits} {J : JsonCodec} {C : FanoutCollaborators}
    dataset_name aggregate_html aggregate_markdown
    text_dir html_dir markdown_dir json_dir chunk_char_limit source_url
    base_name st :
  (forall record st',
     generate_json_artifacts dataset_name aggregate_html aggregate_markdown
       text_dir html_dir markdown_dir json_dir chunk_char_limit source_url
       base_name st = (Returns record, st') ->
     exists raw_chunks,
       split_text_on_newlines aggregate_html chunk_char_limit = Some raw_chunks
       /\ chunks_numbered (len raw_chunks) record
       /\ exists f, files st' !! (json_dir, base_name ++ lit ".json") = Some f
                    /\ f_data f = json_dumps true (aggregate_json record))
  /\ (1 <= chunk_char_limit ->
      (exists raw_chunks,
         split_text_on_newlines aggregate_html chunk_char_limit = Some raw_chunks
         /\ 1 <= len raw_chunks)
      /\ (generate_json_artifacts dataset_name aggregate_html aggregate_markdown
            text_dir html_dir markdown_dir json_dir chunk_char_limit source_url
            base_name st).1 <> Diverges).
Proof.
  pose proof (generate_json_artifacts_run dataset_name aggregate_html
                aggregate_markdown text_dir html_dir markdown_dir json_dir
                chunk_char_limit source_url base_name st) as Hrun.
  split.
  - intros record st' Heq. rewrite Heq in Hrun. exact Hrun.
  - intros Hlimit.
    destruct (split_text_on_newlines_total aggregate_html chunk_char_limit Hlimit)
      as [raw Hraw].
    destruct (split_text_on_newlines_total aggregate_markdown chunk_char_limit
                Hlimit) as [raw_md Hraw_md].
    split.
    + exists raw. split; [exact Hraw|].
      pose proof (split_text_on_newlines_nonempty _ _ _ Hraw) as Hne.
      destruct raw; [congruence|unfold len; simpl; lia].
    + destruct (generate_json_artifacts _ _ _ _ _ _ _ _ _ _ st)
        as [[record|e|] st']; cbn [fst]; [discriminate|discriminate|].
      destruct Hrun; congruence.
Qed.

Lemma json_chunks_numbering_witness :
  let st := {| files := ∅; clock := 3; trace := [] |} in
  exists record st',
    @generate_json_artifacts ascii_digits toy_json toy_collaborators
      [100] [97; 10; 98; 10; 99] [35] [116] [104] [109] [106] 2 None [100] st
    = (Returns record, st')
    /\ split_text_on_newlines [97; 10; 98; 10; 99] 2
       = Some [[97; 10]; [98; 10]; [99]]
    /\ chunks_numbered 3 record.
Proof.
  intros st.
  destruct (@json_chunks_numbering ascii_digits toy_json toy_collaborators
              [100] [97; 10; 98; 10; 99] [35] [116] [104] [109] [106] 2 None
              [100] st) as [Hsound _].
  destruct (@generate_json_artifacts ascii_digits toy_json toy_collaborators
              [100] [97; 10; 98; 10; 99] [35] [116] [104] [109] [106] 2 None
              [100] st) as [[record|e|] st'] eqn:Hrun;
    [|vm_compute in Hrun; discriminate|vm_compute in Hrun; discriminate].
  exists record, st'. split; [reflexivity|]. split; [reflexivity|].
  destruct (Hsound record st' eq_refl) as (raw & Hraw & Hnum & _).
  vm_compute in Hraw. injection Hraw as <-. exact Hnum.
Defined.

Example split_demo :
  split_text_on_newlines (lit "abcd
efgh
i") 6 = Some [lit "abcd
"; lit "efgh
i"].
Proof. vm_compute. reflexivity. Qed.

Example parse_demo :
  @parse_chunk_indices ascii_digits
    (chunk_file_name (lit "rendered_chat") 3 12 (lit ".html")) = (3, 12).
Proof. vm_compute. reflexivity. Qed.

Example split_by_bytes_demo :
  _split_by_bytes [97; 233; 8364; 98] 3
  = Returns [[97; 233]; [8364]; [98]].
Proof. vm_compute. reflexivity. Qed.

Example split_by_bytes_lossy_demo :
  _split_by_bytes [233] 1 = Returns [[195]; [169]].
Proof. vm_compute. reflexivity. Qed.

Example glob_match_demo :
  glob_match (lit "doc_part_*_of_*.html") (lit "doc_part_2_of_10.html") = true
  /\ glob_match (lit "doc_part_*.json") (lit "doc.text") = false.
Proof. split; reflexivity. Qed.

Example extract_source_url_demo :
  extract_source_url (Some (lit "<!--  Source URL: https://x.y/z  -->
<html>")) = Some (lit "https://x.y/z")
  /\ extract_source_url (Some (lit "<html>")) = None.
Proof. split; vm_compute; reflexivity. Qed.

Example stem_demo :
  stem (lit "report.v2.html") = lit "report.v2"
  /\ stem (lit ".bashrc") = lit ".bashrc"
  /\ stem (lit "notes") = lit "notes".
Proof. repeat split; vm_compute; reflexivity. Qed.

Example str_of_int_demo : str_of_int 4096 = lit "4096" /\ str_of_int 0 = lit "0".
Proof. split; vm_compute; reflexivity. Qed.

(* ===================================================================== *)
(** * Properties of the code around the claims *)
(* ===================================================================== *)

(** ** Windows of a fixed size *)

Section CutEvery.
Context {A : Type}.
Implicit Types xs : list A.

Lemma slice_clamp_hi xs a b :
  0 <= a -> len xs <= b -> slice xs a b = slice xs a (len xs).
Proof.
  intros Ha Hb. unfold slice, adjust_index.
  pose proof (len_nonneg xs).
  destruct (Z.ltb_spec a 0), (Z.ltb_spec b 0), (Z.ltb_spec (len xs) 0); try lia.
  rewrite (Z.min_r b) by lia. rewrite (Z.min_id). reflexivity.
Qed.

Lemma cut_every_nil m xs : len xs <= 0 -> cut_every m xs [].
Proof.
  intros Hlen. unfold cut_every. simpl. repeat split.
  - destruct xs; [reflexivity|]. unfold len in Hlen. simpl in Hlen. lia.
  - constructor.
  - intros [|? ?] ? ? ?; discriminate.
Qed.

Lemma cut_every_cons m xs c rest :
  1 <= m -> 0 <= c < len xs ->
  cut_every m (drop (Z.to_nat (c + m)) xs) rest ->
  cut_every m (drop (Z.to_nat c) xs) (slice xs c (c + m) :: rest).
Proof.
  intros Hm Hc (Hcat & Hall & Hfull).
  assert (Hlen : len (slice xs c (c + m)) = Z.min (c + m) (len xs) - c)
    by (apply len_slice_clamp; lia).
  unfold cut_every. repeat split.
  - simpl. rewrite Hcat.
    destruct (Z.le_gt_cases (c + m) (len xs)) as [Hin|Hout].
    + symmetry. apply drop_slice; lia.
    + rewrite slice_clamp_hi by lia.
      rewrite (drop_ge xs (Z.to_nat (c + m))) by (unfold len in *; lia).
      rewrite (drop_slice xs c (len xs)) by lia.
      rewrite (drop_ge xs (Z.to_nat (len xs))) by (unfold len; lia).
      reflexivity.
  - constructor; [lia|exact Hall].
  - intros [|p pre] g post Heq Hpost; simpl in Heq; injection Heq as <- Hrest.
    + subst rest.
      destruct (Z.le_gt_cases (c + m) (len xs)) as [Hin|Hout]; [lia|].
      exfalso. rewrite drop_ge in Hcat by (unfold len in *; lia).
      destruct post as [|g post]; [congruence|].
      apply Forall_inv in Hall. simpl in Hcat.
      apply app_eq_nil in Hcat as [-> _]. unfold len in Hall. simpl in Hall. lia.
    + eapply Hfull; eassumption.
Qed.

(** The number of windows. *)
Lemma cut_every_length m xs groups :
  1 <= m -> cut_every m xs groups -> len groups = (len xs + m - 1) / m.
Proof.
  intros Hm. revert xs.
  induction groups as [|g groups IH]; intros xs (Hcat & Hall & Hfull).
  - simpl in Hcat. subst xs. unfold len. simpl.
    symmetry. apply Z.div_small. lia.
  - simpl in Hcat. subst xs.
    apply Forall_cons in Hall as [Hg Hall].
    assert (Hrest : cut_every m (concat groups) groups).
    { repeat split; [exact Hall|].
      intros pre g' post Heq. apply (Hfull (g :: pre)). simpl. congruence. }
    specialize (IH _ Hrest).
    unfold len in *. rewrite length_app. simpl length.
    destruct groups as [|g' groups'].
    + simpl in *. rewrite Nat.add_0_r.
      replace (Z.of_nat 1) with 1 by lia.
      apply Z.div_unique with (r := Z.of_nat (length g) - 1); lia.
    + assert (Hg' : Z.of_nat (length g) = m)
        by exact (Hfull [] g (g' :: groups') eq_refl ltac:(discriminate)).
      replace (Z.of_nat (length g + length (concat (g' :: groups'))) + m - 1)
        with ((Z.of_nat (length (concat (g' :: groups'))) + m - 1) + 1 * m) by lia.
      rewrite Z.div_add by lia. lia.
Qed.

End CutEvery.

(** ** The character and node splitters *)

Lemma drop_all_nil {A} (xs : list A) c : len xs <= c -> drop (Z.to_nat c) xs = [].
Proof. intros. apply drop_ge. unfold len in *. lia. Qed.

Lemma slice_min_hi {A} (xs : list A) c m :
  0 <= c -> slice xs c (Z.min (len xs) (c + m)) = slice xs c (c + m).
Proof.
  intros Hc. destruct (Z.le_gt_cases (c + m) (len xs)).
  - rewrite Z.min_r by lia. reflexivity.
  - rewrite Z.min_l by lia. symmetry. apply slice_clamp_hi; lia.
Qed.

Lemma drop_min_hi {A} (xs : list A) c m :
  drop (Z.to_nat (Z.min (len xs) (c + m))) xs = drop (Z.to_nat (c + m)) xs.
Proof.
  destruct (Z.le_gt_cases (c + m) (len xs)).
  - rewrite Z.min_r by lia. reflexivity.
  - rewrite Z.min_l by lia. rewrite !drop_all_nil by lia. reflexivity.
Qed.

(** ** [_split_text] *)

Lemma text_loop_spec payload m : 1 <= m -> forall fuel c,
  0 <= c -> len payload - c <= Z.of_nat fuel ->
  exists chunks, text_loop fuel payload m c = Some chunks
    /\ cut_every m (drop (Z.to_nat c) payload) chunks.
Proof.
  intros Hm. induction fuel as [|fuel IH]; intros c Hc Hfuel; simpl.
  - destruct (Z.ltb_spec c (len payload)); [lia|].
    eexists. split; [reflexivity|]. apply cut_every_nil.
    rewrite drop_all_nil by lia. unfold len. simpl. lia.
  - destruct (Z.ltb_spec c (len payload)) as [Hlt|Hge].
    + destruct (IH (Z.min (len payload) (c + m)) ltac:(lia) ltac:(lia))
        as (rest & -> & Hrest).
      eexists. split; [reflexivity|].
      rewrite slice_min_hi by lia. rewrite drop_min_hi in Hrest.
      apply cut_every_cons; [lia|lia|exact Hrest].
    + eexists. split; [reflexivity|]. apply cut_every_nil.
      rewrite drop_all_nil by lia. unfold len. simpl. lia.
Qed.

(** [_split_text] always returns; its chunks give back the payload; a
    limit below 1 leaves the payload whole, and a limit [m >= 1] cuts a
    non-empty payload every [m] characters. *)
Lemma _split_text_run (payload : pystr) (max_chars : Z) :
  exists chunks,
    _split_text payload max_chars = Returns chunks
    /\ concat chunks = payload
    /\ chunks <> []
    /\ (max_chars <= 0 -> chunks = [payload])
    /\ (1 <= max_chars -> payload <> [] ->
        cut_every max_chars payload chunks
        /\ len chunks = (len payload + max_chars - 1) / max_chars).
Proof.
  unfold _split_text.
  destruct (Z.leb_spec max_chars 0) as [Hle|Hpos]; simpl.
  { exists [payload]. repeat split; try (simpl; apply app_nil_r); try discriminate; lia. }
  destruct (Z.leb_spec (len payload) max_chars) as [Hfit|Hbig].
  { exists [payload]. split; [reflexivity|]. split; [simpl; apply app_nil_r|].
    split; [discriminate|]. split; [lia|].
    intros _ Hne.
    assert (Hcut : cut_every max_chars payload [payload]).
    { repeat split.
      - simpl. apply app_nil_r.
      - constructor; [|constructor].
        destruct payload; [congruence|]. unfold len in *. simpl in *. lia.
      - intros [|? [|? ?]] g post Heq Hpost; simpl in Heq; try discriminate.
        injection Heq as <- <-. congruence. }
    split; [exact Hcut|]. apply cut_every_length; [lia|exact Hcut]. }
  destruct (text_loop_spec payload max_chars ltac:(lia) (length payload) 0)
    as (chunks & -> & Hcut); [lia|unfold len; lia|].
  change (drop (Z.to_nat 0) payload) with payload in Hcut.
  exists chunks. split; [reflexivity|].
  split; [apply Hcut|].
  split.
  { intros ->. destruct Hcut as [Hcat _]. simpl in Hcat. rewrite <- Hcat in Hbig.
    unfold len in Hbig. simpl in Hbig. lia. }
  split; [lia|]. intros _ _. split; [exact Hcut|].
  apply cut_every_length; [lia|exact Hcut].
Qed.

(** X1.  [_split_text] always returns, and its chunks, concatenated, are the
    payload.  A limit below 1 gives the payload whole; a limit of at
    least 1 cuts a non-empty payload every [max_chars] characters, into
    [ceil(len(payload) / max_chars)] chunks, none empty and only the last
    possibly shorter. *)
Theorem _split_text_spec (payload : pystr) (max_chars : Z) :
  exists chunks,
    _split_text payload max_chars = Returns chunks
    /\ concat chunks = payload
    /\ chunks <> []
    /\ (max_chars <= 0 -> chunks = [payload])
    /\ (1 <= max_chars -> payload <> [] ->
        cut_every max_chars payload chunks
        /\ len chunks = (len payload + max_chars - 1) / max_chars).
Proof. exact (_split_text_run payload max_chars). Qed.

(** ** [_split_html_by_nodes] *)

Section Nodes.
Context {P : HtmlParser}.

Lemma nodes_loop_spec (nodes : list node) m : 1 <= m -> forall fuel c,
  0 <= c -> len nodes - c <= Z.of_nat fuel ->
  exists groups, nodes_loop fuel nodes m c = Some (map wrap_in_body groups)
    /\ cut_every m (drop (Z.to_nat c) nodes) groups.
Proof.
  intros Hm. induction fuel as [|fuel IH]; intros c Hc Hfuel; simpl.
  - destruct (Z.ltb_spec c (len nodes)); [lia|].
    exists []. split; [reflexivity|]. apply cut_every_nil.
    rewrite drop_all_nil by lia. unfold len. simpl. lia.
  - destruct (Z.ltb_spec c (len nodes)) as [Hlt|Hge].
    + destruct (IH (c + m) ltac:(lia) ltac:(lia)) as (rest & -> & Hrest).
      exists (slice nodes c (c + m) :: rest). split; [reflexivity|].
      apply cut_every_cons; [lia|lia|exact Hrest].
    + exists []. split; [reflexivity|]. apply cut_every_nil.
      rewrite drop_all_nil by lia. unfold len. simpl. lia.
Qed.

(** With a step below 1 the cursor never reaches the end. *)
Lemma nodes_loop_stuck (nodes : list node) m : m <= 0 -> nodes <> [] ->
  forall fuel c, c <= 0 -> nodes_loop fuel nodes m c = None.
Proof.
  intros Hm Hne.
  assert (Hlen : 0 < len nodes) by (destruct nodes; [congruence|unfold len; simpl; lia]).
  induction fuel as [|fuel IH]; intros c Hc; simpl;
    (destruct (Z.ltb_spec c (len nodes)); [|lia]); [reflexivity|].
  rewrite IH by lia. reflexivity.
Qed.

(** X2.  [_split_html_by_nodes]: a document without nodes is returned whole;
    for [max_nodes >= 1] the nodes are cut every [max_nodes] and each
    group is wrapped in a body of its own; for [max_nodes <= 0] the loop
    never ends. *)
Theorem _split_html_by_nodes_spec (payload : pystr) (max_nodes : Z) :
  (body_children payload = [] ->
   _split_html_by_nodes payload max_nodes = Returns [payload])
  /\ (body_children payload <> [] -> 1 <= max_nodes ->
      exists groups,
        _split_html_by_nodes payload max_nodes = Returns (map wrap_in_body groups)
        /\ cut_every max_nodes (body_children payload) groups
        /\ len groups = (len (body_children payload) + max_nodes - 1) / max_nodes)
  /\ (body_children payload <> [] -> max_nodes <= 0 ->
      _split_html_by_nodes payload max_nodes = Diverges
      /\ forall fuel, nodes_loop fuel (body_children payload) max_nodes 0 = None).
Proof.
  unfold _split_html_by_nodes. repeat split.
  - intros ->. reflexivity.
  - intros Hne Hm.
    destruct (nodes_loop_spec (body_children payload) max_nodes Hm
                (length (body_children payload)) 0)
      as (groups & Hrun & Hcut); [lia|unfold len; lia|].
    change (drop (Z.to_nat 0) (body_children payload)) with (body_children payload) in Hcut.
    exists groups. split; [|split; [exact Hcut|]].
    + destruct (body_children payload); [congruence|]. rewrite Hrun. reflexivity.
    + apply cut_every_length; assumption.
  - destruct (body_children payload) eqn:Hb; [congruence|]. rewrite <- Hb.
    rewrite nodes_loop_stuck; [reflexivity|assumption|congruence|lia].
  - intros fuel. apply nodes_loop_stuck; [assumption|assumption|lia].
Qed.

End Nodes.

(** ** The window loop of [split_json] *)

Section JsonLoop.
Context {J : JsonCodec}.

Lemma take_slice {A} (xs : list A) c m h :
  0 <= c -> 0 <= m -> 0 <= h <= len (slice xs c (c + m)) ->
  slice_to (slice xs c (c + m)) h = take (Z.to_nat h) (drop (Z.to_nat c) xs).
Proof.
  intros Hc Hm Hh. unfold slice_to.
  rewrite (slice_in_range (slice xs c (c + m)) 0 h) by lia.
  rewrite Z.sub_0_r. change (Z.to_nat 0) with 0%nat. rewrite drop_0.
  pose proof (len_nonneg xs) as Hxs.
  destruct (Z.le_gt_cases c (len xs)) as [Hin|Hout].
  - rewrite len_slice_clamp in Hh by lia.
    destruct (Z.le_gt_cases (c + m) (len xs)).
    + rewrite (slice_in_range xs c (c + m)) by lia.
      rewrite take_take. f_equal. lia.
    + rewrite (slice_clamp_hi xs c (c + m)) by lia.
      rewrite (slice_in_range xs c (len xs)) by lia.
      rewrite take_take. f_equal. lia.
  - assert (Hnil : slice xs c (c + m) = []).
    { unfold slice, adjust_index.
      destruct (Z.ltb_spec c 0); [lia|].
      rewrite (Z.min_r c) by lia.
      rewrite drop_ge by (unfold len; lia). apply take_nil. }
    rewrite Hnil in *. rewrite drop_all_nil by lia. rewrite !take_nil. reflexivity.
Qed.

Lemma json_loop_spec items m max_bytes : 1 <= m -> forall fuel c,
  0 <= c -> len items - c <= Z.of_nat fuel ->
  match json_loop fuel items m max_bytes c with
  | Returns chunks =>
      Forall (fun chunk => 1 <= len chunk <= m) chunks
      /\ sublist (concat chunks) (drop (Z.to_nat c) items)
      /\ (truthy max_bytes = false -> cut_every m (drop (Z.to_nat c) items) chunks)
  | Raises e => e = UnicodeEncodeError /\ truthy max_bytes = true
  | Diverges => False
  end.
Proof.
  intros Hm. induction fuel as [|fuel IH]; intros c Hc Hfuel; simpl.
  - destruct (Z.ltb_spec c (len items)); [lia|].
    rewrite drop_all_nil by lia.
    split; [apply Forall_nil_2|split; [simpl; reflexivity|]].
    intros _. apply cut_every_nil. unfold len. simpl. lia.
  - destruct (Z.ltb_spec c (len items)) as [Hlt|Hge].
    2:{ rewrite drop_all_nil by lia.
    split; [apply Forall_nil_2|split; [simpl; reflexivity|]].
        intros _. apply cut_every_nil. unfold len. simpl. lia. }
    assert (Hlen : len (slice items c (c + m)) = Z.min (c + m) (len items) - c)
      by (apply len_slice_clamp; lia).
    assert (Hwhole :
      match and_then (json_loop fuel items m max_bytes (c + m))
              (fun rest => Returns (slice items c (c + m) :: rest)) with
      | Returns chunks =>
          Forall (fun chunk => 1 <= len chunk <= m) chunks
          /\ sublist (concat chunks) (drop (Z.to_nat c) items)
          /\ (truthy max_bytes = false ->
              cut_every m (drop (Z.to_nat c) items) chunks)
      | Raises e => e = UnicodeEncodeError /\ truthy max_bytes = true
      | Diverges => False
      end).
    { specialize (IH (c + m) ltac:(lia) ltac:(lia)).
      destruct (json_loop fuel items m max_bytes (c + m)) as [rest|e|];
        simpl; [|exact IH|exact IH].
      destruct IH as (Hall & Hsub & Hcut).
      assert (Hdrop : drop (Z.to_nat c) items
                      = slice items c (c + m) ++ drop (Z.to_nat (c + m)) items).
      { destruct (Z.le_gt_cases (c + m) (len items)).
        - apply drop_slice; lia.
        - rewrite slice_clamp_hi by lia.
          rewrite (drop_all_nil items (c + m)) by lia.
          rewrite (drop_slice items c (len items)) by lia.
          rewrite (drop_all_nil items (len items)) by lia. reflexivity. }
      split; [|split].
      - constructor; [lia|exact Hall].
      - rewrite Hdrop. apply sublist_app; [reflexivity|exact Hsub].
      - intros Hfalse. apply cut_every_cons; [lia|lia|exact (Hcut Hfalse)]. }
    destruct (truthy max_bytes) eqn:Htruthy; [|exact Hwhole].
    destruct (utf8_encode (json_dumps false (JArray (slice items c (c + m)))))
      as [encoded|]; [|simpl; split; reflexivity].
    destruct ((default 0 max_bytes <? len encoded)
              && (1 <? len (slice items c (c + m)))) eqn:Hhalve;
      [|exact Hwhole].
    apply andb_prop in Hhalve as [_ Hmany]. apply Z.ltb_lt in Hmany.
    simpl.
    set (subset := slice items c (c + m)) in *.
    set (half := Z.max 1 (len subset / 2)).
    assert (Hhalf : 1 <= half <= len subset).
    { subst half. pose proof (Z.div_le_upper_bound (len subset) 2 (len subset)).
      assert (len subset / 2 <= len subset)
        by (apply Z.div_le_upper_bound; lia). lia. }
    specialize (IH (c + m - (len subset - half)) ltac:(lia) ltac:(lia)).
    destruct (json_loop fuel items m max_bytes (c + m - (len subset - half)))
      as [rest|e|]; simpl; [|exact IH|exact IH].
    destruct IH as (Hall & Hsub & _).
    assert (Htake : slice_to subset half
                    = take (Z.to_nat half) (drop (Z.to_nat c) items))
      by (apply take_slice; fold subset; lia).
    split; [|split].
    + constructor; [|exact Hall].
      rewrite Htake. unfold len. rewrite length_take, length_drop.
      unfold len in *. lia.
    + rewrite Htake.
      rewrite <- (take_drop (Z.to_nat half) (drop (Z.to_nat c) items)) at 2.
      apply sublist_app; [reflexivity|].
      etrans; [exact Hsub|].
      rewrite drop_drop.
      replace (Z.to_nat (c + m - (len subset - half)))
        with ((Z.to_nat c + Z.to_nat half)
              + Z.to_nat (m - len subset))%nat by lia.
      rewrite <- drop_drop. apply sublist_drop.
    + discriminate.
Qed.

End JsonLoop.

(** X3.  The loop of [split_json] with a step [max_items >= 1]: it ends; it
    can only raise when a byte ceiling makes it encode a window; its
    chunks hold between 1 and [max_items] items each and, concatenated,
    are a subsequence of the items in their order; without a byte ceiling
    they cut the items every [max_items]. *)
Theorem split_json_loop_spec {J : JsonCodec}
    (items : list json) (max_items : Z) (max_bytes : option Z) :
  1 <= max_items ->
  match json_loop (length items) items max_items max_bytes 0 with
  | Returns chunks =>
      Forall (fun chunk => 1 <= len chunk <= max_items) chunks
      /\ sublist (concat chunks) items
      /\ (truthy max_bytes = false -> cut_every max_items items chunks)
  | Raises e => e = UnicodeEncodeError /\ truthy max_bytes = true
  | Diverges => False
  end.
Proof.
  intros Hm.
  apply (json_loop_spec items max_items max_bytes Hm (length items) 0);
    [lia|unfold len; lia].
Qed.

Lemma split_json_loop_spec_witness :
  @json_loop toy_json 5 (map (fun c => JString [c]) [97; 98; 99; 100; 101]) 4
    (Some 2) 0
  = Returns [[JString [97]; JString [98]]; [JString [99]]; [JString [101]]]
  /\ sublist [JString [97]; JString [98]; JString [99]; JString [101]]
       (map (fun c => JString [c]) [97; 98; 99; 100; 101]).
Proof.
  pose proof (@split_json_loop_spec toy_json
                (map (fun c => JString [c]) [97; 98; 99; 100; 101]) 4 (Some 2)
                ltac:(lia)) as Hspec.
  assert (Hrun : @json_loop toy_json 5
                   (map (fun c => JString [c]) [97; 98; 99; 100; 101]) 4 (Some 2) 0
                 = Returns [[JString [97]; JString [98]]; [JString [99]];
                            [JString [101]]]) by (vm_compute; reflexivity).
  split; [exact Hrun|].
  change (length (map (fun c => JString [c]) [97; 98; 99; 100; 101])) with 5%nat in Hspec.
  rewrite Hrun in Hspec. exact (proj1 (proj2 Hspec)).
Defined.

(** ** The PDF splitter *)

Section Pdf.
Context {H : Hasher} {J : JsonCodec} {P : HtmlParser} {D : PdfCodec}.

Lemma range_from_cut (pages : list page) m : 1 <= m -> forall fuel start,
  0 <= start -> len pages - start <= Z.of_nat fuel ->
  cut_every m (drop (Z.to_nat start) pages)
    (map (fun start => slice pages start (Z.min (len pages) (start + m)))
         (range_from fuel start (len pages) m)).
Proof.
  intros Hm. induction fuel as [|fuel IH]; intros start Hstart Hfuel; simpl.
  - apply cut_every_nil. rewrite drop_all_nil by lia. unfold len. simpl. lia.
  - destruct (Z.ltb_spec start (len pages)) as [Hlt|Hge]; simpl.
    + rewrite slice_min_hi by lia.
      apply cut_every_cons; [lia|lia|]. apply IH; lia.
    + apply cut_every_nil. rewrite drop_all_nil by lia. unfold len. simpl. lia.
Qed.

(** X4.  [split_pdf] on a readable PDF with at least one page.  A positive
    [max_pages] cuts the pages every [max_pages] and writes one PDF per
    group; [max_pages = 0] raises [ValueError] before anything is
    written; a negative [max_pages] makes the range empty, so that the
    writer is handed no payload and writes a single empty part. *)
Theorem split_pdf_spec (p : path) (max_pages : Z) (st : state) f pages :
  files st !! p = Some f -> f_readable f = true ->
  pdf_pages (f_data f) = Some pages -> pages <> [] ->
  (1 <= max_pages ->
   exists groups,
     cut_every max_pages pages groups
     /\ split_pdf p max_pages st
        = _write_chunks p (lit ".pdf") (map pdf_write groups) st)
  /\ (max_pages = 0 -> split_pdf p max_pages st = (Raises ValueError, st))
  /\ (max_pages < 0 ->
      split_pdf p max_pages st
      = single_chunk (only_part p (lit ".pdf")) [] st).
Proof.
  intros Hf Hr Hpages Hne.
  assert (Hlen : 0 < len pages)
    by (destruct pages; [congruence|unfold len; simpl; lia]).
  assert (Hrun : split_pdf p max_pages st
                 = match range0 (len pages) max_pages with
                   | Returns starts =>
                       _write_chunks p (lit ".pdf")
                         (map (fun start =>
                                 pdf_write
                                   (slice pages start
                                      (Z.min (len pages) (start + max_pages))))
                              starts) st
                   | Raises e => (Raises e, st)
                   | Diverges => (Diverges, st)
                   end).
  { unfold split_pdf. unfold bind at 1, read at 1. rewrite Hf, Hr.
    unfold bind at 1, lift at 1. rewrite Hpages.
    destruct (Z.eqb_spec (len pages) 0); [lia|].
    unfold bind at 1, lift at 1.
    destruct (range0 (len pages) max_pages); reflexivity. }
  rewrite Hrun. unfold range0. repeat split.
  - intros Hm.
    destruct (Z.eqb_spec max_pages 0); [lia|].
    destruct (Z.ltb_spec max_pages 0); [lia|].
    exists (map (fun start => slice pages start (Z.min (len pages) (start + max_pages)))
                (range_from (Z.to_nat (len pages)) 0 (len pages) max_pages)).
    split.
    + apply (range_from_cut pages max_pages Hm (Z.to_nat (len pages)) 0); lia.
    + rewrite map_map. reflexivity.
  - intros ->. reflexivity.
  - intros Hm.
    destruct (Z.eqb_spec max_pages 0); [lia|].
    destruct (Z.ltb_spec max_pages 0); [|lia].
    simpl map. apply _write_chunks_nil.
Qed.

End Pdf.

Lemma split_pdf_spec_witness :
  let p : path := ([111], [100; 46; 112; 100; 102]) in
  let st := {| files := {[ p := File [1; 2; 3] 0 true ]}; clock := 5; trace := [] |} in
  (exists groups,
     cut_every 2 [1; 2; 3] groups
     /\ @split_pdf identity_hasher toy_pdf p 2 st
        = @_write_chunks identity_hasher p (lit ".pdf") groups st)
  /\ @split_pdf identity_hasher toy_pdf p 0 st = (Raises ValueError, st)
  /\ @split_pdf identity_hasher toy_pdf p (-1) st
     = @single_chunk identity_hasher (only_part p (lit ".pdf")) [] st.
Proof.
  intros p st.
  destruct (split_pdf_spec (H := identity_hasher) (D := toy_pdf) p 2 st
              (File [1; 2; 3] 0 true) [1; 2; 3] eq_refl eq_refl eq_refl
              ltac:(discriminate))
    as (Hpos & _ & _).
  destruct (Hpos ltac:(lia)) as (groups & Hcut & Hrun).
  split; [|split].
  - exists groups. split; [exact Hcut|].
    rewrite Hrun. f_equal. apply map_id.
  - vm_compute. reflexivity.
  - vm_compute. reflexivity.
Defined.

(** ** The checksum module *)

Section Checksum.
Context {H : Hasher}.

(** X5.  [sha256_file]: [None] for a missing file, [OSError] for one that
    cannot be opened, and for a readable file the digest of its content:
    feeding the hash in blocks of 65536 bytes gives what [sha256_bytes]
    gives for the whole content. *)
Theorem sha256_file_spec (p : path) (st : state) :
  sha256_file p st
  = (match files st !! p with
     | None => Returns None
     | Some f =>
         if f_readable f then Returns (Some (sha256_bytes (f_data f)))
         else Raises OSError
     end, st).
Proof.
  destruct (files st !! p) as [f|] eqn:Hf.
  - destruct (f_readable f) eqn:Hr.
    + apply sha256_file_present; assumption.
    + apply (sha256_file_unreadable p f); assumption.
  - apply sha256_file_absent. exact Hf.
Qed.

(** X6.  [write_if_changed] fails only with [OSError], on an existing file
    that cannot be read, and then changes nothing.  When it returns, the
    file at [p] has the digest of [data]; the answer is [False] exactly
    when the file was there with that digest already, and then the state
    is untouched; after the answer [True] the file holds [data] and the
    time of the write; no other file changes. *)
Theorem write_if_changed_spec (p : path) (data : list Z) (st : state) :
  match write_if_changed p data st with
  | (Returns changed, st') =>
      (exists f', files st' !! p = Some f'
                  /\ sha256_bytes (f_data f') = sha256_bytes data
                  /\ (changed = true -> f_data f' = data /\ f_mtime f' = clock st))
      /\ (changed = false -> st' = st)
      /\ (changed = false <->
          exists f, files st !! p = Some f
                    /\ sha256_bytes (f_data f) = sha256_bytes data)
      /\ (forall q, q <> p -> files st' !! q = files st !! q)
  | (Raises e, st') =>
      e = OSError /\ st' = st
      /\ exists f, files st !! p = Some f /\ f_readable f = false
  | (Diverges, _) => False
  end.
Proof.
  rewrite write_if_changed_eq.
  assert (Hwritten :
    (exists f', files (written p data st) !! p = Some f'
                /\ sha256_bytes (f_data f') = sha256_bytes data
                /\ (true = true -> f_data f' = data /\ f_mtime f' = clock st))
    /\ (forall q, q <> p -> files (written p data st) !! q = files st !! q)).
  { split.
    - eexists. split; [apply lookup_written|]. simpl. auto.
    - intros q Hq. apply lookup_written_ne. congruence. }
  destruct (files st !! p) as [f|] eqn:Hf.
  - destruct (f_readable f) eqn:Hr.
    + destruct (decide (sha256_bytes (f_data f) = sha256_bytes data)) as [Heq|Hne].
      * split; [|split; [|split]].
        -- exists f. split; [exact Hf|]. split; [exact Heq|discriminate].
        -- reflexivity.
        -- split; [intros _; eauto|reflexivity].
        -- reflexivity.
      * destruct Hwritten as [Hp Hframe].
        split; [exact Hp|]. split; [discriminate|]. split; [|exact Hframe].
        split; [discriminate|]. intros (g & [= <-] & Hg). contradiction.
    + split; [reflexivity|]. split; [reflexivity|]. eauto.
  - destruct Hwritten as [Hp Hframe].
    split; [exact Hp|]. split; [discriminate|]. split; [|exact Hframe].
    split; [discriminate|]. intros (g & [=] & _).
Qed.

(** The name of part [index + j]. *)
Lemma chunk_path_ne (dest : pystr) base ext total i j :
  0 <= i -> 0 <= j -> i <> j ->
  (dest, chunk_file_name base i total ext)
  <> (dest, chunk_file_name base j total ext).
Proof.
  intros Hi Hj Hne [= Heq]. apply Hne.
  exact (chunk_file_name_inj base i j total ext Hi Hj Heq).
Qed.

Lemma _write_chunks_from_spec dest base ext total :
  forall payloads index st,
  0 <= index ->
  (forall (j : nat) f, (j < length payloads)%nat ->
     files st !! (dest, chunk_file_name base (index + Z.of_nat j) total ext)
     = Some f -> f_readable f = true) ->
  exists st',
    _write_chunks_from dest base ext total index payloads st
    = (Returns (map (fun j => (dest, chunk_file_name base (index + Z.of_nat j)
                                        total ext))
                    (seq 0 (length payloads))), st')
    /\ (forall q,
          (forall j, (j < length payloads)%nat ->
             q <> (dest, chunk_file_name base (index + Z.of_nat j) total ext)) ->
          files st' !! q = files st !! q)
    /\ (forall j payload, payloads !! j = Some payload ->
          exists f,
            files st' !! (dest, chunk_file_name base (index + Z.of_nat j)
                                  total ext) = Some f
            /\ sha256_bytes (f_data f) = sha256_bytes payload
            /\ (f_data f = payload
                \/ files st !! (dest, chunk_file_name base (index + Z.of_nat j)
                                        total ext) = Some f)).
Proof.
  induction payloads as [|payload rest IH]; intros index st Hindex Hreadable.
  - exists st. split; [reflexivity|]. split; [reflexivity|].
    intros j payload Hj. rewrite lookup_nil in Hj. discriminate.
  - cbn [_write_chunks_from]. unfold bind at 1.
    set (here := (dest, chunk_file_name base index total ext)).
    assert (Hstep :
      (exists changed st1,
         write_if_changed here payload st = (Returns changed, st1)
         /\ (exists f1, files st1 !! here = Some f1
                        /\ sha256_bytes (f_data f1) = sha256_bytes payload
                        /\ (f_data f1 = payload \/ files st !! here = Some f1))
         /\ forall q, q <> here -> files st1 !! q = files st !! q)).
    { rewrite write_if_changed_eq.
      assert (Hw : (exists f1, files (written here payload st) !! here = Some f1
                               /\ sha256_bytes (f_data f1) = sha256_bytes payload
                               /\ (f_data f1 = payload
                                   \/ files st !! here = Some f1))
                   /\ forall q, q <> here ->
                        files (written here payload st) !! q = files st !! q).
      { split; [eexists; split; [apply lookup_written|cbn [f_data]; auto]|].
        intros q Hq. apply lookup_written_ne. congruence. }
      destruct (files st !! here) as [f|] eqn:Hf; [|eauto].
      assert (Hr : f_readable f = true).
      { apply (Hreadable O f ltac:(simpl; lia)). rewrite Z.add_0_r. exact Hf. }
      rewrite Hr. destruct (decide _) as [Heq|_]; [|eauto].
      exists false, st. split; [reflexivity|]. split; [eauto|reflexivity]. }
    destruct Hstep as (changed & st1 & -> & (f1 & Hf1 & Hhash & Hkept) & Hframe).
    unfold bind at 1, print, emit at 1.
    match goal with
    | |- context [bind _ _ ?st0] => set (st2 := st0)
    end.
    assert (Hfiles2 : files st2 = files st1) by reflexivity.
    destruct (IH (index + 1) st2 ltac:(lia)) as (st' & Hrun & Hframe' & Hparts).
    { intros j f Hj Hf. apply (Hreadable (S j) f ltac:(simpl; lia)).
      rewrite Hfiles2, Hframe in Hf.
      - rewrite <- Hf. do 3 f_equal. lia.
      - apply chunk_path_ne; lia. }
    exists st'. unfold bind at 1. rewrite Hrun. unfold ret.
    split; [|split].
    + cbn [length seq map]. rewrite Z.add_0_r.
      rewrite <- seq_shift, map_map. subst here. do 3 f_equal. apply map_ext.
      intros j. f_equal. f_equal. lia.
    + intros q Hq. rewrite Hframe', Hfiles2, Hframe.
      * reflexivity.
      * specialize (Hq O ltac:(simpl; lia)). rewrite Z.add_0_r in Hq. exact Hq.
      * intros j Hj. specialize (Hq (S j) ltac:(simpl; lia)).
        replace (index + 1 + Z.of_nat j) with (index + Z.of_nat (S j)) by lia.
        exact Hq.
    + intros [|j] pl Hj.
      * injection Hj as <-. exists f1. rewrite Z.add_0_r.
        split; [|split; [exact Hhash|exact Hkept]].
        rewrite Hframe', Hfiles2; [exact Hf1|].
        intros j Hj. apply chunk_path_ne; lia.
      * destruct (Hparts j pl Hj) as (f & Hf & Hh & Hk). exists f.
        replace (index + Z.of_nat (S j)) with (index + 1 + Z.of_nat j) by lia.
        split; [exact Hf|]. split; [exact Hh|].
        destruct Hk as [Hk|Hk]; [left; exact Hk|right].
        rewrite Hfiles2, Hframe in Hk; [exact Hk|].
        apply chunk_path_ne; lia.
Qed.

End Checksum.

(** ** Clearing an output directory *)

Lemma elem_of_listdir d name st :
  name ∈ listdir d st <-> is_Some (files st !! (d, name)).
Proof.
  unfold listdir. rewrite list_elem_of_omap. split.
  - intros ([p f] & Hin & Hsel). apply elem_of_map_to_list in Hin.
    destruct (decide (p.1 = d)) as [<-|]; [|discriminate].
    injection Hsel as <-. destruct p. eauto.
  - intros [f Hf]. exists ((d, name), f). split.
    + apply elem_of_map_to_list. exact Hf.
    + simpl. rewrite decide_True by reflexivity. reflexivity.
Qed.

Lemma for_each_unlink_exact d : forall names st,
  exists st',
    for_each names (fun name => unlink (d, name)) st = (Returns tt, st')
    /\ clock st' = clock st
    /\ forall q, files st' !! q
                 = if bool_decide (q.1 = d /\ q.2 ∈ names) then None
                   else files st !! q.
Proof.
  induction names as [|name names IH]; intros st.
  - exists st. split; [reflexivity|]. split; [reflexivity|]. intros q.
    rewrite bool_decide_eq_false_2; [reflexivity|].
    intros [_ Hin]. inversion Hin.
  - cbn [for_each]. unfold bind, unlink at 1.
    match goal with
    | |- context [for_each names _ ?st1] =>
        destruct (IH st1) as (st' & -> & Hclock & Hfiles)
    end.
    exists st'. split; [reflexivity|]. split; [exact Hclock|]. intros q.
    rewrite Hfiles. cbn [files].
    destruct (decide (q.1 = d /\ q.2 ∈ names)) as [Hin|Hout].
    + rewrite !bool_decide_eq_true_2; [reflexivity| |exact Hin].
      destruct Hin. split; [assumption|]. apply elem_of_cons. auto.
    + rewrite (bool_decide_eq_false_2 _ Hout).
      destruct (decide ((d, name) = q)) as [<-|Hne].
      * rewrite lookup_delete_eq. rewrite bool_decide_eq_true_2; [reflexivity|].
        split; [reflexivity|]. apply elem_of_cons. auto.
      * rewrite lookup_delete_ne by exact Hne.
        rewrite bool_decide_eq_false_2; [reflexivity|].
        intros [Hd Hin]. apply elem_of_cons in Hin as [Hhere|Hin].
        -- apply Hne. destruct q. simpl in *. congruence.
        -- apply Hout. auto.
Qed.

Lemma clear_existing_files_exact d : forall patterns st,
  exists st',
    clear_existing_files d patterns st = (Returns tt, st')
    /\ clock st' = clock st
    /\ forall q, files st' !! q
                 = if cleared d patterns q then None else files st !! q.
Proof.
  unfold clear_existing_files.
  induction patterns as [|pattern patterns IH]; intros st.
  - exists st. split; [reflexivity|]. split; [reflexivity|]. intros q.
    unfold cleared. simpl. rewrite andb_false_r. reflexivity.
  - cbn [for_each]. unfold bind at 1. unfold bind at 1, glob at 1.
    match goal with
    | |- context [for_each ?names (fun name => unlink (d, name)) st] =>
        destruct (for_each_unlink_exact d names st) as (st1 & -> & Hclock1 & Hfiles1)
    end.
    destruct (IH st1) as (st' & -> & Hclock & Hfiles).
    exists st'. split; [reflexivity|]. split; [congruence|]. intros q.
    rewrite Hfiles, Hfiles1. unfold cleared. cbn [existsb].
    destruct (decide (q.1 = d)) as [Hd|Hd].
    2:{ rewrite !(bool_decide_eq_false_2 (q.1 = d)) by exact Hd. simpl.
        rewrite bool_decide_eq_false_2; [reflexivity|]. intros [? _]. contradiction. }
    rewrite (bool_decide_eq_true_2 (q.1 = d)) by exact Hd. simpl.
    destruct (existsb (fun pattern0 => glob_match pattern0 q.2) patterns);
      [rewrite orb_true_r; reflexivity|rewrite orb_false_r].
    destruct (glob_match pattern q.2) eqn:Hmatch.
    + destruct (files st !! q) as [f|] eqn:Hq.
      * rewrite bool_decide_eq_true_2; [reflexivity|]. split; [exact Hd|].
        apply list_elem_of_filter. split; [exact Hmatch|].
        apply elem_of_listdir. destruct q. simpl in *. subst. eauto.
      * destruct (bool_decide _); reflexivity.
    + rewrite bool_decide_eq_false_2; [reflexivity|].
      intros [_ Hin]. apply list_elem_of_filter in Hin as [Hm _]. congruence.
Qed.

Lemma prepare_output_dir_run (d : pystr) (patterns : list pystr) (st : state) :
  exists st',
    prepare_output_dir d patterns st = (Returns tt, st')
    /\ clock st' = clock st
    /\ forall q, files st' !! q
                 = if cleared d patterns q then None else files st !! q.
Proof.
  unfold prepare_output_dir, bind, mkdir, emit at 1.
  match goal with
  | |- context [clear_existing_files d patterns ?st0] =>
      destruct (clear_existing_files_exact d patterns st0)
        as (st' & -> & Hclock & Hfiles)
  end.
  exists st'. split; [reflexivity|]. split; [exact Hclock|exact Hfiles].
Qed.

(** A literal pattern of which [*] is the only wildcard. *)
Ltac literal_pattern :=
  split; [intros Heq; vm_compute in Heq; discriminate Heq|];
  split; [intros Heq; vm_compute in Heq; discriminate Heq|];
  split; [intros Heq; vm_compute in Heq; discriminate Heq|];
  split; [literal_chars|vm_compute; reflexivity].

(** X7.  For patterns of which [*] is the only wildcard,
    [prepare_output_dir d patterns] returns, and leaves exactly the files
    it found, less those of [d] whose name matches one of the patterns. *)
Theorem prepare_output_dir_spec (d : pystr) (patterns : list pystr) (st : state) :
  Forall glob_plain patterns ->
  exists st',
    prepare_output_dir d patterns st = (Returns tt, st')
    /\ clock st' = clock st
    /\ forall q, files st' !! q
                 = if cleared d patterns q then None else files st !! q.
Proof. intros _. exact (prepare_output_dir_run d patterns st). Qed.

Lemma prepare_output_dir_spec_witness :
  let stale : path := (lit "out", lit "doc_part_1_of_2.html") in
  let other : path := (lit "out", lit "notes.txt") in
  let st := {| files := {[ stale := File (lit "a") 1 true;
                           other := File (lit "b") 1 true ]};
               clock := 2; trace := [] |} in
  let st' := (prepare_output_dir (lit "out")
                [lit "doc.html"; lit "doc_part_*.html"] st).2 in
  files st' !! stale = None /\ files st' !! other = Some (File (lit "b") 1 true).
Proof.
  intros stale other st st'.
  destruct (prepare_output_dir_spec (lit "out")
              [lit "doc.html"; lit "doc_part_*.html"] st)
    as (st1 & Hrun & _ & Hfiles).
  - apply List.Forall_cons; [literal_pattern|].
    apply List.Forall_cons; [literal_pattern|]. apply List.Forall_nil.
  - subst st'. rewrite Hrun. cbn [snd]. rewrite !Hfiles.
    split; vm_compute; reflexivity.
Defined.

(** ** The part writer of the file splitters *)

Lemma _write_chunks_run {H : Hasher} (p : path) (extension : pystr)
    (payload_list : list (list Z)) (st : state) :
  let parts := parts_of payload_list in
  let n := len parts in
  (forall (j : nat) f, (j < length parts)%nat ->
     files st !! part_path p extension n j = Some f -> f_readable f = true) ->
  exists st',
    _write_chunks p extension payload_list st
    = (Returns (map (part_path p extension n) (seq 0 (length parts))), st')
    /\ (forall q, (forall j, (j < length parts)%nat ->
                     q <> part_path p extension n j) ->
                  files st' !! q = files st !! q)
    /\ (forall j payload, parts !! j = Some payload ->
          exists f, files st' !! part_path p extension n j = Some f
                    /\ sha256_bytes (f_data f) = sha256_bytes payload
                    /\ (f_data f = payload
                        \/ files st !! part_path p extension n j = Some f)).
Proof.
  intros parts n Hreadable.
  assert (Hn : (match payload_list with [] => 1 | _ :: _ => len payload_list end) = n).
  { subst n parts. destruct payload_list; reflexivity. }
  unfold _write_chunks. rewrite Hn. fold (parts_of payload_list). fold parts.
  destruct (_write_chunks_from_spec p.1 (stem p.2) extension n parts 1 st)
    as (st' & Hrun & Hframe & Hparts); [lia| |].
  { intros j f Hj Hf. apply (Hreadable j f Hj).
    unfold part_path. rewrite <- Hf. do 3 f_equal. lia. }
  assert (Hpath : forall j, (p.1, chunk_file_name (stem p.2) (1 + Z.of_nat j) n extension)
                            = part_path p extension n j).
  { intros j. unfold part_path. do 2 f_equal. lia. }
  exists st'. split; [|split].
  - rewrite Hrun. do 2 f_equal. apply map_ext. exact Hpath.
  - intros q Hq. apply Hframe. intros j Hj. rewrite Hpath. apply Hq. exact Hj.
  - intros j payload Hj. rewrite <- Hpath. apply Hparts. exact Hj.
Qed.

(** X8.  [_write_chunks] returns unless a part file it has to compare with
    cannot be read.  It returns the part paths in order, named
    [<stem>_part_<j+1>_of_<n><extension>] beside [p]; afterwards each
    part file has the digest of its payload, and no other file has
    changed. *)
Theorem _write_chunks_spec {H : Hasher} (p : path) (extension : pystr)
    (payload_list : list (list Z)) (st : state) :
  let parts := parts_of payload_list in
  let n := len parts in
  (forall (j : nat) f, (j < length parts)%nat ->
     files st !! part_path p extension n j = Some f -> f_readable f = true) ->
  exists st',
    _write_chunks p extension payload_list st
    = (Returns (map (part_path p extension n) (seq 0 (length parts))), st')
    /\ (forall q, (forall j, (j < length parts)%nat ->
                     q <> part_path p extension n j) ->
                  files st' !! q = files st !! q)
    /\ (forall j payload, parts !! j = Some payload ->
          exists f, files st' !! part_path p extension n j = Some f
                    /\ sha256_bytes (f_data f) = sha256_bytes payload).
Proof.
  intros parts n Hreadable.
  destruct (_write_chunks_run p extension payload_list st Hreadable)
    as (st' & Hrun & Hframe & Hparts).
  exists st'. split; [exact Hrun|]. split; [exact Hframe|].
  intros j payload Hj. destruct (Hparts j payload Hj) as (f & Hf & Hhash & _).
  exists f. split; assumption.
Qed.

Lemma _write_chunks_spec_witness :
  let p : path := ([111], [100; 46; 109; 100]) in
  let st := {| files := ∅; clock := 4; trace := [] |} in
  exists st',
    @_write_chunks identity_hasher p [46; 109; 100] [[104; 105]; [33]] st
    = (Returns [part_path p [46; 109; 100] 2 0; part_path p [46; 109; 100] 2 1], st')
    /\ (exists f, files st' !! part_path p [46; 109; 100] 2 1 = Some f
                  /\ @sha256_bytes identity_hasher (f_data f)
                     = @sha256_bytes identity_hasher [33]).
Proof.
  intros p st.
  destruct (@_write_chunks_spec identity_hasher p [46; 109; 100]
              [[104; 105]; [33]] st) as (st' & Hrun & _ & Hparts).
  - intros j f _ Hf. unfold st in Hf. cbn [files] in Hf. rewrite lookup_empty in Hf. discriminate.
  - exists st'. split; [exact Hrun|]. exact (Hparts 1%nat [33] eq_refl).
Defined.

(** ** Glob patterns and chunk names *)

Lemma glob_match_star_nil pattern :
  glob_match (42 :: pattern) [] = glob_match pattern [] || false.
Proof. reflexivity. Qed.

Lemma glob_match_star_cons pattern c rest :
  glob_match (42 :: pattern) (c :: rest)
  = glob_match pattern (c :: rest) || glob_match (42 :: pattern) rest.
Proof. reflexivity. Qed.

Lemma glob_match_star_here pattern name :
  glob_match pattern name = true -> glob_match (42 :: pattern) name = true.
Proof.
  intros Hm. destruct name.
  - rewrite glob_match_star_nil, Hm. reflexivity.
  - rewrite glob_match_star_cons, Hm. reflexivity.
Qed.

Lemma glob_match_star_skip pattern name : forall junk,
  glob_match pattern name = true ->
  glob_match (42 :: pattern) (junk ++ name) = true.
Proof.
  induction junk as [|c junk IH]; intros Hm.
  - apply glob_match_star_here. exact Hm.
  - change ((c :: junk) ++ name) with (c :: (junk ++ name)).
    rewrite glob_match_star_cons, (IH Hm). apply orb_true_r.
Qed.

Lemma glob_match_prefix pattern name : forall l,
  glob_match pattern name = true ->
  glob_match (l ++ pattern) (l ++ name) = true.
Proof.
  induction l as [|c l IH]; intros Hm; [exact Hm|].
  change ((c :: l) ++ pattern) with (c :: (l ++ pattern)).
  change ((c :: l) ++ name) with (c :: (l ++ name)).
  destruct (Z.eqb_spec c 42) as [->|Hne].
  - rewrite glob_match_star_cons.
    rewrite (glob_match_star_here _ _ (IH Hm)). apply orb_true_r.
  - cbn [glob_match]. destruct (Z.eqb_spec c 42); [contradiction|].
    rewrite Z.eqb_refl. apply IH. exact Hm.
Qed.

Lemma glob_match_refl l : glob_match l l = true.
Proof.
  rewrite <- (app_nil_r l) at 1. rewrite <- (app_nil_r l) at 2.
  apply glob_match_prefix. reflexivity.
Qed.

Lemma glob_match_part_star base ext index total :
  glob_match (base ++ part_tag ++ 42 :: ext)
    (chunk_file_name base index total ext) = true.
Proof.
  unfold chunk_file_name.
  apply glob_match_prefix. apply glob_match_prefix.
  rewrite !app_assoc. apply glob_match_star_skip. apply glob_match_refl.
Qed.

Lemma glob_match_part_of_star base ext index total :
  glob_match (base ++ part_tag ++ 42 :: of_tag ++ 42 :: ext)
    (chunk_file_name base index total ext) = true.
Proof.
  unfold chunk_file_name.
  apply glob_match_prefix. apply glob_match_prefix.
  apply glob_match_star_skip. apply glob_match_prefix.
  apply glob_match_star_skip. apply glob_match_refl.
Qed.

(** ** The HTML generator *)

Lemma length_enumerate {A} (xs : list A) : forall i, length (enumerate i xs) = length xs.
Proof. induction xs as [|x xs IH]; intros i; simpl; [reflexivity|]. rewrite IH. reflexivity. Qed.

Lemma lookup_enumerate {A} (xs : list A) : forall i (k : nat),
  enumerate i xs !! k = (fun x => (i + Z.of_nat k, x)) <$> xs !! k.
Proof.
  induction xs as [|x xs IH]; intros i k; [reflexivity|].
  destruct k as [|k]; simpl.
  - rewrite Z.add_0_r. reflexivity.
  - rewrite IH. destruct (xs !! k); simpl; [|reflexivity].
    do 2 f_equal. lia.
Qed.

(** The paths [write_chunks_from] returns. *)
Lemma write_chunks_from_paths dest base ext total kind :
  forall payloads index st,
  (write_chunks_from dest base ext total index payloads
     (Some (fun p => print (ChunkWritten kind p))) st).1
  = Returns (map (fun j => (dest, chunk_file_name base (index + Z.of_nat j) total ext))
               (seq 0 (length payloads))).
Proof.
  induction payloads as [|payload rest IH]; intros index st; [reflexivity|].
  rewrite write_chunks_from_cons.
  specialize (IH (index + 1)
                (after_chunk_write (dest, chunk_file_name base index total ext)
                   payload kind st)).
  destruct (write_chunks_from dest base ext total (index + 1) rest _ _)
    as [[paths|e|] st']; cbn [fst] in *; try discriminate.
  injection IH as ->. cbn [length seq map]. rewrite Z.add_0_r. do 2 f_equal.
  rewrite <- seq_shift, map_map. apply map_ext. intros j. do 2 f_equal. lia.
Qed.

Lemma aggregate_name_ne base ext index total :
  match ext with c :: _ => c <> 95 | [] => True end ->
  base ++ ext <> chunk_file_name base index total ext.
Proof.
  intros Hext Heq. unfold chunk_file_name in Heq.
  apply app_inv_head in Heq. destruct ext as [|c ext]; [discriminate|].
  injection Heq as Hc _. contradiction.
Qed.

Lemma html_generate_run (aggregate_payload dest_dir base_name label : pystr)
    (chunk_char_limit : Z) (source_url : option pystr) (st : state) :
  1 <= chunk_char_limit ->
  exists html_chunks st',
    split_text_on_newlines aggregate_payload chunk_char_limit = Some html_chunks
    /\ html_format.generate aggregate_payload dest_dir base_name label
         chunk_char_limit source_url st
       = (Returns
            {| aggregate_path := (dest_dir, base_name ++ lit ".html");
               chunk_manifest :=
                 {| total_parts := len html_chunks;
                    part_paths :=
                      map (html_chunk_path dest_dir base_name (len html_chunks))
                          (seq 0 (length html_chunks)) |} |}, st')
    /\ (exists f, files st' !! (dest_dir, base_name ++ lit ".html") = Some f
                  /\ f_data f = aggregate_payload)
    /\ (forall (j : nat) html_part, html_chunks !! j = Some html_part ->
          exists f,
            files st' !! html_chunk_path dest_dir base_name (len html_chunks) j
            = Some f
            /\ f_data f = html_chunk_payload source_url label (Z.of_nat j + 1)
                            (len html_chunks) html_part)
    /\ (forall q,
          q <> (dest_dir, base_name ++ lit ".html") ->
          (forall j, (j < length html_chunks)%nat ->
             q <> html_chunk_path dest_dir base_name (len html_chunks) j) ->
          files st' !! q
          = if cleared dest_dir (html_patterns base_name) q then None
            else files st !! q).
Proof.
  intros Hlimit.
  destruct (split_text_on_newlines_total aggregate_payload chunk_char_limit Hlimit)
    as [html_chunks Hsplit].
  exists html_chunks.
  unfold html_format.generate. unfold bind at 1.
  destruct (prepare_output_dir_run dest_dir (html_patterns base_name) st)
    as (st1 & Hprep & _ & Hfiles1).
  unfold html_patterns in Hprep. rewrite Hprep.
  unfold bind at 1, write at 1. unfold bind at 1, print, emit at 1.
  unfold bind at 1, lift at 1. rewrite Hsplit. cbn [of_fuel].
  unfold write_chunks. unfold bind at 1. unfold bind at 1.
  set (payloads := map _ (enumerate 1 html_chunks)).
  match goal with
  | |- context [write_chunks_from _ _ _ _ _ _ _ ?st0] => set (st3 := st0)
  end.
  assert (Hlen : length payloads = length html_chunks)
    by (subst payloads; rewrite length_map, length_enumerate; reflexivity).
  assert (Hlookup : forall (j : nat) html_part, html_chunks !! j = Some html_part ->
            payloads !! j
            = Some (html_chunk_payload source_url label (Z.of_nat j + 1)
                      (len html_chunks) html_part)).
  { intros j part Hj. subst payloads.
    rewrite list_lookup_fmap, lookup_enumerate, Hj. simpl.
    do 2 f_equal. lia. }
  assert (Hpath : forall j,
            (dest_dir, chunk_file_name base_name (1 + Z.of_nat j) (len payloads)
                         (lit ".html"))
            = html_chunk_path dest_dir base_name (len html_chunks) j).
  { intros j. unfold html_chunk_path, len. rewrite Hlen. do 2 f_equal. lia. }
  pose proof (write_chunks_from_paths dest_dir base_name (lit ".html")
                (len payloads) (lit "HTML") payloads 1 st3) as Hpaths.
  pose proof (write_chunks_from_clock dest_dir base_name (lit ".html")
                (len payloads) (lit "HTML") payloads 1 st3) as (_ & _ & Hframe).
  pose proof (write_chunks_from_rewrites dest_dir base_name (lit ".html")
                (len payloads) (lit "HTML") payloads 1 st3) as Hparts.
  destruct (write_chunks_from dest_dir base_name (lit ".html") (len payloads) 1
              payloads _ st3) as [r st'].
  cbn [fst snd] in *. subst r. exists st'. unfold ret.
  assert (Hagg : files st3 !! (dest_dir, base_name ++ lit ".html")
                 = Some {| f_data := aggregate_payload; f_mtime := clock st1;
                           f_readable :=
                             match files st1 !! (dest_dir, base_name ++ lit ".html") with
                             | Some f => f_readable f
                             | None => true
                             end |})
    by (subst st3; cbn [files]; apply lookup_insert_eq).
  split; [reflexivity|]. split; [|split; [|split]].
  - rewrite Hlen. do 3 f_equal. f_equal.
    + unfold len. rewrite Hlen. reflexivity.
    + apply map_ext. exact Hpath.
  - eexists. split; [rewrite Hframe; [exact Hagg|]|reflexivity].
    intros j _ [= Heq]. revert Heq. apply aggregate_name_ne.
    intros [=].
  - intros j part Hj.
    destruct (Hparts j _ ltac:(lia) (Hlookup j part Hj)) as (f & Hf & Hdata & _).
    exists f. rewrite <- Hpath. split; assumption.
  - intros q Hagg' Hq. rewrite Hframe.
    + subst st3. cbn [files]. rewrite lookup_insert_ne by congruence.
      apply Hfiles1.
    + intros j Hj. rewrite Hpath. apply Hq. lia.
Qed.

(** ** Stripping *)

Lemma lstrip_cons_keep c s : is_space c = false -> lstrip (c :: s) = c :: s.
Proof. intros Hc. simpl. rewrite Hc. reflexivity. Qed.

Lemma lstrip_head s : match lstrip s with [] => True | c :: _ => is_space c = false end.
Proof.
  induction s as [|c s IH]; simpl; [exact I|].
  destruct (is_space c) eqn:Hc; [exact IH|exact Hc].
Qed.

Lemma lstrip_app_keep x y : lstrip x <> [] -> lstrip (x ++ y) = lstrip x ++ y.
Proof.
  induction x as [|c x IH]; simpl; [congruence|].
  destruct (is_space c); [exact IH|reflexivity].
Qed.

Lemma lstrip_app_blank x y : lstrip x = [] -> lstrip (x ++ y) = lstrip y.
Proof.
  induction x as [|c x IH]; simpl; [reflexivity|].
  destruct (is_space c); [exact IH|discriminate].
Qed.

Lemma lstrip_idem s : lstrip (lstrip s) = lstrip s.
Proof.
  pose proof (lstrip_head s) as Hh. destruct (lstrip s) as [|c t]; [reflexivity|].
  apply lstrip_cons_keep. exact Hh.
Qed.

Lemma rstrip_app_keep a b : rstrip b <> [] -> rstrip (a ++ b) = a ++ rstrip b.
Proof.
  unfold rstrip. intros Hb. rewrite rev_app_distr.
  rewrite lstrip_app_keep.
  - rewrite rev_app_distr, rev_involutive. reflexivity.
  - intros Hnil. apply Hb. rewrite Hnil. reflexivity.
Qed.

Lemma rstrip_app_blank a b : rstrip b = [] -> rstrip (a ++ b) = rstrip a.
Proof.
  unfold rstrip. intros Hb. rewrite rev_app_distr.
  rewrite lstrip_app_blank; [reflexivity|].
  apply (f_equal (@rev Z)) in Hb. rewrite rev_involutive in Hb. exact Hb.
Qed.

Lemma rstrip_snoc_keep s c : is_space c = false -> rstrip (s ++ [c]) = s ++ [c].
Proof.
  intros Hc.
  assert (Hkeep : rstrip [c] = [c]) by (unfold rstrip; simpl; rewrite Hc; reflexivity).
  rewrite rstrip_app_keep; rewrite Hkeep; [reflexivity|discriminate].
Qed.

Lemma rstrip_idem s : rstrip (rstrip s) = rstrip s.
Proof.
  unfold rstrip. rewrite rev_involutive, lstrip_idem. reflexivity.
Qed.

(** [rstrip] does not touch the head of a string that starts with a
    character that is not blank. *)
Lemma rstrip_cons_keep c s :
  is_space c = false -> exists t, rstrip (c :: s) = c :: t.
Proof.
  intros Hc. change (c :: s) with ([c] ++ s).
  destruct (rstrip s) as [|d t] eqn:Hs.
  - rewrite rstrip_app_blank by exact Hs. exists [].
    unfold rstrip. simpl. rewrite Hc. reflexivity.
  - rewrite rstrip_app_keep by congruence. rewrite Hs. eauto.
Qed.

Lemma strip_idem s : strip (strip s) = strip s.
Proof.
  unfold strip.
  pose proof (lstrip_head s) as Hh.
  destruct (lstrip s) as [|c t] eqn:Hl; [reflexivity|].
  destruct (rstrip_cons_keep c t Hh) as [u Hu].
  rewrite Hu. rewrite lstrip_cons_keep by exact Hh. rewrite <- Hu.
  apply rstrip_idem.
Qed.

(** ** The source URL comment *)

Section SourceUrl.
Context {U : UnicodeDigits}.

Lemma first_line_app a rest :
  Forall (fun c => is_linebreak c = false) a ->
  first_line (a ++ nl :: rest) = a.
Proof.
  induction 1 as [|c a Hc _ IH]; simpl; [reflexivity|].
  rewrite Hc, IH. reflexivity.
Qed.

Lemma ends_with_app (a suffix : pystr) : ends_with suffix (a ++ suffix) = true.
Proof.
  unfold ends_with. apply bool_decide_eq_true_2.
  unfold slice_from.
  assert (Hlen : len (a ++ suffix) = len a + len suffix)
    by (unfold len; rewrite length_app; lia).
  pose proof (len_nonneg a). pose proof (len_nonneg suffix).
  rewrite Hlen, Z.max_r by lia.
  replace (len a + len suffix - len suffix) with (len a) by lia.
  rewrite slice_in_range by lia.
  replace (Z.to_nat (len a)) with (length a) by (unfold len; lia).
  rewrite drop_app_length. apply take_ge. unfold len. lia.
Qed.

Lemma slice_to_app {A} (a suffix : list A) :
  slice_to (a ++ suffix) (len (a ++ suffix) - len suffix) = a.
Proof.
  unfold slice_to.
  assert (Hlen : len (a ++ suffix) = len a + len suffix)
    by (unfold len; rewrite length_app; lia).
  pose proof (len_nonneg a). pose proof (len_nonneg suffix).
  rewrite Hlen. replace (len a + len suffix - len suffix) with (len a) by lia.
  rewrite slice_in_range by lia.
  change (Z.to_nat 0) with 0%nat. rewrite drop_0, Z.sub_0_r.
  replace (Z.to_nat (len a)) with (length a) by (unfold len; lia).
  apply take_app_length.
Qed.

Lemma extract_source_url_comment url rest :
  Forall (fun c => is_linebreak c = false) url ->
  extract_source_url (Some (source_url_comment url ++ nl :: rest))
  = Some (strip url).
Proof.
  intros Hurl.
  set (tail := url ++ lit " -->").
  assert (Hcomment : source_url_comment url = lit "<!-- Source URL: " ++ tail)
    by reflexivity.
  unfold extract_source_url.
  rewrite Hcomment.
  change (lit "<!-- Source URL: " ++ tail)
    with (60 :: (lit "!-- Source URL: " ++ tail)) at 1.
  cbn [app].
  change (60 :: (lit "!-- Source URL: " ++ tail) ++ nl :: rest)
    with ((lit "<!-- Source URL: " ++ tail) ++ nl :: rest).
  rewrite first_line_app.
  2:{ apply Forall_app. split.
      - repeat (constructor; [reflexivity|]). constructor.
      - apply Forall_app. split; [exact Hurl|].
        repeat (constructor; [reflexivity|]). constructor. }
  assert (Hstrip : strip (lit "<!-- Source URL: " ++ tail)
                   = lit "<!-- Source URL: " ++ tail).
  { unfold strip.
    change (lit "<!-- Source URL: " ++ tail)
      with (60 :: (lit "!-- Source URL: " ++ tail)).
    rewrite lstrip_cons_keep by reflexivity.
    change (60 :: (lit "!-- Source URL: " ++ tail))
      with (lit "<!-- Source URL: " ++ tail).
    subst tail.
    change (lit " -->") with (lit " --" ++ [62]).
    rewrite !app_assoc. apply rstrip_snoc_keep. reflexivity. }
  rewrite Hstrip.
  change (lit "<!-- Source URL: " ++ tail)
    with (lit "<!--" ++ (lit " Source URL: " ++ tail)).
  rewrite strip_prefix_self.
  change (lstrip (lit " Source URL: " ++ tail))
    with (lit "Source URL:" ++ (32 :: tail)).
  rewrite strip_prefix_self.
  change (lstrip (32 :: tail)) with (lstrip tail).
  subst tail.
  destruct (lstrip url) as [|c u] eqn:Hl.
  - rewrite lstrip_app_blank by exact Hl.
    change (lstrip (lit " -->")) with ([] ++ lit "-->").
    rewrite ends_with_app.
    change (3) with (len (lit "-->")). rewrite slice_to_app.
    unfold strip. rewrite Hl. reflexivity.
  - rewrite lstrip_app_keep by congruence. rewrite Hl.
    change (lit " -->") with ([32] ++ lit "-->").
    rewrite app_assoc. rewrite ends_with_app.
    change (3) with (len (lit "-->")). rewrite slice_to_app.
    rewrite rstrip_app_blank by reflexivity.
    pose proof (lstrip_head url) as Hc. rewrite Hl in Hc.
    f_equal. unfold strip at 1.
    destruct (rstrip_cons_keep c u Hc) as [t Ht].
    rewrite Ht, lstrip_cons_keep by exact Hc. rewrite <- Ht.
    rewrite rstrip_idem. unfold strip. rewrite Hl. reflexivity.
Qed.

End SourceUrl.

(** A string that ends with a character that is not blank keeps it under
    [rstrip], whatever is appended. *)
Lemma rstrip_app_head a c y :
  is_space c = false -> exists x, rstrip ((a ++ [c]) ++ y) = (a ++ [c]) ++ x.
Proof.
  intros Hc. destruct (rstrip y) as [|d t] eqn:Hy.
  - rewrite rstrip_app_blank by exact Hy. rewrite rstrip_snoc_keep by exact Hc.
    exists []. rewrite app_nil_r. reflexivity.
  - rewrite rstrip_app_keep by congruence. eauto.
Qed.

Lemma comment_line_kept url y :
  exists rest,
    rstrip (source_url_comment url ++ nl :: y) ++ [nl]
    = source_url_comment url ++ nl :: rest.
Proof.
  assert (Hkeep : rstrip (source_url_comment url) = source_url_comment url).
  { unfold source_url_comment. change (lit " -->") with (lit " --" ++ [62]).
    rewrite !app_assoc. apply rstrip_snoc_keep. reflexivity. }
  destruct (rstrip y) as [|d t] eqn:Hy.
  - assert (Hblank : rstrip (nl :: y) = []).
    { change (nl :: y) with ([nl] ++ y). rewrite rstrip_app_blank by exact Hy.
      reflexivity. }
    rewrite rstrip_app_blank by exact Hblank. rewrite Hkeep. eauto.
  - assert (Hnl : rstrip (nl :: y) = nl :: rstrip y).
    { change (nl :: y) with ([nl] ++ y). rewrite rstrip_app_keep by congruence.
      reflexivity. }
    rewrite rstrip_app_keep by (rewrite Hnl; discriminate).
    rewrite Hnl, <- app_assoc. simpl. eauto.
Qed.

(** X9.  [extract_source_url] reads back the URL that the generators put in
    the comment at the head of an artifact: for a URL without line
    breaks and any text that follows the comment line, it returns the
    stripped URL -- in particular on every HTML and Markdown chunk
    payload built with that URL -- and it returns [None] on an HTML chunk
    payload built without one. *)
Theorem extract_source_url_roundtrip (url : pystr) :
  Forall (fun c => is_linebreak c = false) url ->
  (forall rest,
     extract_source_url (Some (source_url_comment url ++ nl :: rest))
     = Some (strip url))
  /\ (url <> [] -> forall label index total part,
        extract_source_url
          (Some (html_chunk_payload (Some url) label index total part))
        = Some (strip url)
        /\ extract_source_url
             (Some (markdown_chunk_payload (Some url) label index total part))
           = Some (strip url))
  /\ (forall label index total part,
        extract_source_url
          (Some (html_chunk_payload None label index total part)) = None).
Proof.
  intros Hurl. split; [|split].
  - intros rest. apply extract_source_url_comment. exact Hurl.
  - intros Hne label index total part.
    assert (Hsome : nonempty (Some url) = true) by (destruct url; [congruence|reflexivity]).
    split.
    + unfold html_chunk_payload. rewrite Hsome. cbn [default app join].
      change (id url) with url. rewrite <- app_assoc. cbn [app].
      match goal with
      | |- context [rstrip (source_url_comment url ++ nl :: ?y)] =>
          destruct (comment_line_kept url y) as [rest ->]
      end.
      apply extract_source_url_comment. exact Hurl.
    + unfold markdown_chunk_payload. rewrite Hsome. cbn [default app join].
      change (id url) with url. rewrite <- app_assoc. cbn [app].
      unfold strip.
      assert (Hl : forall y, lstrip (source_url_comment url ++ y)
                             = source_url_comment url ++ y).
      { intros y. unfold source_url_comment.
        change (lit "<!-- Source URL: ") with (60 :: lit "!-- Source URL: ").
        cbn [app]. apply lstrip_cons_keep. reflexivity. }
      rewrite Hl.
      match goal with
      | |- context [rstrip (source_url_comment url ++ nl :: ?y)] =>
          destruct (comment_line_kept url y) as [rest ->]
      end.
      apply extract_source_url_comment. exact Hurl.
  - intros label index total part.
    unfold html_chunk_payload. cbn [nonempty app join].
    set (y := str_of_int index ++ _).
    change (lit "<!-- HTML Chunk " ++ y) with ((lit "<!-- HTML Chun" ++ [107]) ++ 32 :: y).
    rewrite <- app_assoc.
    destruct (rstrip_app_head (lit "<!-- HTML Chun") 107
                ((32 :: y) ++ nl :: rstrip part) eq_refl) as [x ->].
    rewrite <- !app_assoc.
    change ((lit "<!-- HTML Chun" ++ [107] ++ x ++ [nl]))
      with (lit "<!-- HTML Chunk" ++ (x ++ [nl])).
    generalize (x ++ [nl]). clear. intros z.
    unfold extract_source_url.
    change (lit "<!-- HTML Chunk" ++ z) with (60 :: (lit "!-- HTML Chunk" ++ z)) at 1.
    cbn iota.
    assert (Hfirst : first_line (lit "<!-- HTML Chunk" ++ z)
                     = (lit "<!-- HTML Chun" ++ [107]) ++ first_line z)
      by reflexivity.
    rewrite Hfirst. unfold strip.
    assert (Hkeep : lstrip ((lit "<!-- HTML Chun" ++ [107]) ++ first_line z)
                    = (lit "<!-- HTML Chun" ++ [107]) ++ first_line z)
      by reflexivity.
    rewrite Hkeep.
    destruct (rstrip_app_head (lit "<!-- HTML Chun") 107 (first_line z) eq_refl)
      as [w ->].
    reflexivity.
Qed.

Lemma extract_source_url_roundtrip_witness :
  extract_source_url
    (Some (html_chunk_payload (Some (lit " https://a.b/c ")) (lit "Doc") 1 2
             (lit "<p>x</p>")))
  = Some (lit "https://a.b/c").
Proof.
  destruct (extract_source_url_roundtrip (lit " https://a.b/c ")) as (_ & Hchunk & _).
  - repeat (constructor; [reflexivity|]). constructor.
  - exact (proj1 (Hchunk ltac:(discriminate) (lit "Doc") 1 2 (lit "<p>x</p>"))).
Defined.

(** ** The order of [sorted] *)

Lemma str_leb_refl a : str_leb a a = true.
Proof.
  induction a as [|x a IH]; simpl; [reflexivity|].
  rewrite Z.eqb_refl, IH. apply orb_true_r.
Qed.

Lemma str_leb_total a : forall b, str_leb a b = true \/ str_leb b a = true.
Proof.
  induction a as [|x a IH]; intros [|y b]; simpl; auto.
  destruct (Z.lt_total x y) as [Hlt|[->|Hgt]].
  - left. apply Z.ltb_lt in Hlt. rewrite Hlt. reflexivity.
  - rewrite Z.ltb_irrefl, Z.eqb_refl. simpl. apply IH.
  - right. apply Z.ltb_lt in Hgt. rewrite Hgt. reflexivity.
Qed.

Lemma str_leb_trans a : forall b c,
  str_leb a b = true -> str_leb b c = true -> str_leb a c = true.
Proof.
  induction a as [|x a IH]; intros [|y b] [|z c]; simpl; try congruence.
  intros Hab Hbc.
  apply orb_prop in Hab. apply orb_prop in Hbc. apply orb_true_intro.
  destruct Hab as [Hxy|Hxy], Hbc as [Hyz|Hyz].
  - left. apply Z.ltb_lt in Hxy, Hyz. apply Z.ltb_lt. lia.
  - apply andb_prop in Hyz as [Hyz _]. apply Z.eqb_eq in Hyz. subst. auto.
  - apply andb_prop in Hxy as [Hxy _]. apply Z.eqb_eq in Hxy. subst. auto.
  - apply andb_prop in Hxy as [Hxy Hab]. apply andb_prop in Hyz as [Hyz Hbc].
    apply Z.eqb_eq in Hxy, Hyz. subst. right. rewrite Z.eqb_refl. simpl.
    eapply IH; eassumption.
Qed.

#[local] Instance str_le_total : Total str_le.
Proof.
  intros a b. unfold str_le.
  destruct (str_leb_total a b) as [->| ->]; simpl; auto.
Qed.

#[local] Instance str_le_trans : Transitive str_le.
Proof.
  intros a b c. unfold str_le. intros Hab Hbc.
  apply Is_true_true in Hab, Hbc. apply Is_true_true.
  eapply str_leb_trans; eassumption.
Qed.

(** ** The index of chunk files *)

Section IndexChunkFiles.
Context {U : UnicodeDigits}.

Lemma index_fold_sound k name : forall l paths,
  fold_left file_under_index l paths !! k = Some name ->
  (name ∈ l /\ (parse_chunk_indices name).1 = k /\ k <> 0)
  \/ paths !! k = Some name.
Proof.
  induction l as [|x l IH]; intros paths Hk; [right; exact Hk|].
  simpl in Hk. apply IH in Hk as [(Hin & Hidx & Hne)|Hk].
  - left. split; [apply elem_of_cons; auto|auto].
  - unfold file_under_index in Hk.
    destruct (Z.eqb_spec (parse_chunk_indices x).1 0) as [|Hx]; [right; exact Hk|].
    destruct (decide ((parse_chunk_indices x).1 = k)) as [Heq|Hneq].
    + rewrite Heq, lookup_insert_eq in Hk. injection Hk as <-.
      left. split; [apply elem_of_cons; auto|]. split; [exact Heq|congruence].
    + rewrite lookup_insert_ne in Hk by exact Hneq. right. exact Hk.
Qed.

Lemma index_fold_complete k : forall l paths,
  (is_Some (paths !! k)
   \/ exists name, name ∈ l /\ (parse_chunk_indices name).1 = k /\ k <> 0) ->
  is_Some (fold_left file_under_index l paths !! k).
Proof.
  induction l as [|x l IH]; intros paths Hk.
  - destruct Hk as [Hk|(name & Hin & _)]; [exact Hk|inversion Hin].
  - simpl. apply IH.
    destruct Hk as [Hk|(name & Hin & Hidx & Hne)].
    + left. unfold file_under_index.
      destruct (Z.eqb_spec (parse_chunk_indices x).1 0); [exact Hk|].
      destruct (decide ((parse_chunk_indices x).1 = k)) as [Heq|Hneq].
      * rewrite Heq, lookup_insert_eq. eauto.
      * rewrite lookup_insert_ne by exact Hneq. exact Hk.
    + apply elem_of_cons in Hin as [->|Hin]; [|right; eauto].
      left. unfold file_under_index.
      destruct (Z.eqb_spec (parse_chunk_indices x).1 0); [congruence|].
      rewrite Hidx, lookup_insert_eq. eauto.
Qed.

(** In a sorted list the last name filed under an index is the greatest. *)
Lemma index_fold_greatest k name : forall l paths,
  StronglySorted str_le l ->
  fold_left file_under_index l paths !! k = Some name ->
  forall other, other ∈ l -> (parse_chunk_indices other).1 = k -> k <> 0 ->
  str_le other name.
Proof.
  induction l as [|x l IH]; intros paths Hsorted Hk other Hother Hidx Hne;
    [inversion Hother|].
  apply StronglySorted_inv in Hsorted as [Hsorted Hall].
  simpl in Hk.
  apply elem_of_cons in Hother as [->|Hother]; [|eapply IH; eassumption].
  destruct (index_fold_sound k name l _ Hk) as [(Hin & _ & _)|Hhere].
  - rewrite Forall_forall in Hall. apply Hall. exact Hin.
  - unfold file_under_index in Hhere.
    destruct (Z.eqb_spec (parse_chunk_indices x).1 0); [congruence|].
    rewrite Hidx, lookup_insert_eq in Hhere. injection Hhere as <-.
    unfold str_le. rewrite str_leb_refl. exact I.
Qed.

(** X10.  [index_chunk_files]: the dictionary of chunk files by part number.
    An entry under [k] is one of the names, and its parsed index is [k],
    which is not 0; every index other than 0 that some name carries has
    an entry; among names with the same index the one that sorts last is
    kept. *)
Theorem index_chunk_files_spec (names : list pystr) (k : Z) :
  (forall name, index_chunk_files names !! k = Some name ->
     name ∈ names /\ (parse_chunk_indices name).1 = k /\ k <> 0
     /\ forall other, other ∈ names -> (parse_chunk_indices other).1 = k ->
          str_le other name)
  /\ (forall name, name ∈ names -> (parse_chunk_indices name).1 = k -> k <> 0 ->
       is_Some (index_chunk_files names !! k)).
Proof.
  assert (Hperm : forall name, name ∈ sorted names <-> name ∈ names).
  { intros name. unfold sorted. rewrite merge_sort_Permutation. reflexivity. }
  change (index_chunk_files names)
    with (fold_left file_under_index (sorted names) ∅).
  split.
  - intros name Hk.
    destruct (index_fold_sound k name _ _ Hk) as [(Hin & Hidx & Hne)|Hempty];
      [|rewrite lookup_empty in Hempty; discriminate].
    split; [apply Hperm; exact Hin|]. split; [exact Hidx|]. split; [exact Hne|].
    intros other Hother Hidx'.
    apply (index_fold_greatest k name (sorted names) ∅); try assumption.
    + apply StronglySorted_merge_sort; apply _.
    + apply Hperm. exact Hother.
  - intros name Hin Hidx Hne. apply index_fold_complete.
    right. exists name. split; [apply Hperm; exact Hin|auto].
Qed.

End IndexChunkFiles.

(** ** The text generator *)

(** What [split_text_on_newlines] returns, for any text. *)
Lemma split_text_on_newlines_sound T L chunks :
  1 <= L -> split_text_on_newlines T L = Some chunks ->
  concat chunks = T /\ Forall (fun seg => len seg <= L) chunks /\ chunks <> [].
Proof.
  intros HL Hrun. split; [|split].
  - destruct T as [|c T]; [injection Hrun as <-; reflexivity|].
    apply (split_loop_sound (c :: T) L HL _ 0) in Hrun; [|unfold len; simpl; lia].
    apply Hrun.
  - destruct T as [|c T].
    + injection Hrun as <-. constructor; [unfold len; simpl; lia|constructor].
    + apply (split_loop_sound (c :: T) L HL _ 0) in Hrun; [|unfold len; simpl; lia].
      destruct Hrun as (_ & Hall & _).
      eapply Forall_impl; [exact Hall|]. intros seg [_ Hle]. exact Hle.
  - eapply split_text_on_newlines_nonempty. exact Hrun.
Qed.

(** The closing loop of [generate_text_artifacts] finds every part under
    its expected name. *)
Lemma rename_loop_noop (g : Z -> path) (other : Z -> path -> M unit) :
  forall l i st,
  (forall (k : nat) p, l !! k = Some p -> p = g (i + Z.of_nat k)) ->
  for_each (enumerate i l)
    (fun '(index, p) => if decide (p = g index) then ret tt else other index p) st
  = (Returns tt, st).
Proof.
  induction l as [|p l IH]; intros i st Hl; [reflexivity|].
  cbn [enumerate for_each]. unfold bind.
  rewrite decide_True by (rewrite (Hl O p eq_refl); f_equal; lia).
  unfold ret at 1. apply IH.
  intros k q Hk. rewrite (Hl (S k) q Hk). f_equal. lia.
Qed.

Section TextArtifacts.
Context {C : FanoutCollaborators}.

(** X11.  [generate_text_artifacts] with a limit of at least 1, a base
    name without glob syntax and an extracted plain text that
    [write_text] can encode, returns.  The aggregate [.text] file holds
    the plain text of the HTML; the chunk files hold, in order, chunks of
    at most [chunk_char_limit] characters that concatenated are that
    plain text; the other files of the directory that match the cleared
    patterns are gone and no file besides has changed. *)
Theorem generate_text_artifacts_spec (aggregate_html text_dir base_name : pystr)
    (chunk_char_limit : Z) (st : state) :
  1 <= chunk_char_limit ->
  glob_literal base_name ->
  plain_text (extract_plain_text aggregate_html) ->
  exists text_chunks st',
    generate_text_artifacts aggregate_html text_dir chunk_char_limit base_name st
    = (Returns tt, st')
    /\ split_text_on_newlines (extract_plain_text aggregate_html)
         chunk_char_limit = Some text_chunks
    /\ concat text_chunks = extract_plain_text aggregate_html
    /\ Forall (fun chunk => len chunk <= chunk_char_limit) text_chunks
    /\ text_chunks <> []
    /\ (exists f, files st' !! (text_dir, base_name ++ lit ".text") = Some f
                  /\ f_data f = extract_plain_text aggregate_html)
    /\ (forall (j : nat) chunk, text_chunks !! j = Some chunk ->
          exists f,
            files st' !! text_chunk_path text_dir base_name (len text_chunks) j
            = Some f /\ f_data f = chunk)
    /\ (forall q,
          q <> (text_dir, base_name ++ lit ".text") ->
          (forall j, (j < length text_chunks)%nat ->
             q <> text_chunk_path text_dir base_name (len text_chunks) j) ->
          files st' !! q
          = if cleared text_dir (text_patterns base_name) q then None
            else files st !! q).
Proof.
  intros Hlimit _ _.
  destruct (split_text_on_newlines_total (extract_plain_text aggregate_html)
              chunk_char_limit Hlimit) as [chunks Hsplit].
  destruct (split_text_on_newlines_sound _ _ _ Hlimit Hsplit) as (Hcat & Hall & Hne).
  exists chunks.
  unfold generate_text_artifacts. unfold bind at 1.
  destruct (prepare_output_dir_run text_dir (text_patterns base_name) st)
    as (st1 & Hprep & _ & Hfiles1).
  unfold text_patterns in Hprep. rewrite Hprep.
  unfold bind at 1, write at 1. unfold bind at 1, print, emit at 1.
  unfold bind at 1, lift at 1. rewrite Hsplit. cbn [of_fuel].
  unfold write_chunks. unfold bind at 1. unfold bind at 1.
  match goal with
  | |- context [write_chunks_from _ _ _ _ _ _ _ ?st0] => set (st3 := st0)
  end.
  assert (Hpath : forall j,
            (text_dir, chunk_file_name base_name (1 + Z.of_nat j) (len chunks)
                         (lit ".txt"))
            = text_chunk_path text_dir base_name (len chunks) j).
  { intros j. unfold text_chunk_path. do 2 f_equal. lia. }
  pose proof (write_chunks_from_paths text_dir base_name (lit ".txt")
                (len chunks) (lit "Text") chunks 1 st3) as Hpaths.
  pose proof (write_chunks_from_clock text_dir base_name (lit ".txt")
                (len chunks) (lit "Text") chunks 1 st3) as (_ & _ & Hframe).
  pose proof (write_chunks_from_rewrites text_dir base_name (lit ".txt")
                (len chunks) (lit "Text") chunks 1 st3) as Hparts.
  destruct (write_chunks_from text_dir base_name (lit ".txt") (len chunks) 1
              chunks _ st3) as [r st'].
  cbn [fst snd] in *. subst r. exists st'. unfold ret at 1.
  cbn [part_paths total_parts].
  rewrite (rename_loop_noop
             (fun index => (text_dir, chunk_file_name base_name index (len chunks)
                                        (lit ".txt")))).
  2:{ intros k p Hk. rewrite list_lookup_fmap in Hk.
      destruct (seq 0 (length chunks) !! k) as [j|] eqn:Hj; [|discriminate].
      apply lookup_seq in Hj as [-> _]. injection Hk as <-. reflexivity. }
  assert (Hagg : files st3 !! (text_dir, base_name ++ lit ".text")
                 = Some {| f_data := extract_plain_text aggregate_html;
                           f_mtime := clock st1;
                           f_readable :=
                             match files st1 !! (text_dir, base_name ++ lit ".text") with
                             | Some f => f_readable f
                             | None => true
                             end |})
    by (subst st3; cbn [files]; apply lookup_insert_eq).
  split; [reflexivity|]. split; [reflexivity|].
  split; [exact Hcat|]. split; [exact Hall|].
  split; [exact Hne|]. split; [|split].
  - eexists. split; [rewrite Hframe; [exact Hagg|]|reflexivity].
    intros j _ [= Heq]. revert Heq. unfold chunk_file_name.
    intros Heq. apply app_inv_head in Heq. discriminate.
  - intros j chunk Hj.
    destruct (Hparts j _ ltac:(lia) Hj) as (f & Hf & Hdata & _).
    exists f. rewrite <- Hpath. split; assumption.
  - intros q Hagg' Hq. rewrite Hframe.
    + subst st3. cbn [files]. rewrite lookup_insert_ne by congruence.
      apply Hfiles1.
    + intros j Hj. rewrite Hpath. apply Hq. lia.
Qed.

End TextArtifacts.

Lemma generate_text_artifacts_spec_witness :
  let stale : path := (lit "text", lit "doc_part_1_of_9.txt") in
  let other : path := (lit "text", lit "notes.md") in
  let st := {| files := {[ stale := File (lit "old") 1 true;
                           other := File (lit "n") 1 true ]};
               clock := 2; trace := [] |} in
  exists st',
    generate_text_artifacts (C := toy_collaborators) (lit "a
b") (lit "text") 2
      (lit "doc") st = (Returns tt, st')
    /\ (exists f, files st' !! (lit "text", lit "doc.text") = Some f
                  /\ f_data f = lit "a
b")
    /\ (exists f, files st' !! (lit "text", lit "doc_part_1_of_2.txt") = Some f
                  /\ f_data f = lit "a
")
    /\ (exists f, files st' !! (lit "text", lit "doc_part_2_of_2.txt") = Some f
                  /\ f_data f = lit "b")
    /\ files st' !! stale = None
    /\ files st' !! other = Some (File (lit "n") 1 true).
Proof.
  intros stale other st.
  destruct (generate_text_artifacts_spec (C := toy_collaborators) (lit "a
b")
              (lit "text") (lit "doc") 2 st)
    as (chunks & st' & Hrun & Hsplit & _ & _ & _ & Hagg & Hparts & Hframe).
  - lia.
  - literal_chars.
  - literal_chars.
  - assert (Hchunks : chunks = [lit "a
"; lit "b"])
      by (vm_compute in Hsplit; injection Hsplit as <-; reflexivity).
    subst chunks. exists st'. split; [exact Hrun|]. split; [exact Hagg|].
    split; [exact (Hparts 0%nat _ eq_refl)|].
    split; [exact (Hparts 1%nat _ eq_refl)|].
    split; (rewrite Hframe;
            [vm_compute; reflexivity
            |intros Heq; vm_compute in Heq; discriminate Heq
            |intros [|[|j]] Hj Heq; vm_compute in Heq;
             [discriminate Heq|discriminate Heq|simpl in Hj; lia]]).
Defined.



(** ** Chunk files of the HTML generator *)

(** X12.  Every chunk name of [base] with extension [ext], whatever its index
    and total, matches the pattern [<base>_part_*<ext>] that the
    generators clear before they write, and the pattern
    [<base>_part_*_of_*<ext>] by which the JSON and PDF generators look
    for chunk files.  (The matcher of the model takes every character
    but [*] literally, which is what [Path.glob] does for a base name
    and an extension without glob syntax.) *)
Theorem chunk_names_match_globs (base ext : pystr) (index total : Z) :
  glob_literal base -> glob_literal ext ->
  glob_match (base ++ lit "_part_*" ++ ext)
    (chunk_file_name base index total ext) = true
  /\ glob_match (base ++ lit "_part_*_of_*" ++ ext)
       (chunk_file_name base index total ext) = true.
Proof.
  intros _ _. split.
  - apply glob_match_part_star.
  - apply glob_match_part_of_star.
Qed.

Lemma chunk_names_match_globs_witness :
  glob_match (lit "doc_part_*.html") (chunk_file_name (lit "doc") 3 12 (lit ".html"))
  = true
  /\ glob_match (lit "doc_part_*_of_*.html")
       (chunk_file_name (lit "doc") 3 12 (lit ".html")) = true.
Proof.
  apply (chunk_names_match_globs (lit "doc") (lit ".html") 3 12);
    repeat (constructor; [repeat split; discriminate|]); constructor.
Defined.

Lemma chunk_name_cleared dest base index total :
  cleared dest (html_patterns base)
    (dest, chunk_file_name base index total (lit ".html")) = true.
Proof.
  unfold cleared, html_patterns. cbn [fst snd existsb].
  rewrite bool_decide_eq_true_2 by reflexivity.
  change (base ++ lit "_part_*.html") with (base ++ part_tag ++ 42 :: lit ".html").
  rewrite glob_match_part_star.
  rewrite orb_true_r. reflexivity.
Qed.

(** The dictionary built by a loop [for index, x in enumerate(xs, i):
    chunks[index] = g(index, x)]. *)
Lemma fold_insert_enumerate {A} (g : Z -> A -> pystr) : forall xs i (m : gmap Z pystr),
  (forall (j : nat) x, xs !! j = Some x ->
     fold_left (fun chunks '(index, payload) => <[index := g index payload]> chunks)
       (enumerate i xs) m !! (i + Z.of_nat j) = Some (g (i + Z.of_nat j) x))
  /\ (forall k, k < i \/ i + len xs <= k ->
        fold_left (fun chunks '(index, payload) => <[index := g index payload]> chunks)
          (enumerate i xs) m !! k = m !! k).
Proof.
  induction xs as [|x xs IH]; intros i m.
  - split; [intros j y Hj; rewrite lookup_nil in Hj; discriminate|reflexivity].
  - destruct (IH (i + 1) (<[i := g i x]> m)) as [IHin IHout].
    cbn [enumerate fold_left]. split.
    + intros [|j] y Hj.
      * injection Hj as <-. rewrite Z.add_0_r.
        rewrite IHout by lia. apply lookup_insert_eq.
      * replace (i + Z.of_nat (S j)) with (i + 1 + Z.of_nat j) by lia.
        apply IHin. exact Hj.
    + intros k Hk. unfold len in Hk. simpl length in Hk.
      rewrite IHout by (unfold len; lia).
      apply lookup_insert_ne. lia.
Qed.

(** X13.  [formats/html.generate] with a limit of at least 1, a base name
    without glob syntax, and a payload, label and source URL that
    [write_text] can encode, returns the aggregate path and a manifest of
    the chunk paths in order, one per chunk of the splitter; the
    aggregate file holds the payload as given, and the file of chunk
    [j + 1] holds the payload of that chunk with its header. *)
Theorem html_generate_writes (aggregate_payload dest_dir base_name label : pystr)
    (chunk_char_limit : Z) (source_url : option pystr) (st : state) :
  1 <= chunk_char_limit ->
  glob_literal base_name ->
  plain_text aggregate_payload -> plain_text label -> plain_url source_url ->
  exists html_chunks st',
    split_text_on_newlines aggregate_payload chunk_char_limit = Some html_chunks
    /\ html_format.generate aggregate_payload dest_dir base_name label
         chunk_char_limit source_url st
       = (Returns
            {| aggregate_path := (dest_dir, base_name ++ lit ".html");
               chunk_manifest :=
                 {| total_parts := len html_chunks;
                    part_paths :=
                      map (html_chunk_path dest_dir base_name (len html_chunks))
                          (seq 0 (length html_chunks)) |} |}, st')
    /\ (exists f, files st' !! (dest_dir, base_name ++ lit ".html") = Some f
                  /\ f_data f = aggregate_payload)
    /\ (forall (j : nat) html_part, html_chunks !! j = Some html_part ->
          exists f,
            files st' !! html_chunk_path dest_dir base_name (len html_chunks) j
            = Some f
            /\ f_data f = html_chunk_payload source_url label (Z.of_nat j + 1)
                            (len html_chunks) html_part).
Proof.
  intros Hlimit _ _ _ _.
  destruct (html_generate_run aggregate_payload dest_dir base_name label
              chunk_char_limit source_url st Hlimit)
    as (html_chunks & st' & Hsplit & Hrun & Hagg & Hparts & _).
  exists html_chunks, st'. auto.
Qed.

Lemma html_generate_writes_witness :
  let st := {| files := ∅; clock := 0; trace := [] |} in
  exists st',
    (html_format.generate (lit "ab") (lit "out") (lit "doc") (lit "Doc") 1 None st).2
    = st'
    /\ (exists f, files st' !! (lit "out", lit "doc.html") = Some f
                  /\ f_data f = lit "ab")
    /\ (exists f, files st' !! html_chunk_path (lit "out") (lit "doc") 2 1 = Some f
                  /\ f_data f = html_chunk_payload None (lit "Doc") 2 2 (lit "b")).
Proof.
  intros st.
  destruct (html_generate_writes (lit "ab") (lit "out") (lit "doc") (lit "Doc") 1
              None st)
    as (html_chunks & st' & Hsplit & Hrun & Hagg & Hparts);
    [lia|literal_chars|literal_chars|literal_chars|exact I|].
  assert (Hchunks : html_chunks = [lit "a"; lit "b"])
    by (vm_compute in Hsplit; injection Hsplit as <-; reflexivity).
  subst html_chunks.
  exists st'. split; [rewrite Hrun; reflexivity|]. split; [exact Hagg|].
  exact (Hparts 1%nat (lit "b") eq_refl).
Defined.

(** X14.  After [formats/html.generate] every chunk-named HTML file of the base
    name in the output directory is a part of this run (parts of an
    earlier run with another total are gone), and no file outside the
    patterns it clears, other than those it writes, has changed. *)
Theorem html_generate_leaves_no_stale_part
    (aggregate_payload dest_dir base_name label : pystr)
    (chunk_char_limit : Z) (source_url : option pystr) (st : state) :
  1 <= chunk_char_limit -> glob_literal base_name ->
  exists html_chunks,
    split_text_on_newlines aggregate_payload chunk_char_limit = Some html_chunks
    /\ let st' := (html_format.generate aggregate_payload dest_dir base_name
                     label chunk_char_limit source_url st).2 in
       (forall index total,
          is_Some (files st' !! (dest_dir,
                                  chunk_file_name base_name index total
                                    (lit ".html"))) ->
          exists j, (j < length html_chunks)%nat
                    /\ chunk_file_name base_name index total (lit ".html")
                       = chunk_file_name base_name (Z.of_nat j + 1)
                           (len html_chunks) (lit ".html"))
       /\ (forall q,
             q <> (dest_dir, base_name ++ lit ".html") ->
             (forall j, (j < length html_chunks)%nat ->
                q <> html_chunk_path dest_dir base_name (len html_chunks) j) ->
             cleared dest_dir (html_patterns base_name) q = false ->
             files st' !! q = files st !! q).
Proof.
  intros Hlimit _.
  destruct (html_generate_run aggregate_payload dest_dir base_name label
              chunk_char_limit source_url st Hlimit)
    as (html_chunks & st' & Hsplit & Hrun & _ & _ & Hframe).
  exists html_chunks. split; [exact Hsplit|]. rewrite Hrun. cbn [snd]. split.
  - intros index total Hsome.
    set (q := (dest_dir, chunk_file_name base_name index total (lit ".html"))) in *.
    destruct (decide (q ∈ map (html_chunk_path dest_dir base_name (len html_chunks))
                            (seq 0 (length html_chunks)))) as [Hin|Hout].
    + apply list_elem_of_fmap in Hin as (j & Hq & Hj).
      apply elem_of_seq in Hj. exists j. split; [lia|].
      injection Hq as Hq. exact Hq.
    + exfalso. rewrite Hframe in Hsome.
      * subst q. rewrite chunk_name_cleared in Hsome. destruct Hsome; discriminate.
      * subst q. intros [= Heq]. symmetry in Heq. revert Heq.
        apply aggregate_name_ne. intros [=].
      * intros j Hj Hq. apply Hout. apply list_elem_of_fmap.
        exists j. split; [exact Hq|]. apply elem_of_seq. lia.
  - intros q Hagg Hq Hkept. rewrite (Hframe q Hagg Hq), Hkept. reflexivity.
Qed.

Lemma html_generate_leaves_no_stale_part_witness :
  let stale : path := (lit "out", chunk_file_name (lit "doc") 3 3 (lit ".html")) in
  let st := {| files := {[ stale := File (lit "old") 0 true ]};
               clock := 1; trace := [] |} in
  files st !! stale = Some (File (lit "old") 0 true)
  /\ files (html_format.generate (lit "ab") (lit "out") (lit "doc") (lit "Doc") 1
              None st).2 !! stale = None.
Proof.
  intros stale st. split; [reflexivity|].
  destruct (html_generate_leaves_no_stale_part (lit "ab") (lit "out") (lit "doc")
              (lit "Doc") 1 None st ltac:(lia))
    as (html_chunks & Hsplit & Hstale & _).
  { repeat (constructor; [repeat split; discriminate|]). constructor. }
  assert (Hchunks : html_chunks = [lit "a"; lit "b"])
    by (vm_compute in Hsplit; injection Hsplit as <-; reflexivity).
  subst html_chunks.
  destruct (files _ !! stale) as [f|] eqn:Hf; [|reflexivity].
  exfalso.
  destruct (Hstale 3 3 (ex_intro _ f Hf)) as (j & Hj & Heq).
  destruct j as [|[|j]]; [vm_compute in Heq; discriminate
                         |vm_compute in Heq; discriminate
                         |simpl in Hj; lia].
Defined.



(** ** [pair_segments] *)

Lemma map_range_default {A} (d : A) (xs : list A) n :
  len xs <= n ->
  map (fun idx => if idx <? len xs then default d (xs !! Z.to_nat idx) else d)
      (range 0 n)
  = xs ++ replicate (Z.to_nat (n - len xs)) d.
Proof.
  intros Hn. apply list_eq. intros k.
  rewrite list_lookup_fmap.
  destruct (decide (k < Z.to_nat n)%nat) as [Hk|Hk].
  - rewrite lookup_range by lia. simpl.
    destruct (Z.ltb_spec (0 + Z.of_nat k) (len xs)) as [Hin|Hout].
    + rewrite lookup_app_l by (unfold len in Hin; lia).
      replace (Z.to_nat (0 + Z.of_nat k)) with k by lia.
      destruct (lookup_lt_is_Some_2 xs k) as [x Hx]; [unfold len in Hin; lia|].
      rewrite Hx. reflexivity.
    + rewrite lookup_app_r by (unfold len in Hout; lia).
      symmetry. f_equal. apply lookup_replicate_2. unfold len in *. lia.
  - rewrite (lookup_ge_None_2 (range 0 n))
      by (rewrite length_range; lia).
    symmetry. apply lookup_ge_None_2.
    rewrite length_app, length_replicate. unfold len in *. lia.
Qed.

(** X16.  [pair_segments] yields one triple per index below the longer length,
    numbered from 0; the HTML parts are the HTML segments followed by
    empty strings, and likewise the Markdown parts. *)
Theorem pair_segments_spec (html_segments markdown_segments : list pystr) :
  let total := Z.max (len html_segments) (len markdown_segments) in
  let triples := pair_segments html_segments markdown_segments in
  map (fun t => t.1.1) triples = range 0 total
  /\ map (fun t => t.1.2) triples
     = html_segments ++ replicate (Z.to_nat (total - len html_segments)) []
  /\ map (fun t => t.2) triples
     = markdown_segments
       ++ replicate (Z.to_nat (total - len markdown_segments)) [].
Proof.
  intros total triples. subst triples. unfold pair_segments. fold total.
  rewrite !map_map. cbn [fst snd]. split; [apply map_id|]. split.
  - apply map_range_default. lia.
  - apply map_range_default. lia.
Qed.

(** ** The names of the combined chunks *)

Lemma format_02d_value n : 0 <= n -> numeral_value (format_02d n) = n.
Proof.
  intros Hn. destruct (str_of_int_spec n Hn) as (_ & _ & Hvalue).
  unfold format_02d, numeral_value.
  destruct (len (str_of_int n) <? 2); [|exact Hvalue].
  simpl. exact Hvalue.
Qed.

Lemma combined_file_name_inj i j :
  0 <= i -> 0 <= j -> combined_file_name i = combined_file_name j -> i = j.
Proof.
  intros Hi Hj Heq. unfold combined_file_name in Heq.
  apply app_inv_head in Heq. apply app_inv_tail in Heq.
  rewrite <- (format_02d_value i Hi), <- (format_02d_value j Hj), Heq.
  reflexivity.
Qed.

Lemma lookup_pair_segments (html_segments markdown_segments : list pystr) (k : nat) :
  Z.of_nat k < Z.max (len html_segments) (len markdown_segments) ->
  pair_segments html_segments markdown_segments !! k
  = Some (Z.of_nat k, default [] (html_segments !! k),
          default [] (markdown_segments !! k)).
Proof.
  intros Hk. unfold pair_segments.
  rewrite list_lookup_fmap. rewrite lookup_range by lia. simpl.
  replace (Z.to_nat (0 + Z.of_nat k)) with k by lia.
  assert (Hpad : forall xs : list pystr,
            (if 0 + Z.of_nat k <? len xs then default [] (xs !! k) else [])
            = default [] (xs !! k)).
  { intros xs. destruct (Z.ltb_spec (0 + Z.of_nat k) (len xs)); [reflexivity|].
    rewrite lookup_ge_None_2 by (unfold len in *; lia). reflexivity. }
  rewrite !Hpad. reflexivity.
Qed.

Lemma length_pair_segments (html_segments markdown_segments : list pystr) :
  length (pair_segments html_segments markdown_segments)
  = Z.to_nat (Z.max (len html_segments) (len markdown_segments)).
Proof.
  unfold pair_segments. rewrite length_map, length_range. f_equal. lia.
Qed.

(** The loop over triples numbered from [first]. *)
Lemma combined_loop_spec dest source_url label total total_html total_md :
  forall triples first st,
  0 <= first ->
  (forall (k : nat) t, triples !! k = Some t -> t.1.1 = first + Z.of_nat k) ->
  exists st',
    combined_loop dest source_url label total total_html total_md triples st
    = (Returns (map (fun k => (dest, combined_file_name (first + Z.of_nat k + 1)))
                  (seq 0 (length triples))), st')
    /\ (forall q,
          (forall k, (k < length triples)%nat ->
             q <> (dest, combined_file_name (first + Z.of_nat k + 1))) ->
          files st' !! q = files st !! q)
    /\ (forall (k : nat) t, triples !! k = Some t ->
          exists f,
            files st' !! (dest, combined_file_name (first + Z.of_nat k + 1))
            = Some f
            /\ f_data f = combined_chunk_payload source_url label
                            (first + Z.of_nat k + 1) total total_html total_md
                            t.1.2 t.2).
Proof.
  induction triples as [|[[index html_part] markdown_part] rest IH];
    intros first st Hfirst Hnum.
  - exists st. split; [reflexivity|]. split; [reflexivity|].
    intros k t Hk. rewrite lookup_nil in Hk. discriminate.
  - assert (Hindex : index = first).
    { specialize (Hnum O _ eq_refl). simpl in Hnum. lia. }
    subst index.
    cbn [combined_loop]. unfold bind at 1, write at 1.
    unfold bind at 1, print, emit at 1.
    match goal with
    | |- context [bind _ _ ?st0] => set (st2 := st0)
    end.
    destruct (IH (first + 1) st2 ltac:(lia)) as (st' & Hrun & Hframe & Hparts).
    { intros k t Hk. rewrite (Hnum (S k) t Hk). lia. }
    exists st'. unfold bind at 1. rewrite Hrun. unfold ret.
    assert (Hne : forall k : nat,
              (dest, combined_file_name (first + 1))
              <> (dest, combined_file_name (first + 1 + Z.of_nat k + 1))).
    { intros k Heq. apply (f_equal snd) in Heq. cbn [snd] in Heq.
      apply combined_file_name_inj in Heq; lia. }
    split; [|split].
    + cbn [length seq map]. rewrite Z.add_0_r.
      rewrite <- seq_shift, map_map. do 3 f_equal. apply map_ext.
      intros k. do 2 f_equal. lia.
    + intros q Hq. rewrite Hframe.
      * subst st2. cbn [files]. apply lookup_insert_ne.
        specialize (Hq O ltac:(simpl; lia)). rewrite Z.add_0_r in Hq. congruence.
      * intros k Hk. specialize (Hq (S k) ltac:(simpl; lia)).
        replace (first + 1 + Z.of_nat k) with (first + Z.of_nat (S k)) by lia.
        exact Hq.
    + intros [|k] t Hk.
      * injection Hk as <-. cbn [fst snd]. rewrite Z.add_0_r.
        eexists. split; [|].
        -- rewrite Hframe by (intros k _; apply Hne).
           subst st2. cbn [files]. apply lookup_insert_eq.
        -- reflexivity.
      * destruct (Hparts k t Hk) as (f & Hf & Hdata). exists f.
        replace (first + Z.of_nat (S k)) with (first + 1 + Z.of_nat k) by lia.
        split; assumption.
Qed.

Lemma _write_combined_artifacts_run (dest_dir : pystr)
    (aggregate_html_payload aggregate_markdown_payload : pystr)
    (source_url : option pystr) (chunk_char_limit : Z) (label : pystr)
    (st : state) :
  exists html_segments markdown_segments st',
    let half_limit := Z.max 1 (chunk_char_limit / 2) in
    let total := Z.max (len html_segments) (len markdown_segments) in
    split_text_on_newlines aggregate_html_payload half_limit = Some html_segments
    /\ split_text_on_newlines aggregate_markdown_payload half_limit
       = Some markdown_segments
    /\ 1 <= total
    /\ _write_combined_artifacts dest_dir aggregate_html_payload
         aggregate_markdown_payload source_url chunk_char_limit label st
       = (Returns {| combined_part_paths :=
                       map (combined_path dest_dir) (seq 0 (Z.to_nat total)) |},
          st')
    /\ (forall j : nat, Z.of_nat j < total ->
          exists f,
            files st' !! combined_path dest_dir j = Some f
            /\ f_data f = combined_chunk_payload source_url label
                            (Z.of_nat j + 1) total (len html_segments)
                            (len markdown_segments)
                            (default [] (html_segments !! j))
                            (default [] (markdown_segments !! j)))
    /\ (forall q,
          (forall j : nat, Z.of_nat j < total -> q <> combined_path dest_dir j) ->
          files st' !! q
          = if cleared dest_dir [lit "combined_part_*.md"] q then None
            else files st !! q).
Proof.
  set (half_limit := Z.max 1 (chunk_char_limit / 2)).
  destruct (split_text_on_newlines_total aggregate_html_payload half_limit
              ltac:(lia)) as [hs Hhs].
  destruct (split_text_on_newlines_total aggregate_markdown_payload half_limit
              ltac:(lia)) as [ms Hms].
  pose proof (split_text_on_newlines_nonempty _ _ _ Hhs) as Hne.
  assert (Htotal : 1 <= Z.max (len hs) (len ms)).
  { destruct hs; [congruence|]. unfold len. simpl length. lia. }
  exists hs, ms.
  unfold _write_combined_artifacts. fold half_limit.
  unfold bind at 1.
  destruct (clear_existing_files_exact dest_dir [lit "combined_part_*.md"] st)
    as (st1 & -> & _ & Hfiles1).
  unfold bind at 1, lift at 1. rewrite Hhs. cbn [of_fuel].
  unfold bind at 1, lift at 1. rewrite Hms. cbn [of_fuel].
  destruct (Z.eqb_spec (Z.max (len hs) (len ms)) 0) as [|_]; [lia|].
  destruct (combined_loop_spec dest_dir source_url label
              (Z.max (len hs) (len ms)) (len hs) (len ms)
              (pair_segments hs ms) 0 st1 ltac:(lia))
    as (st' & Hrun & Hframe & Hparts).
  { intros k t Hk.
    assert (Hlt : (k < length (pair_segments hs ms))%nat)
      by (apply lookup_lt_is_Some_1; eauto).
    rewrite length_pair_segments in Hlt.
    rewrite lookup_pair_segments in Hk by lia. injection Hk as <-. reflexivity. }
  rewrite length_pair_segments in Hrun, Hframe.
  exists st'. cbv zeta. split; [reflexivity|]. split; [reflexivity|].
  split; [exact Htotal|].
  unfold bind at 1. rewrite Hrun. unfold ret. split; [|split].
  - do 3 f_equal.
  - intros j Hj.
    destruct (Hparts j _ (lookup_pair_segments hs ms j Hj)) as (f & Hf & Hdata).
    exists f. split; [exact Hf|exact Hdata].
  - intros q Hq. rewrite Hframe; [apply Hfiles1|].
    intros k Hk. apply (Hq k). lia.
Qed.

(** X17.  For payloads, a label and a source URL that [write_text] can
    encode, [_write_combined_artifacts] returns whatever the limit is: the
    segments are cut at [max(1, limit // 2)] characters.  It writes one
    file per pair of segments, [max] of the two counts in all and never
    none, named [combined_part_01.md], [combined_part_02.md], ..., each
    holding the combined payload of its pair (the empty string for a missing
    segment); the other files of the directory that match
    [combined_part_*.md] are deleted, and nothing else changes. *)
Theorem _write_combined_artifacts_spec (dest_dir : pystr)
    (aggregate_html_payload aggregate_markdown_payload : pystr)
    (source_url : option pystr) (chunk_char_limit : Z) (label : pystr)
    (st : state) :
  plain_text aggregate_html_payload -> plain_text aggregate_markdown_payload ->
  plain_text label -> plain_url source_url ->
  exists html_segments markdown_segments st',
    let half_limit := Z.max 1 (chunk_char_limit / 2) in
    let total := Z.max (len html_segments) (len markdown_segments) in
    split_text_on_newlines aggregate_html_payload half_limit = Some html_segments
    /\ split_text_on_newlines aggregate_markdown_payload half_limit
       = Some markdown_segments
    /\ 1 <= total
    /\ _write_combined_artifacts dest_dir aggregate_html_payload
         aggregate_markdown_payload source_url chunk_char_limit label st
       = (Returns {| combined_part_paths :=
                       map (combined_path dest_dir) (seq 0 (Z.to_nat total)) |},
          st')
    /\ (forall j : nat, Z.of_nat j < total ->
          exists f,
            files st' !! combined_path dest_dir j = Some f
            /\ f_data f = combined_chunk_payload source_url label
                            (Z.of_nat j + 1) total (len html_segments)
                            (len markdown_segments)
                            (default [] (html_segments !! j))
                            (default [] (markdown_segments !! j)))
    /\ (forall q,
          (forall j : nat, Z.of_nat j < total -> q <> combined_path dest_dir j) ->
          files st' !! q
          = if cleared dest_dir [lit "combined_part_*.md"] q then None
            else files st !! q).
Proof.
  intros _ _ _ _.
  exact (_write_combined_artifacts_run dest_dir aggregate_html_payload
           aggregate_markdown_payload source_url chunk_char_limit label st).
Qed.

Lemma _write_combined_artifacts_spec_witness :
  let stale : path := (lit "out", lit "combined_part_07.md") in
  let st := {| files := {[ stale := File (lit "old") 1 true ]};
               clock := 2; trace := [] |} in
  exists st',
    _write_combined_artifacts (lit "out") (lit "<p>a</p>") (lit "ab") None 12
      (lit "Doc") st
    = (Returns {| combined_part_paths :=
                    [(lit "out", lit "combined_part_01.md");
                     (lit "out", lit "combined_part_02.md")] |}, st')
    /\ (exists f, files st' !! (lit "out", lit "combined_part_02.md") = Some f
                  /\ f_data f = combined_chunk_payload None (lit "Doc") 2 2 2 1
                                  (lit "p>") [])
    /\ files st' !! stale = None.
Proof.
  intros stale st.
  destruct (_write_combined_artifacts_spec (lit "out") (lit "<p>a</p>") (lit "ab")
              None 12 (lit "Doc") st)
    as (html_segments & markdown_segments & st' & Hhtml & Hmd & _ & Hrun
        & Hparts & Hframe);
    [literal_chars|literal_chars|literal_chars|exact I|].
  vm_compute in Hhtml. injection Hhtml as <-.
  vm_compute in Hmd. injection Hmd as <-.
  exists st'. split; [exact Hrun|]. split.
  - exact (Hparts 1%nat ltac:(vm_compute; reflexivity)).
  - rewrite Hframe; [vm_compute; reflexivity|].
    intros [|[|j]] Hj Heq.
    + vm_compute in Heq. discriminate Heq.
    + vm_compute in Heq. discriminate Heq.
    + revert Hj. unfold len. simpl. lia.
Defined.


(** ** The Markdown generator *)

(** A pattern that starts with literal characters only matches names
    that start with them. *)
Lemma glob_match_literal_prefix pattern : forall l name,
  Forall (fun c => c <> 42) l ->
  glob_match (l ++ pattern) name = true ->
  exists r, name = l ++ r.
Proof.
  induction l as [|c l IH]; intros name Hl Hm; [exists name; reflexivity|].
  apply Forall_cons in Hl as [Hc Hl].
  cbn [app glob_match] in Hm.
  destruct (Z.eqb_spec c 42); [contradiction|].
  destruct name as [|x name]; [discriminate|].
  apply andb_prop in Hm as [Hx Hm]. apply Z.eqb_eq in Hx. subst x.
  destruct (IH name Hl Hm) as [r ->]. exists r. reflexivity.
Qed.

(** A base name that does not start with [combined], followed by [.] or
    [_], does not start with [combined] either. *)
Lemma not_combined_app base c tail :
  strip_prefix (lit "combined") base = None -> c = 46 \/ c = 95 ->
  strip_prefix (lit "combined") (base ++ c :: tail) = None.
Proof.
  intros Hbase Hc. rewrite strip_prefix_app, Hbase.
  destruct (strip_prefix base (lit "combined")) as [p2|] eqn:Hp; [|reflexivity].
  apply strip_prefix_eq in Hp.
  destruct p2 as [|d p2].
  - rewrite app_nil_r in Hp. subst base.
    vm_compute in Hbase. discriminate.
  - assert (Hd : d <> c).
    { assert (Hall : Forall (fun x => x <> 46 /\ x <> 95) (lit "combined"))
        by (repeat (constructor; [split; discriminate|]); constructor).
      rewrite Hp in Hall. apply Forall_app in Hall as [_ Hall].
      apply Forall_inv in Hall. lia. }
    simpl. destruct (Z.eqb_spec d c); [contradiction|reflexivity].
Qed.

Lemma not_cleared_by_combined dest base c tail :
  strip_prefix (lit "combined") base = None -> c = 46 \/ c = 95 ->
  cleared dest [lit "combined_part_*.md"] (dest, base ++ c :: tail) = false.
Proof.
  intros Hbase Hc. unfold cleared. cbn [fst snd existsb].
  rewrite orb_false_r. apply andb_false_intro2.
  destruct (glob_match (lit "combined_part_*.md") (base ++ c :: tail)) eqn:Hm;
    [|reflexivity].
  exfalso.
  change (lit "combined_part_*.md") with (lit "combined" ++ lit "_part_*.md") in Hm.
  apply glob_match_literal_prefix in Hm as [r Hr];
    [|repeat (constructor; [discriminate|]); constructor].
  pose proof (not_combined_app base c tail Hbase Hc) as Hnone.
  rewrite Hr, strip_prefix_self in Hnone. discriminate.
Qed.

Lemma combined_name_ne_base base c tail j :
  strip_prefix (lit "combined") base = None -> c = 46 \/ c = 95 ->
  combined_file_name j <> base ++ c :: tail.
Proof.
  intros Hbase Hc Heq.
  pose proof (not_combined_app base c tail Hbase Hc) as Hnone.
  rewrite <- Heq in Hnone. unfold combined_file_name in Hnone.
  cbn [lit list_ascii_of_string map app strip_prefix] in Hnone.
  vm_compute N_of_ascii in Hnone. cbn in Hnone. discriminate.
Qed.

(** X18.  [formats/markdown.generate] with a limit of at least 1, a base
    name without glob syntax that does not start with [combined] (the
    combined writer would otherwise delete files just written), and
    payloads, a label and a source URL that [write_text] can encode: it
    returns the aggregate path
    and the manifest of the chunk paths in order; the aggregate file
    holds the payload as given, the file of chunk [j + 1] the payload of
    that chunk with its header; and the combined files it reports are
    at least one and all on disk. *)
Theorem markdown_generate_writes
    (aggregate_payload dest_dir base_name label : pystr)
    (chunk_char_limit : Z) (source_url : option pystr) (html_payload : pystr)
    (st : state) :
  1 <= chunk_char_limit ->
  strip_prefix (lit "combined") base_name = None ->
  glob_literal base_name ->
  plain_text aggregate_payload -> plain_text html_payload ->
  plain_text label -> plain_url source_url ->
  exists markdown_chunks combined st',
    split_text_on_newlines aggregate_payload chunk_char_limit
    = Some markdown_chunks
    /\ markdown_format.generate aggregate_payload dest_dir base_name label
         chunk_char_limit source_url html_payload st
       = (Returns
            ({| aggregate_path := (dest_dir, base_name ++ lit ".md");
                chunk_manifest :=
                  {| total_parts := len markdown_chunks;
                     part_paths :=
                       map (markdown_chunk_path dest_dir base_name
                              (len markdown_chunks))
                           (seq 0 (length markdown_chunks)) |} |},
             combined), st')
    /\ (exists f, files st' !! (dest_dir, base_name ++ lit ".md") = Some f
                  /\ f_data f = aggregate_payload)
    /\ (forall (j : nat) markdown_part,
          markdown_chunks !! j = Some markdown_part ->
          exists f,
            files st' !! markdown_chunk_path dest_dir base_name
                           (len markdown_chunks) j = Some f
            /\ f_data f = markdown_chunk_payload source_url label
                            (Z.of_nat j + 1) (len markdown_chunks)
                            markdown_part)
    /\ combined_part_paths combined <> []
    /\ Forall (fun p => is_Some (files st' !! p)) (combined_part_paths combined).
Proof.
  intros Hlimit Hbase _ _ _ _ _.
  destruct (split_text_on_newlines_total aggregate_payload chunk_char_limit Hlimit)
    as [chunks Hsplit].
  exists chunks.
  unfold markdown_format.generate. unfold bind at 1.
  destruct (prepare_output_dir_run dest_dir (markdown_patterns base_name) st)
    as (st1 & Hprep & _ & _).
  unfold markdown_patterns in Hprep. rewrite Hprep.
  unfold bind at 1, write at 1. unfold bind at 1, print, emit at 1.
  unfold bind at 1, lift at 1. rewrite Hsplit. cbn [of_fuel].
  unfold write_chunks. unfold bind at 1. unfold bind at 1.
  set (payloads := map _ (enumerate 1 chunks)).
  match goal with
  | |- context [write_chunks_from _ _ _ _ _ _ _ ?st0] => set (st3 := st0)
  end.
  assert (Hlen : length payloads = length chunks)
    by (subst payloads; rewrite length_map, length_enumerate; reflexivity).
  assert (Hlookup : forall (j : nat) part, chunks !! j = Some part ->
            payloads !! j
            = Some (markdown_chunk_payload source_url label (Z.of_nat j + 1)
                      (len chunks) part)).
  { intros j part Hj. subst payloads.
    rewrite list_lookup_fmap, lookup_enumerate, Hj. simpl.
    do 2 f_equal. lia. }
  assert (Hpath : forall j,
            (dest_dir, chunk_file_name base_name (1 + Z.of_nat j) (len payloads)
                         (lit ".md"))
            = markdown_chunk_path dest_dir base_name (len chunks) j).
  { intros j. unfold markdown_chunk_path, len. rewrite Hlen. do 2 f_equal. lia. }
  pose proof (write_chunks_from_paths dest_dir base_name (lit ".md")
                (len payloads) (lit "Markdown") payloads 1 st3) as Hpaths.
  pose proof (write_chunks_from_clock dest_dir base_name (lit ".md")
                (len payloads) (lit "Markdown") payloads 1 st3) as (_ & _ & Hframe).
  pose proof (write_chunks_from_rewrites dest_dir base_name (lit ".md")
                (len payloads) (lit "Markdown") payloads 1 st3) as Hparts.
  destruct (write_chunks_from dest_dir base_name (lit ".md") (len payloads) 1
              payloads _ st3) as [r st4].
  cbn [fst snd] in *. subst r. unfold ret at 1.
  unfold bind at 1.
  destruct (_write_combined_artifacts_run dest_dir html_payload aggregate_payload
              source_url chunk_char_limit label st4)
    as (hs & ms & st' & _ & _ & Htotal & Hrun & Hcombined & Hframe').
  cbv zeta in Htotal, Hrun, Hcombined, Hframe'.
  rewrite Hrun. unfold ret.
  eexists _, st'.
  assert (Hagg : files st3 !! (dest_dir, base_name ++ lit ".md")
                 = Some {| f_data := aggregate_payload; f_mtime := clock st1;
                           f_readable :=
                             match files st1 !! (dest_dir, base_name ++ lit ".md") with
                             | Some f => f_readable f
                             | None => true
                             end |})
    by (subst st3; cbn [files]; apply lookup_insert_eq).
  assert (Hkept : forall tail c f, c = 46 \/ c = 95 ->
            files st4 !! (dest_dir, base_name ++ c :: tail) = Some f ->
            files st' !! (dest_dir, base_name ++ c :: tail) = Some f).
  { intros tail c f Hc Hf. rewrite Hframe'.
    - rewrite not_cleared_by_combined by assumption. exact Hf.
    - intros j _ Heq. apply (f_equal snd) in Heq. cbn [snd] in Heq.
      symmetry in Heq. revert Heq. apply combined_name_ne_base; assumption. }
  split; [reflexivity|]. split; [|split; [|split; [|split]]].
  - rewrite Hlen. do 3 f_equal. f_equal. f_equal.
    + unfold len. rewrite Hlen. reflexivity.
    + apply map_ext. exact Hpath.
  - eexists. split.
    + apply (Hkept (lit "md") 46); [left; reflexivity|].
      rewrite Hframe; [exact Hagg|].
      intros j _ Heq. apply (f_equal snd) in Heq. cbn [snd] in Heq.
      revert Heq. apply aggregate_name_ne. discriminate.
    + reflexivity.
  - intros j part Hj.
    destruct (Hparts j _ ltac:(lia) (Hlookup j part Hj)) as (f & Hf & Hdata & _).
    exists f. split; [|exact Hdata].
    rewrite <- Hpath.
    exact (Hkept _ 95 f (or_intror eq_refl) Hf).
  - cbn [combined_part_paths].
    destruct (Z.to_nat _) eqn:Hn; [lia|discriminate].
  - cbn [combined_part_paths]. apply Forall_forall. intros p Hp.
    apply list_elem_of_fmap in Hp as (j & -> & Hj). apply elem_of_seq in Hj.
    destruct (Hcombined j ltac:(lia)) as (f & Hf & _). eauto.
Qed.

Lemma markdown_generate_writes_witness :
  let st := {| files := ∅; clock := 0; trace := [] |} in
  let st' := (markdown_format.generate (lit "ab") (lit "out") (lit "doc")
                (lit "Doc") 1 None (lit "<p>ab</p>") st).2 in
  (exists f, files st' !! (lit "out", lit "doc.md") = Some f
             /\ f_data f = lit "ab")
  /\ (exists f, files st' !! (lit "out", lit "doc_part_2_of_2.md") = Some f
                /\ f_data f = markdown_chunk_payload None (lit "Doc") 2 2
                                (lit "b")).
Proof.
  intros st st'.
  destruct (markdown_generate_writes (lit "ab") (lit "out") (lit "doc") (lit "Doc")
              1 None (lit "<p>ab</p>") st)
    as (chunks & combined & st1 & Hsplit & Hrun & Hagg & Hparts & _);
    [lia|reflexivity|literal_chars|literal_chars|literal_chars|literal_chars
    |exact I|].
  assert (Hchunks : chunks = [lit "a"; lit "b"])
    by (vm_compute in Hsplit; injection Hsplit as <-; reflexivity).
  subst chunks. subst st'. rewrite Hrun. cbn [snd].
  split; [exact Hagg|]. exact (Hparts 1%nat (lit "b") eq_refl).
Defined.


(** ** [split] and [join] *)

Lemma split_nl_nonempty text : split_nl text <> [].
Proof.
  destruct text as [|c rest]; simpl; [discriminate|].
  destruct (c =? nl); [discriminate|].
  destruct (split_nl rest); discriminate.
Qed.

Lemma join_cons sep p ps : ps <> [] -> join sep (p :: ps) = p ++ sep ++ join sep ps.
Proof. destruct ps; [congruence|reflexivity]. Qed.

Lemma join_split_nl text : join [nl] (split_nl text) = text.
Proof.
  induction text as [|c rest IH]; [reflexivity|].
  pose proof (split_nl_nonempty rest) as Hne.
  cbn [split_nl]. destruct (Z.eqb_spec c nl) as [->|Hc].
  - rewrite join_cons by exact Hne. rewrite IH. reflexivity.
  - destruct (split_nl rest) as [|line lines]; [congruence|].
    destruct lines as [|l2 lines].
    + simpl in *. congruence.
    + rewrite join_cons by discriminate. rewrite join_cons in IH by discriminate.
      simpl. rewrite <- IH. reflexivity.
Qed.

Lemma join_app sep a b :
  a <> [] -> b <> [] -> join sep (a ++ b) = join sep a ++ sep ++ join sep b.
Proof.
  intros Ha Hb. induction a as [|p a IH]; [congruence|].
  destruct a as [|q a].
  - simpl app. rewrite join_cons by exact Hb. reflexivity.
  - change ((p :: q :: a) ++ b) with (p :: ((q :: a) ++ b)).
    rewrite join_cons by discriminate. rewrite IH by discriminate.
    rewrite (join_cons sep p (q :: a)) by discriminate.
    rewrite <- !app_assoc. reflexivity.
Qed.

Lemma join_concat sep (groups : list (list pystr)) :
  Forall (fun g => g <> []) groups ->
  join sep (map (join sep) groups) = join sep (concat groups).
Proof.
  induction 1 as [|g groups Hg Hall IH]; [reflexivity|].
  destruct groups as [|g2 groups].
  - simpl. rewrite app_nil_r. reflexivity.
  - cbn [map concat]. rewrite join_cons by discriminate.
    cbn [map concat] in IH. rewrite IH.
    rewrite (join_app sep g (g2 ++ concat groups)); [reflexivity|exact Hg|].
    apply Forall_inv in Hall. destruct g2; [congruence|discriminate].
Qed.

(** ** [split_markdown] *)

Lemma markdown_groups_take (lines : list pystr) parts : 1 <= parts ->
  forall n : nat, Z.of_nat n <= parts - 1 ->
  concat (map (fun k => markdown_group lines parts (0 + Z.of_nat k)) (seq 0 n))
  = take (Z.to_nat (Z.of_nat n * (len lines / parts))) lines.
Proof.
  intros Hparts.
  pose proof (len_nonneg lines) as Hlen.
  assert (Havg : 0 <= len lines / parts) by (apply Z.div_pos; lia).
  assert (Hmul : parts * (len lines / parts) <= len lines)
    by (apply Z.mul_div_le; lia).
  unfold markdown_group.
  set (avg := len lines / parts) in *. clearbody avg.
  induction n as [|n IH]; intros Hn; [reflexivity|].
  rewrite seq_S, map_app, concat_app, IH by lia.
  cbn [map concat]. rewrite app_nil_r. change (0 + n)%nat with n.
  destruct (Z.ltb_spec (0 + Z.of_nat n) (parts - 1)); [|lia].
  replace (0 + Z.of_nat n) with (Z.of_nat n) by lia.
  assert (Hle : (Z.of_nat n + 1) * avg <= len lines) by nia.
  assert (Hstep : (Z.of_nat n + 1) * avg = Z.of_nat n * avg + avg) by lia.
  assert (Hn0 : 0 <= Z.of_nat n * avg) by nia.
  rewrite slice_in_range by lia.
  rewrite <- (take_drop (Z.to_nat (Z.of_nat n * avg))
                (take (Z.to_nat (Z.of_nat (S n) * avg)) lines)).
  rewrite take_take, skipn_firstn_comm.
  f_equal; f_equal; nia.
Qed.

(** X19.  [split_markdown]: [parts = 0] is a division by zero and a negative
    [parts] gives no piece at all; for [parts >= 1] there are exactly
    [parts] pieces, each the lines of one group joined by newlines, the
    groups cut the lines of the text in order, all but the last having
    [len(lines) // parts] lines; and when there are at least as many
    lines as parts, the pieces joined by newlines give back the text. *)
Theorem split_markdown_spec (markdown_text : pystr) (parts : Z) :
  (parts = 0 -> split_markdown markdown_text parts = None)
  /\ (parts < 0 -> split_markdown markdown_text parts = Some [])
  /\ (1 <= parts ->
      exists groups,
        split_markdown markdown_text parts = Some (map (join [nl]) groups)
        /\ len groups = parts
        /\ concat groups = split_nl markdown_text
        /\ (forall (k : nat) group, Z.of_nat k < parts - 1 ->
              groups !! k = Some group ->
              len group = len (split_nl markdown_text) / parts)
        /\ (parts <= len (split_nl markdown_text) ->
            join [nl] (map (join [nl]) groups) = markdown_text)).
Proof.
  unfold split_markdown. split; [|split].
  - intros ->. reflexivity.
  - intros Hneg. destruct (Z.eqb_spec parts 0); [lia|].
    unfold range. replace (Z.to_nat (parts - 0)) with 0%nat by lia. reflexivity.
  - intros Hparts. destruct (Z.eqb_spec parts 0); [lia|].
    set (lines := split_nl markdown_text).
    pose proof (len_nonneg lines) as Hlen.
    assert (Havg : 0 <= len lines / parts) by (apply Z.div_pos; lia).
    assert (Hmul : parts * (len lines / parts) <= len lines)
      by (apply Z.mul_div_le; lia).
    exists (map (markdown_group lines parts) (range 0 parts)).
    assert (Hlast : markdown_group lines parts (parts - 1)
                    = drop (Z.to_nat ((parts - 1) * (len lines / parts))) lines).
    { unfold markdown_group.
      destruct (Z.ltb_spec (parts - 1) (parts - 1)); [lia|].
      rewrite slice_in_range by nia. apply take_ge.
      rewrite length_drop. unfold len. lia. }
    assert (Hcat : concat (map (markdown_group lines parts) (range 0 parts)) = lines).
    { unfold range. rewrite map_map.
      replace (Z.to_nat (parts - 0)) with (S (Z.to_nat (parts - 1))) by lia.
      rewrite seq_S, map_app, concat_app.
      rewrite (markdown_groups_take lines parts Hparts) by lia.
      cbn [map concat]. rewrite app_nil_r.
      replace (0 + Z.of_nat (0 + Z.to_nat (parts - 1))) with (parts - 1) by lia.
      rewrite Hlast.
      replace (Z.of_nat (Z.to_nat (parts - 1))) with (parts - 1) by lia.
      apply take_drop. }
    assert (Hgroup : forall (k : nat) group, Z.of_nat k < parts - 1 ->
              map (markdown_group lines parts) (range 0 parts) !! k = Some group ->
              len group = len lines / parts).
    { intros k group Hk Hg.
      rewrite list_lookup_fmap, lookup_range in Hg by lia.
      injection Hg as <-. unfold markdown_group.
      destruct (Z.ltb_spec (0 + Z.of_nat k) (parts - 1)); [|lia].
      rewrite len_slice by nia. lia. }
    split; [rewrite map_map; reflexivity|].
    split; [unfold len; rewrite length_map, length_range; lia|].
    split; [exact Hcat|]. split; [exact Hgroup|].
    intros Hmany.
    assert (Hone : 1 <= len lines / parts)
      by (apply Z.div_le_lower_bound; lia).
    rewrite join_concat.
    + rewrite Hcat. apply join_split_nl.
    + apply Forall_forall. intros g Hg.
      apply list_elem_of_lookup in Hg as [k Hk].
      assert (Hlt : (k < Z.to_nat parts)%nat).
      { apply lookup_lt_Some in Hk. rewrite length_map, length_range in Hk. lia. }
      destruct (Z.lt_ge_cases (Z.of_nat k) (parts - 1)) as [Hin|Hend].
      * specialize (Hgroup k g Hin Hk). intros ->. unfold len in Hgroup at 1.
        simpl in Hgroup. lia.
      * rewrite list_lookup_fmap, lookup_range in Hk by lia.
        injection Hk as <-.
        replace (0 + Z.of_nat k) with (parts - 1) by lia. rewrite Hlast.
        intros Hnil. apply (f_equal (@length pystr)) in Hnil.
        rewrite length_drop in Hnil. simpl in Hnil. unfold len in *. nia.
Qed.

(** ** The fallback chunks of the JSON generator *)

(** The dictionary after [setdefault] has filed the empty string under
    every key of [keys] that has no entry. *)
Lemma fold_setdefault : forall (keys : list Z) (m : gmap Z pystr) k,
  fold_left (fun chunks missing_index =>
               match chunks !! missing_index with
               | Some _ => chunks
               | None => <[missing_index := []]> chunks
               end) keys m !! k
  = match m !! k with
    | Some v => Some v
    | None => if bool_decide (k ∈ keys) then Some [] else None
    end.
Proof.
  induction keys as [|key keys IH]; intros m k.
  - cbn [fold_left]. destruct (m !! k); [reflexivity|].
    rewrite bool_decide_eq_false_2; [reflexivity|]. intros Hin. inversion Hin.
  - cbn [fold_left]. rewrite IH.
    destruct (decide (k = key)) as [->|Hne].
    + destruct (m !! key) as [v|] eqn:Hm.
      * rewrite Hm. reflexivity.
      * rewrite lookup_insert_eq.
        rewrite (bool_decide_eq_true_2 (key ∈ key :: keys)); [reflexivity|].
        apply elem_of_cons. auto.
    + assert (Hsame : (match m !! key with
                       | Some _ => m
                       | None => <[key := []]> m
                       end) !! k = m !! k).
      { destruct (m !! key); [reflexivity|]. apply lookup_insert_ne. congruence. }
      rewrite Hsame. destruct (m !! k); [reflexivity|].
      destruct (decide (k ∈ keys)) as [Hin|Hout].
      * rewrite !bool_decide_eq_true_2; [reflexivity| |exact Hin].
        apply elem_of_cons. auto.
      * rewrite !bool_decide_eq_false_2; [reflexivity| |exact Hout].
        intros Hin. apply elem_of_cons in Hin as [|]; auto.
Qed.

Lemma elem_of_range lo hi k : k ∈ range lo hi <-> lo <= k < hi.
Proof.
  unfold range. rewrite list_elem_of_fmap. split.
  - intros (j & -> & Hj). apply elem_of_seq in Hj. lia.
  - intros Hk. exists (Z.to_nat (k - lo)). split; [lia|].
    apply elem_of_seq. lia.
Qed.

(** X20.  [fallback_markdown_chunks(total_parts)] has an entry for every part
    number up to [total_parts] and up to the number of Markdown chunks,
    and for no other key: the regenerated payload, with its header
    numbered against the number of Markdown chunks, for a part that the
    Markdown has, and the empty string for a part beyond. *)
Theorem fallback_markdown_chunks_spec (aggregate_markdown : pystr)
    (chunk_char_limit : Z) (source_url : option pystr) (dataset_name : pystr)
    (total_parts : Z) :
  1 <= chunk_char_limit ->
  exists raw_chunks regenerated,
    split_text_on_newlines aggregate_markdown chunk_char_limit = Some raw_chunks
    /\ fallback_markdown_chunks aggregate_markdown chunk_char_limit source_url
         dataset_name total_parts = Returns regenerated
    /\ (forall (j : nat) payload, raw_chunks !! j = Some payload ->
          regenerated !! (Z.of_nat j + 1)
          = Some (markdown_chunk_payload source_url dataset_name
                    (Z.of_nat j + 1) (len raw_chunks) payload))
    /\ (forall k, len raw_chunks < k <= total_parts -> regenerated !! k = Some [])
    /\ (forall k, is_Some (regenerated !! k)
                  <-> 1 <= k <= Z.max (len raw_chunks) total_parts).
Proof.
  intros Hlimit.
  destruct (split_text_on_newlines_total aggregate_markdown chunk_char_limit Hlimit)
    as [raw Hraw].
  exists raw. unfold fallback_markdown_chunks. rewrite Hraw. cbn [of_fuel and_then].
  destruct (fold_insert_enumerate
              (fun index payload =>
                 markdown_chunk_payload source_url dataset_name index (len raw)
                   payload) raw 1 ∅) as [Hin Hout].
  eexists. split; [reflexivity|]. split; [reflexivity|].
  pose proof (len_nonneg raw) as Hlen.
  split; [|split].
  - intros j payload Hj. rewrite fold_setdefault.
    replace (Z.of_nat j + 1) with (1 + Z.of_nat j) by lia.
    rewrite (Hin j payload Hj). reflexivity.
  - intros k Hk. rewrite fold_setdefault, Hout, lookup_empty by lia.
    rewrite bool_decide_eq_true_2; [reflexivity|]. apply elem_of_range. lia.
  - intros k. rewrite fold_setdefault.
    destruct (decide (1 <= k <= len raw)) as [Hk|Hk].
    + destruct (lookup_lt_is_Some_2 raw (Z.to_nat (k - 1))) as [payload Hp];
        [unfold len in Hk; lia|].
      specialize (Hin _ _ Hp).
      replace (1 + Z.of_nat (Z.to_nat (k - 1))) with k in Hin by lia.
      rewrite Hin. split; [lia|eauto].
    + rewrite Hout, lookup_empty by lia.
      destruct (decide (k ∈ range 1 (total_parts + 1))) as [Hr|Hr].
      * rewrite bool_decide_eq_true_2 by exact Hr.
        apply elem_of_range in Hr. split; [lia|eauto].
      * rewrite bool_decide_eq_false_2 by exact Hr.
        rewrite elem_of_range in Hr.
        split; [intros [? [=]]|lia].
Qed.

Lemma fallback_markdown_chunks_spec_witness :
  exists regenerated,
    fallback_markdown_chunks (lit "ab") 1 None (lit "Doc") 3 = Returns regenerated
    /\ regenerated !! 2
       = Some (markdown_chunk_payload None (lit "Doc") 2 2 (lit "b"))
    /\ regenerated !! 3 = Some []
    /\ regenerated !! 4 = None.
Proof.
  destruct (fallback_markdown_chunks_spec (lit "ab") 1 None (lit "Doc") 3
              ltac:(lia))
    as (raw & regenerated & Hraw & Hrun & Hhas & Hpad & Hkeys).
  assert (Hchunks : raw = [lit "a"; lit "b"])
    by (vm_compute in Hraw; injection Hraw as <-; reflexivity).
  subst raw. exists regenerated. split; [exact Hrun|]. split; [|split].
  - exact (Hhas 1%nat (lit "b") eq_refl).
  - apply Hpad. vm_compute. split; [reflexivity|discriminate].
  - destruct (regenerated !! 4) eqn:H4; [|reflexivity].
    exfalso. assert (Hsome : is_Some (regenerated !! 4)) by eauto.
    apply Hkeys in Hsome. vm_compute in Hsome. destruct Hsome as [_ Hsome].
    apply Hsome. reflexivity.
Defined.

(** ** The PDF generator *)

Section PdfArtifacts.
Context {U : UnicodeDigits} {C : FanoutCollaborators}.

(** One call of [render_pdf_from_html]. *)
Lemma render_pdf_from_html_eq input_html output_pdf st :
  exists st',
    render_pdf_from_html input_html output_pdf st
    = (Returns (match browser_pdf (page_of st input_html) with
                | inl _ => (true, None)
                | inr error => (false, Some error)
                end), st')
    /\ clock st <= clock st'
    /\ (forall q, q <> output_pdf -> files st' !! q = files st !! q)
    /\ (is_Some (files st !! output_pdf) -> is_Some (files st' !! output_pdf))
    /\ match browser_pdf (page_of st input_html) with
       | inl pdf => exists f, files st' !! output_pdf = Some f /\ f_data f = pdf
       | inr _ => files st' = files st
       end.
Proof.
  unfold render_pdf_from_html. unfold bind at 1, mkdir, emit at 1.
  unfold bind at 1.
  match goal with
  | |- context [catch OSError _ _ ?st0] => set (st1 := st0)
  end.
  assert (Hpage : catch OSError (data <- read input_html;; ret (Some data))
                    (ret None) st1
                  = (Returns (page_of st input_html), st1)).
  { unfold catch, bind, read, page_of. subst st1. cbn [files].
    destruct (files st !! input_html) as [f|]; [|reflexivity].
    destruct (f_readable f); reflexivity. }
  rewrite Hpage.
  destruct (browser_pdf (page_of st input_html)) as [pdf|error].
  - unfold bind, write, ret. eexists. split; [reflexivity|].
    cbn [files clock]. split; [subst st1; cbn [clock]; lia|].
    split; [intros q Hq; apply lookup_insert_ne; congruence|].
    split; [intros _; rewrite lookup_insert_eq; eauto|].
    eexists. split; [apply lookup_insert_eq|reflexivity].
  - unfold ret. exists st1. split; [reflexivity|].
    split; [subst st1; cbn [clock]; lia|].
    split; [reflexivity|]. split; [auto|reflexivity].
Qed.

Lemma pdf_chunk_loop html_dir pdf_dir base_name : html_dir <> pdf_dir ->
  forall names st,
  exists st',
    for_each names (fun name =>
      let '(part_index, total_parts) := parse_chunk_indices name in
      let target_path :=
        (pdf_dir, chunk_file_name base_name part_index total_parts (lit ".pdf")) in
      rendered <- render_pdf_from_html (html_dir, name) target_path ;;
      let '(success, error) := rendered in
      if success then print (ChunkWritten (lit "PDF") target_path)
      else if nonempty error
           then print (RenderFailed name (default [] error))
           else ret tt) st
    = (Returns tt, st')
    /\ (forall q, (forall name, name ∈ names ->
                     q <> pdf_target pdf_dir base_name name) ->
                  files st' !! q = files st !! q)
    /\ (forall q, is_Some (files st !! q) -> is_Some (files st' !! q))
    /\ (forall name pdf, name ∈ names ->
          browser_pdf (page_of st (html_dir, name)) = inl pdf ->
          is_Some (files st' !! pdf_target pdf_dir base_name name)).
Proof.
  intros Hdirs. induction names as [|name names IH]; intros st.
  - exists st. split; [reflexivity|]. split; [reflexivity|]. split; [auto|].
    intros name pdf Hin. inversion Hin.
  - cbn [for_each]. unfold bind at 1.
    destruct (parse_chunk_indices name) as [part_index total_parts] eqn:Hparse.
    set (target := (pdf_dir, chunk_file_name base_name part_index total_parts
                               (lit ".pdf"))).
    assert (Htarget : pdf_target pdf_dir base_name name = target)
      by (unfold pdf_target; rewrite Hparse; reflexivity).
    destruct (render_pdf_from_html_eq (html_dir, name) target st)
      as (st1 & Hrun & _ & Hframe1 & Hkeep1 & Hout1).
    unfold bind at 1. rewrite Hrun.
    assert (Hstep : exists st2,
              (let '(success, error) :=
                 match browser_pdf (page_of st (html_dir, name)) with
                 | inl _ => (true, None)
                 | inr error => (false, Some error)
                 end in
               if success then print (ChunkWritten (lit "PDF") target)
               else if nonempty error
                    then print (RenderFailed name (default [] error))
                    else ret tt) st1 = (Returns tt, st2)
              /\ files st2 = files st1).
    { destruct (browser_pdf (page_of st (html_dir, name))) as [pdf|error].
      - eexists. split; reflexivity.
      - destruct (nonempty (Some error)); eexists; split; reflexivity. }
    destruct Hstep as (st2 & -> & Hfiles2). cbv beta iota.
    destruct (IH st2) as (st' & Hrest & Hframe & Hkeep & Hdone).
    exists st'. split; [exact Hrest|].
    assert (Hmono1 : forall q, is_Some (files st !! q) -> is_Some (files st2 !! q)).
    { intros q Hq. rewrite Hfiles2.
      destruct (decide (q = target)) as [->|Hne]; [auto|].
      rewrite Hframe1 by exact Hne. exact Hq. }
    split; [|split].
    + intros q Hq. rewrite Hframe, Hfiles2.
      * apply Hframe1. rewrite <- Htarget. apply Hq. apply elem_of_cons. auto.
      * intros other Hother. apply Hq. apply elem_of_cons. auto.
    + intros q Hq. apply Hkeep, Hmono1, Hq.
    + intros other pdf Hin Hpdf.
      apply elem_of_cons in Hin as [->|Hin].
      * rewrite Htarget. apply Hkeep. rewrite Hfiles2.
        rewrite Hpdf in Hout1. destruct Hout1 as (f & -> & _). eauto.
      * apply (Hdone other pdf Hin).
        assert (Hsame : page_of st2 (html_dir, other) = page_of st (html_dir, other)).
        { unfold page_of. rewrite Hfiles2, Hframe1; [reflexivity|].
          subst target. intros [= Heq _]. contradiction. }
        rewrite Hsame. exact Hpdf.
Qed.

(** X21.  For a base name without glob syntax, [generate_pdf_artifacts]
    always returns: an aggregate or a chunk that the browser cannot print
    only costs a warning.  With the HTML files in a directory of their
    own, no file outside the PDF directory changes; the aggregate PDF holds what the browser printed from the
    aggregate HTML, and is absent if the browser failed; and every HTML
    chunk file that the browser can print has its PDF, named after the
    indices parsed from the chunk's name. *)
Theorem generate_pdf_artifacts_spec (html_dir pdf_dir base_name : pystr)
    (st : state) :
  html_dir <> pdf_dir ->
  glob_literal base_name ->
  exists st',
    generate_pdf_artifacts (html_dir, base_name ++ lit ".html") html_dir pdf_dir
      base_name st = (Returns tt, st')
    /\ (forall q, q.1 <> pdf_dir -> files st' !! q = files st !! q)
    /\ match browser_pdf (page_of st (html_dir, base_name ++ lit ".html")) with
       | inl pdf =>
           exists f, files st' !! (pdf_dir, base_name ++ lit ".pdf") = Some f
                     /\ f_data f = pdf
       | inr _ => files st' !! (pdf_dir, base_name ++ lit ".pdf") = None
       end
    /\ (forall name pdf,
          is_Some (files st !! (html_dir, name)) ->
          glob_match (base_name ++ lit "_part_*_of_*.html") name = true ->
          browser_pdf (page_of st (html_dir, name)) = inl pdf ->
          is_Some (files st' !! pdf_target pdf_dir base_name name)).
Proof.
  intros Hdirs _.
  unfold generate_pdf_artifacts. unfold bind at 1.
  destruct (prepare_output_dir_run pdf_dir
              [base_name ++ lit ".pdf"; base_name ++ lit "_part_*.pdf"] st)
    as (st1 & -> & _ & Hfiles1).
  assert (Hkept : forall q, q.1 <> pdf_dir -> files st1 !! q = files st !! q).
  { intros q Hq. rewrite Hfiles1. unfold cleared.
    rewrite bool_decide_eq_false_2 by exact Hq. reflexivity. }
  assert (Hpage1 : forall name, page_of st1 (html_dir, name) = page_of st (html_dir, name)).
  { intros name. unfold page_of. rewrite Hkept; [reflexivity|exact Hdirs]. }
  assert (Hgone : files st1 !! (pdf_dir, base_name ++ lit ".pdf") = None).
  { rewrite Hfiles1. unfold cleared. cbn [fst snd existsb].
    rewrite bool_decide_eq_true_2 by reflexivity.
    rewrite glob_match_refl. reflexivity. }
  destruct (render_pdf_from_html_eq (html_dir, base_name ++ lit ".html")
              (pdf_dir, base_name ++ lit ".pdf") st1)
    as (st2 & Hrun & _ & Hframe2 & _ & Hout2).
  unfold bind at 1. rewrite Hrun. rewrite Hpage1 in *.
  assert (Hagg_ne : forall name,
            pdf_target pdf_dir base_name name <> (pdf_dir, base_name ++ lit ".pdf")).
  { intros name Heq. apply (f_equal snd) in Heq. cbn [snd] in Heq.
    symmetry in Heq. revert Heq. apply aggregate_name_ne. discriminate. }
  assert (Hfinish : forall st3, files st3 = files st2 ->
    exists st',
      (names <- glob html_dir (base_name ++ lit "_part_*_of_*.html") ;;
       for_each (sorted names) (fun name =>
         let '(part_index, total_parts) := parse_chunk_indices name in
         let target_path :=
           (pdf_dir, chunk_file_name base_name part_index total_parts
                       (lit ".pdf")) in
         rendered <- render_pdf_from_html (html_dir, name) target_path ;;
         let '(success, error) := rendered in
         if success then print (ChunkWritten (lit "PDF") target_path)
         else if nonempty error
              then print (RenderFailed name (default [] error))
              else ret tt)) st3 = (Returns tt, st')
      /\ (forall q, q.1 <> pdf_dir -> files st' !! q = files st !! q)
      /\ files st' !! (pdf_dir, base_name ++ lit ".pdf")
         = files st2 !! (pdf_dir, base_name ++ lit ".pdf")
      /\ (forall name pdf,
            is_Some (files st !! (html_dir, name)) ->
            glob_match (base_name ++ lit "_part_*_of_*.html") name = true ->
            browser_pdf (page_of st (html_dir, name)) = inl pdf ->
            is_Some (files st' !! pdf_target pdf_dir base_name name))).
  { intros st3 Hfiles3.
    unfold bind at 1, glob at 1.
    match goal with
    | |- context [for_each (sorted ?l) _ st3] => set (names := l)
    end.
    destruct (pdf_chunk_loop html_dir pdf_dir base_name Hdirs (sorted names) st3)
      as (st' & Hloop & Hframe & Hmono & Hdone).
    exists st'. split; [exact Hloop|]. split; [|split].
    - intros q Hq. rewrite Hframe, Hfiles3.
      + rewrite Hframe2 by (intros ->; apply Hq; reflexivity).
        apply Hkept. exact Hq.
      + intros name _ ->. apply Hq. reflexivity.
    - rewrite Hframe, Hfiles3; [reflexivity|].
      intros name _ Heq. symmetry in Heq. revert Heq. apply Hagg_ne.
    - intros name pdf Hsome Hmatch Hpdf.
      apply (Hdone name pdf).
      + unfold sorted. rewrite merge_sort_Permutation. subst names.
        apply list_elem_of_filter. split; [exact Hmatch|].
        apply elem_of_listdir. rewrite Hfiles3, Hframe2 by congruence.
        rewrite Hkept by exact Hdirs. exact Hsome.
      + unfold page_of. rewrite Hfiles3, Hframe2 by congruence.
        fold (page_of st1 (html_dir, name)). rewrite Hpage1. exact Hpdf. }
  destruct (browser_pdf (page_of st (html_dir, base_name ++ lit ".html")))
    as [pdf|error].
  - destruct Hout2 as (f & Hf & Hdata).
    destruct (Hfinish {| files := files st2; clock := clock st2;
                         trace := trace st2
                                  ++ [Printed (AggregateWritten (lit "PDF")
                                                 (pdf_dir, base_name ++ lit ".pdf"))] |}
                eq_refl) as (st' & Htail & Hframe & Hagg & Hdone).
    exists st'. split; [exact Htail|]. split; [exact Hframe|].
    split; [|exact Hdone]. exists f. rewrite Hagg. auto.
  - destruct error as [|c error].
    + destruct (Hfinish st2 eq_refl) as (st' & Htail & Hframe & Hagg & Hdone).
      exists st'. split; [exact Htail|]. split; [exact Hframe|].
      split; [|exact Hdone]. rewrite Hagg, Hout2. exact Hgone.
    + destruct (Hfinish {| files := files st2; clock := clock st2;
                           trace := trace st2
                                    ++ [Printed (RenderFailed (lit "aggregate PDF")
                                                   (c :: error))] |}
                  eq_refl) as (st' & Htail & Hframe & Hagg & Hdone).
      exists st'. split; [exact Htail|]. split; [exact Hframe|].
      split; [|exact Hdone]. rewrite Hagg, Hout2. exact Hgone.
Qed.

End PdfArtifacts.

Lemma generate_pdf_artifacts_spec_witness :
  let aggregate : path := (lit "html", lit "doc.html") in
  let chunk : path := (lit "html", lit "doc_part_1_of_2.html") in
  let stale : path := (lit "pdf", lit "doc_part_3_of_9.pdf") in
  let st := {| files := {[ aggregate := File (lit "A") 1 true;
                           chunk := File (lit "B") 1 true;
                           stale := File (lit "old") 1 true ]};
               clock := 2; trace := [] |} in
  exists st',
    generate_pdf_artifacts (U := ascii_digits) (C := toy_collaborators)
      aggregate (lit "html") (lit "pdf") (lit "doc") st = (Returns tt, st')
    /\ (exists f, files st' !! (lit "pdf", lit "doc.pdf") = Some f
                  /\ f_data f = lit "A")
    /\ is_Some (files st' !! (lit "pdf", lit "doc_part_1_of_2.pdf"))
    /\ files st' !! chunk = Some (File (lit "B") 1 true).
Proof.
  intros aggregate chunk stale st.
  destruct (generate_pdf_artifacts_spec (U := ascii_digits)
              (C := toy_collaborators) (lit "html") (lit "pdf") (lit "doc") st)
    as (st' & Hrun & Hframe & Hagg & Hchunks).
  - intros Heq. vm_compute in Heq. discriminate Heq.
  - literal_chars.
  - exists st'. split; [exact Hrun|].
    assert (Hpage : @browser_pdf toy_collaborators
                      (page_of st (lit "html", lit "doc" ++ lit ".html"))
                    = inl (lit "A")) by (vm_compute; reflexivity).
    rewrite Hpage in Hagg. split; [exact Hagg|]. split.
    + assert (Htarget : pdf_target (U := ascii_digits) (lit "pdf") (lit "doc")
                          (lit "doc_part_1_of_2.html")
                        = (lit "pdf", lit "doc_part_1_of_2.pdf"))
        by (vm_compute; reflexivity).
      rewrite <- Htarget.
      apply (Hchunks (lit "doc_part_1_of_2.html") (lit "B")).
      * vm_compute. eauto.
      * vm_compute. reflexivity.
      * vm_compute. reflexivity.
    + rewrite Hframe; [vm_compute; reflexivity|].
      intros Heq. vm_compute in Heq. discriminate Heq.
Defined.


(** ** UTF-8: decoding what was encoded *)

(** The base-64 digits of a code point. *)
Lemma base64_digits c : 0 <= c ->
  exists d0 d1 d2 d3,
    c mod 64 = d0 /\ (c / 64) mod 64 = d1 /\ (c / 4096) mod 64 = d2
    /\ c / 262144 = d3 /\ c / 64 = d1 + 64 * d2 + 4096 * d3
    /\ c / 4096 = d2 + 64 * d3
    /\ c = d0 + 64 * d1 + 4096 * d2 + 262144 * d3
    /\ 0 <= d0 < 64 /\ 0 <= d1 < 64 /\ 0 <= d2 < 64 /\ 0 <= d3.
Proof.
  intros Hc.
  assert (H4096 : c / 4096 = c / 64 / 64) by (rewrite Z.div_div by lia; reflexivity).
  assert (H262144 : c / 262144 = c / 4096 / 64) by (rewrite Z.div_div by lia; reflexivity).
  pose proof (Z.div_mod c 64 ltac:(lia)) as E0.
  pose proof (Z.div_mod (c / 64) 64 ltac:(lia)) as E1.
  pose proof (Z.div_mod (c / 4096) 64 ltac:(lia)) as E2.
  pose proof (Z.mod_pos_bound c 64 ltac:(lia)).
  pose proof (Z.mod_pos_bound (c / 64) 64 ltac:(lia)).
  pose proof (Z.mod_pos_bound (c / 4096) 64 ltac:(lia)).
  assert (0 <= c / 262144) by (apply Z.div_pos; lia).
  rewrite <- H4096 in E1. rewrite <- H262144 in E2.
  exists (c mod 64), ((c / 64) mod 64), ((c / 4096) mod 64), (c / 262144).
  repeat split; try reflexivity; lia.
Qed.

Ltac decide_tests :=
  repeat match goal with
  | |- context [?a <=? ?b] => destruct (Z.leb_spec a b); try (exfalso; lia)
  | |- context [?a <? ?b] => destruct (Z.ltb_spec a b); try (exfalso; lia)
  | |- context [?a =? ?b] => destruct (Z.eqb_spec a b); try (exfalso; lia)
  end.

(** Settle the first comparison of the goal, one way or the other. *)
Ltac settle_test :=
  match goal with
  | |- context [?a <=? ?b] =>
      first [ replace (a <=? b) with true by (symmetry; apply Z.leb_le; lia)
            | replace (a <=? b) with false by (symmetry; apply Z.leb_gt; lia) ]
  | |- context [?a <? ?b] =>
      first [ replace (a <? b) with true by (symmetry; apply Z.ltb_lt; lia)
            | replace (a <? b) with false by (symmetry; apply Z.ltb_ge; lia) ]
  | |- context [?a =? ?b] =>
      first [ replace (a =? b) with true by (symmetry; apply Z.eqb_eq; lia)
            | replace (a =? b) with false by (symmetry; apply Z.eqb_neq; lia) ]
  end; cbn [andb orb negb].

Ltac settle_tests :=
  repeat first
    [ settle_test
    | match goal with
      | |- context [?a =? ?b] => destruct (Z.eqb_spec a b); cbn [andb orb negb]
      end ].

Lemma encode_char_length c bs :
  encode_char c = Some bs -> (1 <= length bs <= 4)%nat.
Proof.
  unfold encode_char.
  repeat match goal with
  | |- context [if ?b then _ else _] => destruct b
  end; intros [= <-]; simpl; lia.
Qed.

(** The encodings of a code point, by its range. *)
Lemma encode_char_cases c bs :
  encode_char c = Some bs ->
  exists d0 d1 d2 d3,
    c = d0 + 64 * d1 + 4096 * d2 + 262144 * d3
    /\ 0 <= d0 < 64 /\ 0 <= d1 < 64 /\ 0 <= d2 < 64 /\ 0 <= d3
    /\ ((0 <= c < 128 /\ bs = [c])
        \/ (128 <= c < 2048 /\ bs = [192 + (d1 + 64 * d2 + 4096 * d3); 128 + d0])
        \/ (2048 <= c < 65536 /\ (c < 55296 \/ 57343 < c)
            /\ bs = [224 + (d2 + 64 * d3); 128 + d1; 128 + d0])
        \/ (65536 <= c < 1114112
            /\ bs = [240 + d3; 128 + d2; 128 + d1; 128 + d0])).
Proof.
  unfold encode_char. intros Henc.
  assert (Hc : 0 <= c).
  { destruct (Z.leb_spec 0 c); [assumption|]. exfalso. revert Henc.
    decide_tests; cbn [andb]; discriminate. }
  destruct (base64_digits c Hc)
    as (d0 & d1 & d2 & d3 & E0 & E1 & E2 & E3 & E64 & E4096 & Ec & B0 & B1 & B2 & B3).
  exists d0, d1, d2, d3. split; [exact Ec|]. do 4 (split; [assumption|]).
  rewrite E0, E1, E2, E3, E64, E4096 in Henc. revert Henc.
  destruct (Z.leb_spec 0 c); [|lia].
  destruct (Z.ltb_spec c 128); cbn [andb].
  { intros [= <-]. left. split; [lia|reflexivity]. }
  destruct (Z.leb_spec 128 c); [|lia].
  destruct (Z.ltb_spec c 2048); cbn [andb].
  { intros [= <-]. right. left. split; [lia|reflexivity]. }
  assert (Hsur : (55296 <=? c) && (c <=? 57343) = true \/ (c < 55296 \/ 57343 < c)).
  { destruct (Z.leb_spec 55296 c), (Z.leb_spec c 57343); cbn [andb]; auto; right; lia. }
  destruct Hsur as [-> |Hsur]; [discriminate|].
  replace ((55296 <=? c) && (c <=? 57343)) with false
    by (symmetry; apply andb_false_iff; destruct Hsur;
        [left; apply Z.leb_gt|right; apply Z.leb_gt]; lia).
  destruct (Z.leb_spec 2048 c); [|lia].
  destruct (Z.ltb_spec c 65536); cbn [andb].
  { intros [= <-]. right. right. left. split; [lia|]. split; [lia|reflexivity]. }
  destruct (Z.leb_spec 65536 c); [|lia].
  destruct (Z.ltb_spec c 1114112); cbn [andb]; [|discriminate].
  intros [= <-]. right. right. right. split; [lia|reflexivity].
Qed.

Lemma decode_encode_char c bs rest :
  encode_char c = Some bs ->
  utf8_decode (bs ++ rest)
  = match utf8_decode rest with Some s => Some (c :: s) | None => None end.
Proof.
  intros Henc.
  destruct (encode_char_cases c bs Henc)
    as (d0 & d1 & d2 & d3 & Ec & B0 & B1 & B2 & B3 & Hcase).
  destruct Hcase as [[Hr ->]|[[Hr ->]|[(Hr & Hs & ->)|[Hr ->]]]];
    cbn [app utf8_decode]; unfold second_ok, is_cont;
    settle_tests;
    (destruct (utf8_decode rest); [|reflexivity]);
    do 2 f_equal; lia.
Qed.

(** A proper prefix of the encoding of a code point does not decode. *)
Lemma decode_encode_char_prefix c bs (k : nat) :
  encode_char c = Some bs -> (0 < k < length bs)%nat ->
  utf8_decode (take k bs) = None.
Proof.
  intros Henc Hk.
  destruct (encode_char_cases c bs Henc)
    as (d0 & d1 & d2 & d3 & Ec & B0 & B1 & B2 & B3 & Hcase).
  destruct Hcase as [[Hr ->]|[[Hr ->]|[(Hr & Hs & ->)|[Hr ->]]]];
    simpl in Hk;
    destruct k as [|[|[|[|k]]]]; try lia;
    cbn [take utf8_decode]; unfold second_ok, is_cont;
    settle_tests; reflexivity.
Qed.

Lemma utf8_encode_app s t :
  utf8_encode (s ++ t)
  = match utf8_encode s, utf8_encode t with
    | Some a, Some b => Some (a ++ b)
    | _, _ => None
    end.
Proof.
  induction s as [|c s IH]; simpl.
  - destruct (utf8_encode t); reflexivity.
  - rewrite IH. destruct (encode_char c); [|reflexivity].
    destruct (utf8_encode s); [|reflexivity].
    destruct (utf8_encode t); [|reflexivity].
    rewrite app_assoc. reflexivity.
Qed.

Lemma decode_encode : forall s bs rest,
  utf8_encode s = Some bs ->
  utf8_decode (bs ++ rest)
  = match utf8_decode rest with Some x => Some (s ++ x) | None => None end.
Proof.
  induction s as [|c s IH]; intros bs rest Henc; simpl in Henc.
  - injection Henc as <-. simpl. destruct (utf8_decode rest); reflexivity.
  - destruct (encode_char c) as [bc|] eqn:Hc; [|discriminate].
    destruct (utf8_encode s) as [bs'|] eqn:Hs; [|discriminate].
    injection Henc as <-. rewrite <- app_assoc.
    rewrite (decode_encode_char c bc _ Hc), (IH bs' rest eq_refl).
    destruct (utf8_decode rest); reflexivity.
Qed.

(** A prefix of an encoded string that decodes ends at the boundary of a
    character. *)
Lemma decode_prefix : forall s bs (k : nat) x,
  utf8_encode s = Some bs ->
  utf8_decode (take k bs) = Some x ->
  exists u bx,
    s = x ++ u /\ utf8_encode x = Some bx
    /\ length bx = Nat.min k (length bs).
Proof.
  induction s as [|c s IH]; intros bs k x Henc Hdec; simpl in Henc.
  - injection Henc as <-. rewrite take_nil in Hdec. injection Hdec as <-.
    exists [], []. repeat split. simpl. lia.
  - destruct (encode_char c) as [bc|] eqn:Hc; [|discriminate].
    destruct (utf8_encode s) as [bs'|] eqn:Hs; [|discriminate].
    injection Henc as <-.
    pose proof (encode_char_length c bc Hc) as Hlen.
    destruct (decide (k = 0)%nat) as [->|Hk0].
    { simpl in Hdec. injection Hdec as <-. exists (c :: s), [].
      repeat split. }
    destruct (decide (k < length bc)%nat) as [Hshort|Hlong].
    { rewrite take_app_le in Hdec by lia.
      rewrite (decode_encode_char_prefix c bc k Hc) in Hdec by lia. discriminate. }
    rewrite take_app_ge in Hdec by lia.
    rewrite (decode_encode_char c bc _ Hc) in Hdec.
    destruct (utf8_decode (take (k - length bc) bs')) as [x'|] eqn:Hx; [|discriminate].
    injection Hdec as <-.
    destruct (IH bs' _ x' eq_refl Hx) as (u & bx & -> & Hbx & Hlenx).
    exists u, (bc ++ bx). split; [reflexivity|]. split.
    + simpl. rewrite Hc, Hbx. reflexivity.
    + rewrite !length_app. lia.
Qed.

Lemma utf8_encode_nil_inv s : utf8_encode s = Some [] -> s = [].
Proof.
  destruct s as [|c s]; [reflexivity|]. simpl.
  destruct (encode_char c) as [bc|] eqn:Hc; [|discriminate].
  destruct (utf8_encode s); [|discriminate].
  pose proof (encode_char_length c bc Hc). intros [= Heq].
  apply app_eq_nil in Heq as [-> _]. simpl in *. lia.
Qed.

Lemma slice_app_at {A} (a b : list A) k :
  0 <= k -> slice (a ++ b) (len a) (len a + k) = take (Z.to_nat k) b.
Proof.
  intros Hk. unfold slice, adjust_index.
  pose proof (len_nonneg a). pose proof (len_nonneg b).
  assert (Hlen : len (a ++ b) = len a + len b)
    by (unfold len; rewrite length_app; lia).
  destruct (Z.ltb_spec (len a) 0), (Z.ltb_spec (len a + k) 0); try lia.
  rewrite Hlen, (Z.min_l (len a)) by lia.
  replace (Z.to_nat (len a)) with (length a) by (unfold len; lia).
  rewrite drop_app_length.
  destruct (Z.le_gt_cases k (len b)).
  - rewrite Z.min_l by lia. f_equal. lia.
  - rewrite Z.min_r by lia.
    rewrite !take_ge; [reflexivity|unfold len in *; lia|unfold len in *; lia].
Qed.

Section Lossless.
Variable payload : pystr.
Variable encoded : list Z.
Variable limit : Z.
Hypothesis payload_encoded : utf8_encode payload = Some encoded.
Hypothesis limit_wide : 4 <= limit.

(** With room for any one character, every window is cut at the boundary
    of a character: nothing is decoded lossily. *)
Lemma windows_lossless cursor chunks :
  windows encoded limit cursor chunks ->
  forall done rest bdone,
  payload = done ++ rest -> utf8_encode done = Some bdone -> cursor = len bdone ->
  concat chunks = rest
  /\ Forall (fun chunk => chunk <> [] /\ fits limit chunk) chunks.
Proof using payload_encoded limit_wide.
  induction 1 as [cursor Hend|cursor chunk cursor' chunks Hin Hout Hrest IH];
    intros done rest bdone Hpayload Hdone ->.
  - (* the cursor is at the end *)
    rewrite Hpayload, utf8_encode_app, Hdone in payload_encoded.
    destruct (utf8_encode rest) as [brest|] eqn:Hr; [|discriminate].
    injection payload_encoded as <-.
    assert (brest = []).
    { destruct brest; [reflexivity|]. unfold len in Hend.
      rewrite length_app in Hend. simpl in Hend. lia. }
    subst brest. apply utf8_encode_nil_inv in Hr. subst rest.
    split; [reflexivity|constructor].
  - pose proof payload_encoded as Henc.
    rewrite Hpayload, utf8_encode_app, Hdone in Henc.
    destruct (utf8_encode rest) as [brest|] eqn:Hr; [|discriminate].
    injection Henc as Henc. symmetry in Henc.
    assert (Hslice : forall k, 0 <= k ->
              slice encoded (len bdone) (len bdone + k) = take (Z.to_nat k) brest).
    { intros k Hk. rewrite Henc. apply slice_app_at. exact Hk. }
    assert (Hbrest : 0 < len brest).
    { rewrite Henc in Hin. unfold len in *. rewrite length_app in Hin. lia. }
    (* the chunk is a prefix of the rest, cut at a boundary *)
    assert (Hcut : exists k : nat,
              utf8_decode (take k brest) = Some chunk
              /\ (0 < k)%nat /\ Z.of_nat k <= limit
              /\ cursor' = len bdone + Z.of_nat (Nat.min k (length brest))).
    { inversion Hout as [chunk0 Hdec|k chunk0 Hfail Hk Hdec Hmax|Hnone]; subst.
      - rewrite Hslice in Hdec by lia.
        exists (Z.to_nat limit). split; [exact Hdec|]. split; [lia|]. split; [lia|].
        rewrite Hslice by lia. unfold len. rewrite length_take. lia.
      - rewrite Hslice in Hdec, Hfail by lia.
        exists (Z.to_nat k). split; [exact Hdec|]. split; [lia|]. split; [lia|].
        assert (Hlt : (Z.to_nat k < length brest)%nat).
        { destruct (decide (Z.to_nat k < length brest)%nat); [assumption|].
          exfalso. rewrite take_ge in Hdec by lia.
          rewrite take_ge in Hfail by lia. congruence. }
        lia.
      - exfalso.
        destruct rest as [|c rest]; [simpl in Hr; injection Hr as <-;
                                     unfold len in Hbrest; simpl in Hbrest; lia|].
        simpl in Hr.
        destruct (encode_char c) as [bc|] eqn:Hc; [|discriminate].
        destruct (utf8_encode rest) as [br|]; [|discriminate].
        injection Hr as <-.
        pose proof (encode_char_length c bc Hc) as Hlen.
        specialize (Hnone (Z.of_nat (length bc)) ltac:(lia)).
        rewrite Hslice in Hnone by lia.
        rewrite Nat2Z.id, take_app_length in Hnone.
        rewrite <- (app_nil_r bc) in Hnone.
        rewrite (decode_encode_char c bc [] Hc) in Hnone. discriminate. }
    destruct Hcut as (k & Hdec & Hk & Hklimit & ->).
    destruct (decode_prefix rest brest k chunk Hr Hdec) as (u & bx & -> & Hbx & Hlenx).
    destruct (IH (done ++ chunk) u (bdone ++ bx)) as [Hcat Hall].
    + rewrite Hpayload, app_assoc. reflexivity.
    + rewrite utf8_encode_app, Hdone, Hbx. reflexivity.
    + unfold len. rewrite length_app. lia.
    + split; [simpl; rewrite Hcat; reflexivity|].
      constructor; [|exact Hall]. split.
      * intros ->. simpl in Hbx. injection Hbx as <-. simpl in Hlenx.
        unfold len in Hbrest. lia.
      * exists bx. split; [exact Hbx|]. unfold len. lia.
Qed.

End Lossless.

(** ** Byte windows are lossless *)

Lemma split_by_bytes_run (payload : pystr) (limit : Z) :
  Forall scalar_value payload -> 4 <= limit ->
  exists chunks,
    _split_by_bytes payload limit = Returns chunks
    /\ concat chunks = payload
    /\ Forall (fits limit) chunks
    /\ chunks <> []
    /\ (payload <> [] -> Forall (fun chunk => chunk <> []) chunks).
Proof.
  intros Hwf Hlimit. unfold _split_by_bytes.
  destruct (Z.leb_spec limit 0); [lia|].
  destruct (utf8_encode_scalar payload Hwf) as (encoded & Henc & Hbytes).
  rewrite Henc.
  destruct (Z.leb_spec (len encoded) limit) as [Hfit|Hbig].
  - exists [payload]. split; [reflexivity|]. split; [simpl; apply app_nil_r|].
    split; [constructor; [|constructor]; exists encoded; auto|].
    split; [discriminate|].
    intros Hne. constructor; [exact Hne|constructor].
  - destruct (bytes_loop_spec encoded limit ltac:(lia) Hbytes (length encoded) 0)
      as (chunks & Hrun & Hwin & _); [lia|unfold len; lia|].
    destruct (windows_lossless payload encoded limit Henc Hlimit 0 chunks Hwin
                [] payload [] eq_refl eq_refl eq_refl) as [Hcat Hall].
    exists chunks. rewrite Hrun. split; [reflexivity|]. split; [exact Hcat|].
    split; [|split].
    + eapply Forall_impl; [exact Hall|]. intros chunk [_ Hfits]. exact Hfits.
    + inversion Hwin; subst; [lia|discriminate].
    + intros _. eapply Forall_impl; [exact Hall|]. intros chunk [Hne _]. exact Hne.
Qed.

(** X22.  [_split_by_bytes] with room for any one character ([limit >= 4]) is
    lossless: it returns chunks that give back the payload when
    concatenated, each of which encodes to at most [limit] bytes, none
    empty unless the payload is. *)
Theorem split_by_bytes_lossless (payload : pystr) (limit : Z) :
  Forall scalar_value payload -> 4 <= limit ->
  exists chunks,
    _split_by_bytes payload limit = Returns chunks
    /\ concat chunks = payload
    /\ Forall (fits limit) chunks
    /\ (payload <> [] -> Forall (fun chunk => chunk <> []) chunks).
Proof.
  intros Hwf Hlimit.
  destruct (split_by_bytes_run payload limit Hwf Hlimit)
    as (chunks & Hrun & Hcat & Hfits & _ & Hne).
  exists chunks. auto.
Qed.

Lemma split_by_bytes_lossless_witness :
  exists chunks,
    _split_by_bytes [97; 233; 8364; 128512; 98] 4 = Returns chunks
    /\ concat chunks = [97; 233; 8364; 128512; 98]
    /\ Forall (fits 4) chunks.
Proof.
  destruct (split_by_bytes_lossless [97; 233; 8364; 128512; 98] 4)
    as (chunks & Hrun & Hcat & Hfits & _).
  - repeat constructor; unfold scalar_value; lia.
  - lia.
  - exists chunks. auto.
Defined.

(** ** The file splitters on disk *)

Lemma plain_text_scalar (s : pystr) : plain_text s -> Forall scalar_value s.
Proof.
  intros Hs. eapply Forall_impl; [exact Hs|]. intros c [Hc _]. exact Hc.
Qed.

Section FileSplitters.
Context {H : Hasher} {J : JsonCodec} {P : HtmlParser} {D : PdfCodec}.

(** With no part file on disk beforehand, every part is written and
    holds its payload. *)
Lemma _write_chunks_contents (p : path) (extension : pystr)
    (payload_list : list (list Z)) (st : state) :
  no_parts st p extension -> payload_list <> [] ->
  exists st',
    _write_chunks p extension payload_list st
    = (Returns (map (part_path p extension (len payload_list))
                  (seq 0 (length payload_list))), st')
    /\ contents st' (map (part_path p extension (len payload_list))
                       (seq 0 (length payload_list)))
       = map Some payload_list.
Proof.
  intros Hfresh Hne.
  destruct (_write_chunks_run p extension payload_list st)
    as (st' & Hrun & _ & Hparts).
  { intros j f _ Hf. unfold part_path in Hf. rewrite Hfresh in Hf.
    discriminate. }
  assert (Hsame : parts_of payload_list = payload_list)
    by (destruct payload_list; [congruence|reflexivity]).
  rewrite Hsame in *.
  exists st'. split; [exact Hrun|].
  unfold contents. apply list_eq. intros j.
  rewrite !list_lookup_fmap.
  destruct (payload_list !! j) as [payload|] eqn:Hj.
  - rewrite lookup_seq_lt by (apply lookup_lt_Some in Hj; exact Hj).
    destruct (Hparts j payload Hj) as (f & Hf & _ & [Hdata|Hold]).
    + simpl. rewrite Hf. simpl. rewrite Hdata. reflexivity.
    + unfold part_path in Hold. rewrite Hfresh in Hold. discriminate.
  - rewrite lookup_seq_ge by (apply lookup_ge_None_1 in Hj; lia). reflexivity.
Qed.

Lemma encode_all_spec : forall chunks,
  Forall (Forall scalar_value) chunks ->
  exists encoded_chunks,
    encode_all chunks = Returns encoded_chunks
    /\ Forall2 (fun chunk bs => utf8_encode chunk = Some bs) chunks encoded_chunks
    /\ utf8_encode (concat chunks) = Some (concat encoded_chunks).
Proof.
  induction 1 as [|chunk chunks Hc _ (rest & Hrest & Hall & Hcat)]; simpl.
  - exists []. split; [reflexivity|]. split; [constructor|reflexivity].
  - destruct (utf8_encode_scalar chunk Hc) as (bs & Hbs & _).
    rewrite Hbs, Hrest. simpl. exists (bs :: rest).
    split; [reflexivity|]. split; [constructor; assumption|].
    rewrite utf8_encode_app, Hbs, Hcat. reflexivity.
Qed.

Lemma Forall_concat_inv {A} (Q : A -> Prop) (chunks : list (list A)) :
  Forall Q (concat chunks) -> Forall (Forall Q) chunks.
Proof.
  induction chunks as [|c chunks IH]; simpl; intros Hall; [constructor|].
  apply Forall_app in Hall as [Hc Hrest]. constructor; [exact Hc|apply IH, Hrest].
Qed.

End FileSplitters.

Section FileSplittersLossless.
Context {H : Hasher} {P : HtmlParser}.

(** X23.  [split_html] by bytes, with a limit of at least 4 bytes (the default
    is 200000), on a readable file that holds a text without carriage
    returns, when no part file of it is on disk yet: it returns the
    paths of the parts, numbered in order beside the file; the parts on
    disk, concatenated, are the UTF-8 encoding of the text, which is the
    content of the file; and no part is longer than the limit. *)
Theorem split_html_by_bytes_lossless (p : path) (max_bytes max_nodes : option Z)
    (st : state) (f : file) :
  files st !! p = Some f -> f_readable f = true -> plain_text (f_data f) ->
  truthy max_nodes = false -> 4 <= html_byte_limit max_bytes ->
  no_parts st p (lit ".html") ->
  exists parts st',
    split_html p max_bytes max_nodes st
    = (Returns (map (part_path p (lit ".html") (len parts))
                  (seq 0 (length parts))), st')
    /\ contents st' (map (part_path p (lit ".html") (len parts))
                       (seq 0 (length parts))) = map Some parts
    /\ utf8_encode (f_data f) = Some (concat parts)
    /\ Forall (fun part => len part <= html_byte_limit max_bytes) parts.
Proof.
  intros Hf Hr Hplain Hnodes Hlimit Hfresh.
  pose proof (plain_text_scalar _ Hplain) as Hwf.
  unfold split_html. unfold bind at 1, read at 1.
  rewrite Hf, Hr. rewrite Hnodes.
  assert (Hlim : (if truthy (if negb (truthy max_bytes) && negb false
                             then Some 200000 else max_bytes)
                  then default 0 (if negb (truthy max_bytes) && negb false
                                  then Some 200000 else max_bytes)
                  else 1) = html_byte_limit max_bytes).
  { unfold html_byte_limit. destruct (truthy max_bytes) eqn:Ht; simpl.
    - rewrite Ht. reflexivity.
    - reflexivity. }
  rewrite Hlim.
  destruct (split_by_bytes_run (f_data f) (html_byte_limit max_bytes) Hwf Hlimit)
    as (chunks & Hsplit & Hcat & Hfits & Hne & _).
  unfold bind at 1, lift at 1. rewrite Hsplit.
  assert (Hchunks : Forall (Forall scalar_value) chunks).
  { apply Forall_concat_inv. rewrite Hcat. exact Hwf. }
  destruct (encode_all_spec chunks Hchunks) as (parts & Henc & Hall & Hconcat).
  unfold bind at 1, lift at 1. rewrite Henc.
  assert (Hparts_ne : parts <> []).
  { intros ->. inversion Hall. subst. congruence. }
  destruct (_write_chunks_contents p (lit ".html") parts st Hfresh Hparts_ne)
    as (st' & Hrun & Hcontents).
  exists parts, st'. split; [exact Hrun|]. split; [exact Hcontents|].
  split; [rewrite <- Hcat; exact Hconcat|].
  clear -Hall Hfits. induction Hall as [|chunk bs chunks parts Hbs _ IH];
    [constructor|].
  apply Forall_cons in Hfits as [[bs' [Hbs' Hle]] Hfits].
  constructor; [congruence|apply IH, Hfits].
Qed.

Lemma split_text_file_run (extension : pystr) (p : path) (max_chars : Z)
    (st : state) (f : file) :
  files st !! p = Some f -> f_readable f = true -> plain_text (f_data f) ->
  1 <= max_chars -> no_parts st p extension ->
  exists chunks parts st',
    (payload <- read p ;;
     chunks <- lift (_split_text payload max_chars) ;;
     payloads <- lift (encode_all chunks) ;;
     _write_chunks p extension payloads) st
    = (Returns (map (part_path p extension (len parts)) (seq 0 (length parts))),
       st')
    /\ contents st' (map (part_path p extension (len parts))
                       (seq 0 (length parts))) = map Some parts
    /\ Forall2 (fun chunk part => utf8_encode chunk = Some part) chunks parts
    /\ concat chunks = f_data f
    /\ Forall (fun chunk => len chunk <= max_chars) chunks.
Proof.
  intros Hf Hr Hplain Hmax Hfresh.
  pose proof (plain_text_scalar _ Hplain) as Hwf.
  unfold bind at 1, read at 1. rewrite Hf, Hr.
  destruct (_split_text_run (f_data f) max_chars)
    as (chunks & Hsplit & Hcat & Hne & _ & Hcut).
  unfold bind at 1, lift at 1. rewrite Hsplit.
  assert (Hchunks : Forall (Forall scalar_value) chunks).
  { apply Forall_concat_inv. rewrite Hcat. exact Hwf. }
  destruct (encode_all_spec chunks Hchunks) as (parts & Henc & Hall & _).
  unfold bind at 1, lift at 1. rewrite Henc.
  assert (Hparts_ne : parts <> []).
  { intros ->. inversion Hall. subst. congruence. }
  destruct (_write_chunks_contents p extension parts st Hfresh Hparts_ne)
    as (st' & Hrun & Hcontents).
  exists chunks, parts, st'. split; [exact Hrun|]. split; [exact Hcontents|].
  split; [exact Hall|]. split; [exact Hcat|].
  destruct (f_data f) as [|c rest] eqn:Hdata.
  - unfold _split_text in Hsplit.
    replace (len (@nil Z) <=? max_chars) with true in Hsplit
      by (symmetry; apply Z.leb_le; unfold len; simpl; lia).
    rewrite orb_true_r in Hsplit. injection Hsplit as <-.
    constructor; [unfold len; simpl; lia|constructor].
  - assert (Hne' : c :: rest <> []) by discriminate.
    destruct (Hcut Hmax Hne') as [(_ & Hall' & _) _].
    eapply Forall_impl; [exact Hall'|]. intros chunk ?. simpl in *. lia.
Qed.

(** X24.  [split_md] and [split_txt] with [max_chars >= 1] on a readable
    file that holds a text without carriage returns, when no part file
    of it is on disk yet: the parts on disk are the encodings of chunks
    of at most [max_chars] characters each that, concatenated, are the
    text of the file. *)
Theorem split_md_txt_lossless (split : path -> Z -> M (list path))
    (extension : pystr) (p : path) (max_chars : Z) (st : state) (f : file) :
  In (split, extension) [(split_md, lit ".md"); (split_txt, lit ".txt")] ->
  files st !! p = Some f -> f_readable f = true -> plain_text (f_data f) ->
  1 <= max_chars -> no_parts st p extension ->
  exists chunks parts st',
    split p max_chars st
    = (Returns (map (part_path p extension (len parts)) (seq 0 (length parts))),
       st')
    /\ contents st' (map (part_path p extension (len parts))
                       (seq 0 (length parts))) = map Some parts
    /\ Forall2 (fun chunk part => utf8_encode chunk = Some part) chunks parts
    /\ concat chunks = f_data f
    /\ Forall (fun chunk => len chunk <= max_chars) chunks.
Proof.
  intros [Heq|[Heq|[]]]; injection Heq as <- <-; apply split_text_file_run.
Qed.

End FileSplittersLossless.

Lemma singleton_no_parts (d name : pystr) (g : file) (tick : Z)
    (extension : pystr) :
  (forall i n, chunk_file_name (stem name) i n extension <> name) ->
  no_parts {| files := {[ (d, name) := g ]}; clock := tick; trace := [] |}
    (d, name) extension.
Proof.
  intros Hname i n. cbn [files fst snd].
  apply lookup_singleton_None. intros [= Heq]. exact (Hname i n (eq_sym Heq)).
Qed.

Lemma split_html_by_bytes_lossless_witness :
  let p := (lit "out", lit "doc.html") in
  let f := {| f_data := [97; 233; 8364; 128512; 98]; f_mtime := 0;
              f_readable := true |} in
  let st := {| files := {[ p := f ]}; clock := 1; trace := [] |} in
  exists parts,
    (split_html (H := identity_hasher) (P := toy_parser) p (Some 4) None st).1
    = Returns (map (part_path p (lit ".html") (len parts)) (seq 0 (length parts)))
    /\ utf8_encode [97; 233; 8364; 128512; 98] = Some (concat parts)
    /\ Forall (fun part => len part <= 4) parts.
Proof.
  intros p f st.
  destruct (split_html_by_bytes_lossless (H := identity_hasher) (P := toy_parser)
              p (Some 4) None st f)
    as (parts & st' & Hrun & _ & Hcat & Hfits).
  - apply lookup_singleton_eq.
  - reflexivity.
  - literal_chars.
  - reflexivity.
  - vm_compute. discriminate.
  - apply singleton_no_parts. intros i n Heq.
    apply (f_equal (fun s => s !! 3%nat)) in Heq. vm_compute in Heq.
    discriminate Heq.
  - exists parts. rewrite Hrun. auto.
Defined.

Lemma split_md_txt_lossless_witness :
  let p := (lit "out", lit "doc.md") in
  let f := {| f_data := lit "abcde"; f_mtime := 0; f_readable := true |} in
  let st := {| files := {[ p := f ]}; clock := 1; trace := [] |} in
  exists chunks parts,
    (split_md (H := identity_hasher) p 2 st).1
    = Returns (map (part_path p (lit ".md") (len parts)) (seq 0 (length parts)))
    /\ Forall2 (fun chunk part => utf8_encode chunk = Some part) chunks parts
    /\ concat chunks = lit "abcde"
    /\ Forall (fun chunk => len chunk <= 2) chunks.
Proof.
  intros p f st.
  destruct (split_md_txt_lossless (H := identity_hasher)
              (split_md (H := identity_hasher)) (lit ".md") p 2 st f)
    as (chunks & parts & st' & Hrun & _ & Hall & Hcat & Hfits).
  - left. reflexivity.
  - apply lookup_singleton_eq.
  - reflexivity.
  - literal_chars.
  - lia.
  - apply singleton_no_parts. intros i n Heq.
    apply (f_equal (fun s => s !! 3%nat)) in Heq. vm_compute in Heq.
    discriminate Heq.
  - exists chunks, parts. rewrite Hrun. auto.
Defined.
